(** * Milk yield dashboard: the yield aggregation and reporting queries

    A shallow embedding of [milking_streamlit.py]: the two tables it reads,
    the SQL aggregation queries of [load_animals], [farm_yield_summary] and
    [animal_yield_summary], the pandas post-processing (average, rounding,
    merge, fill), the last-six-months detail query and the annual CSV export.

    Conventions of the embedding.
    - A [record_date] is the text 'YYYY-MM-DD'; it is kept as the triple
      (year, month, day), and the text comparison SQLite performs on it is
      the lexicographic comparison of the triple.
    - [yield_value] is a REAL, an IEEE 754 binary64 number, kept as the
      rational [Q] it denotes; equalities between rationals are stated
      with [==]. The queries of [Dashboard] add, divide and round the exact
      values. [Binary64] gives SUM the way SQLite computes it, adding the
      values row by row in binary64, each addition rounded to 53 bits; the
      properties that compare totals with one another are stated on it.
    - A pandas float that may be infinite or undefined is a [fnum].
    - Whole numbers are unbounded ([Z]): the counts and the rounded liters
      of the int64 columns stay far below 2^63.
    - [date.today()] is an argument of every function that reads it.
    - The CSV text ends its lines with a line feed, the value of
      os.linesep that to_csv uses on POSIX systems. *)

From Stdlib Require Import String Ascii DecimalString DecimalZ.
From Stdlib Require Import ZArith QArith Qround Qabs Qpower Bool Lia Lqa.
From Stdlib Require Import SpecFloat.
From Stdlib Require Import Permutation Sorted List.
Import ListNotations.

Local Open Scope Z_scope.

(* ------------------------------------------------------------------ *)
(** ** Calendar dates (datetime.date and ISO date text)                 *)
(* ------------------------------------------------------------------ *)

Module Calendar.

Record date : Type := mkdate { year : Z; month : Z; day : Z }.

Definition date_eq_dec (a b : date) : {a = b} + {a <> b}.
Proof. decide equality; apply Z.eq_dec. Defined.

(** datetime._is_leap *)
Definition is_leap (y : Z) : bool :=
  (y mod 4 =? 0) && (negb (y mod 100 =? 0) || (y mod 400 =? 0)).

(** datetime._DAYS_IN_MONTH, index 0 unused *)
Definition DAYS_IN_MONTH : list Z :=
  [-1; 31; 28; 31; 30; 31; 30; 31; 31; 30; 31; 30; 31].

(** datetime._DAYS_BEFORE_MONTH, index 0 unused *)
Definition DAYS_BEFORE_MONTH : list Z :=
  [-1; 0; 31; 59; 90; 120; 151; 181; 212; 243; 273; 304; 334].

Definition days_in_month (y m : Z) : Z :=
  if (m =? 2) && is_leap y then 29
  else nth (Z.to_nat m) DAYS_IN_MONTH 0.

Definition days_before_month (y m : Z) : Z :=
  nth (Z.to_nat m) DAYS_BEFORE_MONTH 0
  + (if (2 <? m) && is_leap y then 1 else 0).

Definition days_before_year (y : Z) : Z :=
  let y1 := y - 1 in
  y1 * 365 + y1 / 4 - y1 / 100 + y1 / 400.

(** date.toordinal: 0001-01-01 is day 1 *)
Definition toordinal (d : date) : Z :=
  days_before_year (year d) + days_before_month (year d) (month d) + day d.

(** The calendar days: the dates datetime.date accepts, written
    'YYYY-MM-DD' with a four-digit year. *)
Definition valid_date (d : date) : bool :=
  (1 <=? year d) && (year d <=? 9999) &&
  (1 <=? month d) && (month d <=? 12) &&
  (1 <=? day d) && (day d <=? days_in_month (year d) (month d)).

(** Comparison of two 'YYYY-MM-DD' texts, field by field. *)
Definition date_compare (a b : date) : comparison :=
  match year a ?= year b with
  | Eq => match month a ?= month b with
          | Eq => day a ?= day b
          | c => c
          end
  | c => c
  end.

Definition date_leb (a b : date) : bool :=
  match date_compare a b with Gt => false | _ => true end.

(** One calendar day back. *)
Definition prev_day (d : date) : date :=
  if 1 <? day d then mkdate (year d) (month d) (day d - 1)
  else if 1 <? month d
       then mkdate (year d) (month d - 1)
                   (days_in_month (year d) (month d - 1))
       else mkdate (year d - 1) 12 31.

(** [d - timedelta(days=n)]; Python raises OverflowError when the result
    would precede 0001-01-01, a case no current date reaches. *)
Definition sub_days (d : date) (n : nat) : date := Nat.iter n prev_day d.
Global Arguments sub_days : simpl never.

(** A month key, strftime('%Y-%m', d) of a calendar day: the text
    'YYYY-MM' as a pair. *)
Definition month_key : Type := (Z * Z)%type.

Definition strftime_Ym (d : date) : month_key := (year d, month d).

Definition month_key_eq_dec (a b : month_key) : {a = b} + {a <> b}.
Proof. decide equality; apply Z.eq_dec. Defined.

Definition month_key_eqb (a b : month_key) : bool :=
  (fst a =? fst b) && (snd a =? snd b).

Definition month_key_leb (a b : month_key) : bool :=
  match fst a ?= fst b with
  | Lt => true
  | Gt => false
  | Eq => snd a <=? snd b
  end.

End Calendar.

Import Calendar.

(* ------------------------------------------------------------------ *)
(** ** SQL: aggregates, GROUP BY and ORDER BY over lists of rows        *)
(* ------------------------------------------------------------------ *)

Module Sql.

(** The exact sum of a column of REALs. *)
Definition Qsum (xs : list Q) : Q := fold_right Qplus (0 # 1)%Q xs.

(** SUM(x): NULL when there is no row. *)
Definition SUM (xs : list Q) : option Q :=
  match xs with
  | [] => None
  | _ => Some (Qsum xs)
  end.

Definition COALESCE {A : Type} (x : option A) (dflt : A) : A :=
  match x with
  | Some v => v
  | None => dflt
  end.

(** COUNT( * ) *)
Definition COUNT {A : Type} (rows : list A) : Z := Z.of_nat (length rows).

(** COUNT(DISTINCT x) *)
Definition COUNT_DISTINCT {A : Type} (eq_dec : forall a b : A, {a = b} + {a <> b})
           (xs : list A) : Z :=
  Z.of_nat (length (nodup eq_dec xs)).

(** MIN(x) and MAX(x) under a comparison [leb]: NULL when there is no row. *)
Fixpoint MIN {A : Type} (leb : A -> A -> bool) (xs : list A) : option A :=
  match xs with
  | [] => None
  | x :: t => match MIN leb t with
              | None => Some x
              | Some m => Some (if leb x m then x else m)
              end
  end.

Fixpoint MAX {A : Type} (leb : A -> A -> bool) (xs : list A) : option A :=
  match xs with
  | [] => None
  | x :: t => match MAX leb t with
              | None => Some x
              | Some m => Some (if leb x m then m else x)
              end
  end.

(** AVG(x): NULL when there is no row. *)
Definition AVG (xs : list Q) : option Q :=
  match xs with
  | [] => None
  | _ => Some (Qsum xs / inject_Z (Z.of_nat (length xs)))%Q
  end.

(** ROUND(x, 1): SQLite rounds half away from zero. *)
Definition ROUND1 (x : Q) : Q :=
  let t := Qfloor (Qabs x * (10 # 1) + (1 # 2)) in
  (if Qle_bool (0 # 1) x then inject_Z t / (10 # 1)
   else - (inject_Z t / (10 # 1)))%Q.

Section OrderBy.
Context {A : Type} (leb : A -> A -> bool).

Fixpoint insert (x : A) (l : list A) : list A :=
  match l with
  | [] => [x]
  | y :: t => if leb x y then x :: l else y :: insert x t
  end.

(** ORDER BY, ascending under [leb]. *)
Definition ORDER_BY (l : list A) : list A := fold_right insert [] l.
End OrderBy.

Section GroupBy.
Context {A K : Type}.
Variable eq_dec : forall a b : K, {a = b} + {a <> b}.
Variable leb : K -> K -> bool.
Variable key : A -> K.

Definition has_key (k : K) (r : A) : bool :=
  if eq_dec (key r) k then true else false.

Definition key_in (ks : list K) (r : A) : bool :=
  if in_dec eq_dec (key r) ks then true else false.

(** GROUP BY key ORDER BY key: one group per distinct key value that
    occurs, holding the rows with that key, keys ascending. *)
Definition GROUP_BY (rows : list A) : list (K * list A) :=
  map (fun k => (k, filter (has_key k) rows))
      (ORDER_BY leb (nodup eq_dec (map key rows))).
End GroupBy.

End Sql.

(* ------------------------------------------------------------------ *)
(** ** pandas: float columns, rounding, merge and fill                  *)
(* ------------------------------------------------------------------ *)

Module Pandas.

(** A float64 that may be infinite or undefined. *)
Inductive fnum : Type :=
| Finite (q : Q)
| PInf
| NInf
| NaN.

(** Series / Series on floats: no exception on a zero divisor. *)
Definition truediv (x : Q) (n : Z) : fnum :=
  if n =? 0 then
    match (x ?= 0 # 1)%Q with
    | Eq => NaN
    | Gt => PInf
    | Lt => NInf
    end
  else Finite (x / inject_Z n)%Q.

(** Rounding to the nearest integer, ties to the even one. *)
Definition round_half_even (q : Q) : Z :=
  let f := Qfloor q in
  match ((q - inject_Z f) ?= 1 # 2)%Q with
  | Lt => f
  | Gt => f + 1
  | Eq => if Z.even f then f else f + 1
  end.

(** Series.round(1) on numbers *)
Definition round1 (q : Q) : Q :=
  (inject_Z (round_half_even (q * (10 # 1))) / (10 # 1))%Q.

(** Series.round(1) *)
Definition round_1 (x : fnum) : fnum :=
  match x with
  | Finite q => Finite (round1 q)
  | other => other
  end.

Section Merge.
Context {K V W : Type} (eqb : K -> K -> bool).

(** left.merge(right, on=key, how="left"): every left row, in the
    order of the left frame, once per right row with the same key, or
    once with a missing right value when there is none. *)
Definition merge_left (left : list (K * V)) (right : list (K * W))
  : list (K * V * option W) :=
  flat_map
    (fun l =>
       match filter (fun r => eqb (fst l) (fst r)) right with
       | [] => [(fst l, snd l, None)]
       | matches => map (fun r => (fst l, snd l, Some (snd r))) matches
       end)
    left.
End Merge.

(** .fillna(0) followed by astype(int) on the merged count column *)
Definition fillna0 {K V : Type} (rows : list (K * V * option Z))
  : list (K * V * Z) :=
  map (fun r => (fst r, Sql.COALESCE (snd r) 0)) rows.

End Pandas.

(* ------------------------------------------------------------------ *)
(** ** Text: number formatting and CSV                                  *)
(* ------------------------------------------------------------------ *)

Module Text.
Import Pandas.
Local Open Scope string_scope.

Definition LF : ascii := "010"%char.
Definition CR : ascii := "013"%char.
Definition DQ : ascii := "034"%char.
Definition COMMA : ascii := ","%char.

Definition is_digit (c : ascii) : bool :=
  existsb (Ascii.eqb c)
          ["0"; "1"; "2"; "3"; "4"; "5"; "6"; "7"; "8"; "9"]%char.

(** The decimal digits of a natural number. *)
Definition digits (n : Z) : string :=
  NilZero.string_of_uint (N.to_uint (Z.to_N n)).

(** str(n) for an int *)
Definition str_int (z : Z) : string :=
  NilZero.string_of_int (Z.to_int z).

(** Thousands separators, on the digits read from the right. *)
Fixpoint group3 (l : list ascii) : list ascii :=
  match l with
  | a :: b :: c :: ((_ :: _) as rest) =>
      a :: b :: c :: COMMA :: group3 rest
  | _ => l
  end.

Definition thousands (s : string) : string :=
  string_of_list_ascii (rev (group3 (rev (list_ascii_of_string s)))).

Definition sign (q : Q) : string :=
  match (q ?= 0 # 1)%Q with
  | Lt => "-"
  | _ => ""
  end.

(** "{:,.0f}".format(x) on a number *)
Definition format_comma_0f (q : Q) : string :=
  sign q ++ thousands (digits (round_half_even (Qabs q))).

(** "{:,.1f}".format(x) on a number *)
Definition format_comma_1f (q : Q) : string :=
  let t := round_half_even (Qabs q * (10 # 1)) in
  sign q ++ thousands (digits (t / 10)) ++ "." ++ digits (t mod 10).

(** The same formats on a float64. *)
Definition format_float (fmt : Q -> string) (x : fnum) : string :=
  match x with
  | Finite q => fmt q
  | PInf => "inf"
  | NInf => "-inf"
  | NaN => "nan"
  end.

(** A cell of a DataFrame. *)
Inductive cell : Type :=
| CInt (z : Z)
| CFloat (x : fnum)
| CStr (s : string).

(** fmt.format(cell): a str cell has no 'f' format (ValueError). *)
Definition format_cell (fmt : Q -> string) (c : cell) : option cell :=
  match c with
  | CInt z => Some (CStr (fmt (inject_Z z)))
  | CFloat x => Some (CStr (format_float fmt x))
  | CStr _ => None
  end.

Record frame : Type := mkframe {
  fr_columns : list string;
  fr_rows : list (list cell)
}.

Fixpoint traverse {A B : Type} (f : A -> option B) (l : list A)
  : option (list B) :=
  match l with
  | [] => Some []
  | x :: t => match f x, traverse f t with
              | Some y, Some ys => Some (y :: ys)
              | _, _ => None
              end
  end.

Fixpoint index_of (name : string) (cols : list string) : option nat :=
  match cols with
  | [] => None
  | c :: t => if String.eqb c name then Some O
              else option_map S (index_of name t)
  end.

Fixpoint replace_nth {A : Type} (i : nat) (x : A) (l : list A) : list A :=
  match l, i with
  | [], _ => []
  | _ :: t, O => x :: t
  | y :: t, S j => y :: replace_nth j x t
  end.

(** f[dst] = f[src]: a new last column, or the column [dst] replaced;
    KeyError when [src] is missing. *)
Definition assign_from (dst src : string) (f : frame) : option frame :=
  match index_of src (fr_columns f) with
  | None => None
  | Some i =>
      match index_of dst (fr_columns f) with
      | Some j =>
          option_map (mkframe (fr_columns f))
            (traverse (fun r => option_map (fun c => replace_nth j c r)
                                           (nth_error r i))
                      (fr_rows f))
      | None =>
          option_map (mkframe (fr_columns f ++ [dst])%list)
            (traverse (fun r => option_map (fun c => (r ++ [c])%list)
                                           (nth_error r i))
                      (fr_rows f))
      end
  end.

(** f[[names]]: KeyError when a name is missing. *)
Definition select (names : list string) (f : frame) : option frame :=
  match traverse (fun n => index_of n (fr_columns f)) names with
  | None => None
  | Some idx =>
      option_map (mkframe names)
        (traverse (fun r => traverse (nth_error r) idx) (fr_rows f))
  end.

(** f.columns = names: ValueError on a length mismatch. *)
Definition set_columns (names : list string) (f : frame) : option frame :=
  if Nat.eqb (length names) (length (fr_columns f))
  then Some (mkframe names (fr_rows f))
  else None.

(** f[name] = f[name].map(fn) *)
Definition map_column (name : string) (fn : cell -> option cell)
           (f : frame) : option frame :=
  match index_of name (fr_columns f) with
  | None => None
  | Some i =>
      option_map (mkframe (fr_columns f))
        (traverse (fun r => match nth_error r i with
                            | Some c => option_map
                                          (fun c' => replace_nth i c' r)
                                          (fn c)
                            | None => None
                            end)
                  (fr_rows f))
  end.

Definition bind {A B : Type} (x : option A) (k : A -> option B)
  : option B :=
  match x with
  | Some a => k a
  | None => None
  end.

Section Csv.
(** repr of a finite float, as to_csv writes a float cell; the export
    formats every float column into text before it writes, so the
    choice of [float_repr] does not show in its output. *)
Variable float_repr : Q -> string.

Definition cell_text (c : cell) : string :=
  match c with
  | CInt z => str_int z
  | CFloat (Finite q) => float_repr q
  | CFloat PInf => "inf"
  | CFloat NInf => "-inf"
  | CFloat NaN => ""
  | CStr s => s
  end.

Definition special (c : ascii) : bool :=
  Ascii.eqb c COMMA || Ascii.eqb c DQ || Ascii.eqb c LF || Ascii.eqb c CR.

(** csv.QUOTE_MINIMAL: a field holding a separator, a quote or a line
    break is quoted, and a quote inside it is doubled. *)
Definition write_field (s : string) : list ascii :=
  let cs := list_ascii_of_string s in
  if existsb special cs
  then (DQ :: flat_map (fun c => if Ascii.eqb c DQ then [DQ; DQ] else [c])
                       cs
           ++ [DQ])%list
  else cs.

Fixpoint write_row (fields : list string) : list ascii :=
  match fields with
  | [] => [LF]
  | [f] => (write_field f ++ [LF])%list
  | f :: rest => (write_field f ++ COMMA :: write_row rest)%list
  end.

(** f.to_csv(index=False).encode("utf-8"): the header line, then one
    line per row, no index column. *)
Definition to_csv (f : frame) : list ascii :=
  flat_map write_row
           (fr_columns f :: map (map cell_text) (fr_rows f)).
End Csv.

End Text.

(* ------------------------------------------------------------------ *)
(** ** The store: tables [animals] and [milk_yield]                     *)
(* ------------------------------------------------------------------ *)

Module Store.

Record animal : Type := mkanimal {
  a_ear_tag : string;
  farm_name : string;
  birth_date : option date
}.

Record milk : Type := mkmilk {
  ear_tag : string;
  record_date : date;
  record_year : Z;
  yield_value : Q
}.

Record db : Type := mkdb {
  animals : list animal;
  milk_yield : list milk
}.

End Store.

(* ------------------------------------------------------------------ *)
(** ** The queries of milking_streamlit.py                              *)
(* ------------------------------------------------------------------ *)

Module Dashboard.
Import Sql Pandas Store.

(** A row of the annual table [df_year]; [yr_cows] is the farm query's
    fourth aggregate, absent from the animal query. *)
Record year_agg : Type := mkyear_agg {
  ya_year : Z;
  ya_liters : Q;
  ya_days : Z;
  ya_cows : option Z
}.

Record year_row : Type := mkyear_row {
  yr_year : Z;
  yr_liters : Q;
  yr_days : Z;
  yr_cows : option Z;
  yr_avg_daily : fnum
}.

(** A row of the trend table [df_12mo]: month, liters, sessions. *)
Definition trend_row : Type := (month_key * Z * Z)%type.
Definition t_month (r : trend_row) : month_key := fst (fst r).
Definition t_liters (r : trend_row) : Z := snd (fst r).
Definition t_sessions (r : trend_row) : Z := snd r.

(** SELECT ear_tag, birth_date FROM animals WHERE farm_name = ?
    ORDER BY ear_tag *)
Definition load_animals (d : db) (farm : string)
  : list (string * option date) :=
  map (fun a => (a_ear_tag a, birth_date a))
      (ORDER_BY (fun a b => String.leb (a_ear_tag a) (a_ear_tag b))
                (filter (fun a => String.eqb (farm_name a) farm)
                        (animals d))).

(** FROM milk_yield m JOIN animals a ON m.ear_tag = a.ear_tag *)
Definition milk_join_animals (d : db) : list (milk * animal) :=
  flat_map
    (fun m =>
       map (pair m)
           (filter (fun a => String.eqb (ear_tag m) (a_ear_tag a))
                   (animals d)))
    (milk_yield d).

(** ... WHERE a.farm_name = ? : the yield rows of a farm. *)
Definition farm_records (d : db) (farm : string) : list milk :=
  map fst
      (filter (fun p => String.eqb (farm_name (snd p)) farm)
              (milk_join_animals d)).

(** FROM milk_yield WHERE ear_tag = ? : the yield rows of an animal. *)
Definition animal_records (d : db) (tag : string) : list milk :=
  filter (fun m => String.eqb (ear_tag m) tag) (milk_yield d).

Definition yields (rows : list milk) : list Q := map yield_value rows.
Definition dates (rows : list milk) : list date := map record_date rows.
Definition tags (rows : list milk) : list string := map ear_tag rows.

(** SELECT COALESCE(SUM(yield_value),0) AS total_liters *)
Definition total_liters (rows : list milk) : Q :=
  COALESCE (SUM (yields rows)) (0 # 1)%Q.

(** SELECT COUNT(DISTINCT record_date) AS lactation_days *)
Definition lactation_days (rows : list milk) : Z :=
  COUNT_DISTINCT date_eq_dec (dates rows).

(** SELECT record_year AS year, SUM(yield_value) AS liters,
    COUNT(DISTINCT record_date) AS days [, COUNT(DISTINCT ear_tag) AS cows]
    ... GROUP BY record_year ORDER BY record_year.
    SUM is taken over a group, which holds at least one row. *)
Definition annual_query (with_cows : bool) (rows : list milk)
  : list year_agg :=
  map (fun g =>
         {| ya_year := fst g;
            ya_liters := Qsum (yields (snd g));
            ya_days := COUNT_DISTINCT date_eq_dec (dates (snd g));
            ya_cows := if with_cows
                       then Some (COUNT_DISTINCT string_dec (tags (snd g)))
                       else None |})
      (GROUP_BY Z.eq_dec Z.leb record_year rows).

(** df_year["avg_daily"] = (df_year["liters"] / df_year["days"]).round(1) *)
Definition add_avg_daily (r : year_agg) : year_row :=
  {| yr_year := ya_year r;
     yr_liters := ya_liters r;
     yr_days := ya_days r;
     yr_cows := ya_cows r;
     yr_avg_daily := round_1 (truediv (ya_liters r) (ya_days r)) |}.

Definition df_year_of (with_cows : bool) (rows : list milk)
  : list year_row :=
  map add_avg_daily (annual_query with_cows rows).

(** since = (date.today() - timedelta(days=365)).isoformat() *)
Definition since (today : date) : date := sub_days today 365.

(** ... AND record_date >= ? *)
Definition on_or_after (start : date) (rows : list milk) : list milk :=
  filter (fun m => date_leb start (record_date m)) rows.

Definition record_month (m : milk) : month_key :=
  strftime_Ym (record_date m).

(** GROUP BY month ORDER BY month *)
Definition by_month (rows : list milk) : list (month_key * list milk) :=
  GROUP_BY month_key_eq_dec month_key_leb record_month rows.

(** SELECT strftime('%Y-%m',record_date) AS month, SUM(yield_value) AS
    liters ... GROUP BY month ORDER BY month *)
Definition month_liters_query (rows : list milk) : list (month_key * Q) :=
  map (fun g => (fst g, Qsum (yields (snd g)))) (by_month rows).

(** df_12mo["liters"] = df_12mo["liters"].round(0).astype(int) *)
Definition round0_int (s : list (month_key * Q)) : list (month_key * Z) :=
  map (fun r => (fst r, round_half_even (snd r))) s.

(** SELECT month, COUNT(DISTINCT m.ear_tag) AS sessions (farm scope) *)
Definition month_cows_query (rows : list milk) : list (month_key * Z) :=
  map (fun g => (fst g, COUNT_DISTINCT string_dec (tags (snd g))))
      (by_month rows).

(** SELECT month, COUNT( * ) AS sessions (animal scope) *)
Definition month_count_query (rows : list milk) : list (month_key * Z) :=
  map (fun g => (fst g, COUNT (snd g))) (by_month rows).

(** df_12mo.merge(df_count, on="month", how="left").fillna(0), then
    sessions.astype(int) *)
Definition merge_sessions (liters sessions : list (month_key * Z))
  : list trend_row :=
  fillna0 (merge_left month_key_eqb liters sessions).

Record farm_summary : Type := mkfarm_summary {
  fs_total : Q;
  fs_days : Z;
  fs_df_year : list year_row;
  fs_df_12mo : list trend_row
}.

Definition farm_yield_summary (d : db) (today : date) (farm : string)
  : farm_summary :=
  let rows := farm_records d farm in
  let total := total_liters rows in
  let days := lactation_days rows in
  let df_year := df_year_of true rows in
  let recent := on_or_after (since today) rows in
  let df_12mo := round0_int (month_liters_query recent) in
  let df_count := month_cows_query recent in
  {| fs_total := total;
     fs_days := days;
     fs_df_year := df_year;
     fs_df_12mo := merge_sessions df_12mo df_count |}.

(** The days pd.Timestamp holds at nanosecond resolution: Timestamp.min is
    1677-09-21 00:12:43.145224193 and Timestamp.max is
    2262-04-11 23:47:16.854775807. *)
Definition TIMESTAMP_FIRST_DAY : date := mkdate 1677 9 22.
Definition TIMESTAMP_LAST_DAY : date := mkdate 2262 4 11.

Definition timestamp_day (d : date) : bool :=
  valid_date d
  && date_leb TIMESTAMP_FIRST_DAY d && date_leb d TIMESTAMP_LAST_DAY.

(** pd.to_datetime(x).date(): an exception ([None]) on NULL, where
    to_datetime gives None and None has no date(), on a text that is not
    a date (ValueError) and on a date outside the Timestamp range
    (OutOfBoundsDatetime). *)
Definition to_datetime_date (x : option date) : option date :=
  match x with
  | Some d => if timestamp_day d then Some d else None
  | None => None
  end.

(** try: duration = (d1 - d0).days + 1  except: duration = days *)
Definition duration_of (mn mx : option date) (days : Z) : Z :=
  match to_datetime_date mn, to_datetime_date mx with
  | Some d0, Some d1 => toordinal d1 - toordinal d0 + 1
  | _, _ => days
  end.

Record stats_row : Type := mkstats {
  st_avg_daily : option Q;
  st_max_yield : option Q;
  st_min_yield : option Q
}.

(** SELECT ROUND(AVG(yield_value),1), MAX(yield_value), MIN(yield_value) *)
Definition stats_query (rows : list milk) : stats_row :=
  {| st_avg_daily := option_map ROUND1 (AVG (yields rows));
     st_max_yield := MAX Qle_bool (yields rows);
     st_min_yield := MIN Qle_bool (yields rows) |}.

Record animal_summary : Type := mkanimal_summary {
  as_total : Q;
  as_days : Z;
  as_duration : Z;
  as_df_year : list year_row;
  as_df_12mo : list trend_row;
  as_stats : stats_row
}.

Definition animal_yield_summary (d : db) (today : date) (tag : string)
  : animal_summary :=
  let rows := animal_records d tag in
  let total := total_liters rows in
  let days := lactation_days rows in
  let mn := MIN date_leb (dates rows) in
  let mx := MAX date_leb (dates rows) in
  let duration := duration_of mn mx days in
  let df_year := df_year_of false rows in
  let recent := on_or_after (since today) rows in
  let df_12mo := round0_int (month_liters_query recent) in
  let df_sessions := month_count_query recent in
  {| as_total := total;
     as_days := days;
     as_duration := duration;
     as_df_year := df_year;
     as_df_12mo := merge_sessions df_12mo df_sessions;
     as_stats := stats_query rows |}.

(** SELECT record_date AS Date, yield_value AS Liters FROM milk_yield
    WHERE ear_tag=? AND record_date>=? ORDER BY record_date,
    with today - 180 days as the bound. *)
Definition df_6mo (d : db) (today : date) (cow : string)
  : list (date * Q) :=
  map (fun m => (record_date m, yield_value m))
      (ORDER_BY (fun a b => date_leb (record_date a) (record_date b))
                (on_or_after (sub_days today 180) (animal_records d cow))).

(** The DataFrame [df_year]: the columns of the annual query, then the
    assigned [avg_daily]. *)
Definition frame_of_df_year (with_cows : bool) (df : list year_row)
  : Text.frame :=
  {| Text.fr_columns :=
       ["year"; "liters"; "days"]%string
       ++ (if with_cows then ["cows"%string] else [])
       ++ ["avg_daily"%string];
     Text.fr_rows :=
       map (fun r =>
              [Text.CInt (yr_year r); Text.CFloat (Finite (yr_liters r));
               Text.CInt (yr_days r)]
              ++ (if with_cows
                  then [Text.CInt (COALESCE (yr_cows r) 0)] else [])
              ++ [Text.CFloat (yr_avg_daily r)])
           df |}.

(** The table [csv] of the download:
      csv = df_year.copy()
      csv["Avg Daily (L)"] = csv["avg_daily"]
      csv = csv[["year","liters","days","avg_daily"]]
      csv.columns = ["Year","Total Liters","Days Milked","Avg Daily (L)"]
      then the three columns mapped with their format. *)
Definition csv (df_year : Text.frame) : option Text.frame :=
  Text.bind (Text.assign_from "Avg Daily (L)" "avg_daily" df_year)
  (fun c1 =>
  Text.bind (Text.select ["year"; "liters"; "days"; "avg_daily"]%string c1)
  (fun c2 =>
  Text.bind (Text.set_columns
               ["Year"; "Total Liters"; "Days Milked"; "Avg Daily (L)"]%string
               c2)
  (fun c3 =>
  Text.bind (Text.map_column "Total Liters"
               (Text.format_cell Text.format_comma_0f) c3)
  (fun c4 =>
  Text.bind (Text.map_column "Days Milked"
               (Text.format_cell Text.format_comma_0f) c4)
  (fun c5 =>
  Text.map_column "Avg Daily (L)"
                  (Text.format_cell Text.format_comma_1f) c5))))).

(** csv.to_csv(index=False).encode("utf-8"), the bytes handed to the
    download button. *)
Definition csv_download (float_repr : Q -> string) (df_year : Text.frame)
  : option (list ascii) :=
  option_map (Text.to_csv float_repr) (csv df_year).

(** SELECT DISTINCT farm_name FROM animals WHERE farm_name <> ''
    ORDER BY farm_name *)
Definition load_farms (d : db) : list string :=
  ORDER_BY String.leb
    (nodup string_dec
       (map farm_name
            (filter (fun a => negb (String.eqb (farm_name a) EmptyString))
                    (animals d)))).

End Dashboard.

(* ------------------------------------------------------------------ *)
(** ** REAL arithmetic: the sums as SQLite adds them                    *)
(* ------------------------------------------------------------------ *)

Module Binary64.
Import Sql Pandas Store Dashboard.

(** A finite binary64 number has a significand of 53 bits. The exponent
    range is left out: no volume of milk comes near 2^1024 litres, and a
    sum of binary64 numbers that falls below 2^-1022 is exact. *)

(** The binary exponent of q <> 0, the e with 2^e <= |q| < 2^(e+1). *)
Definition ilogb (q : Q) : Z :=
  let e := Z.log2 (Z.abs (Qnum q)) - Z.log2 (Z.pos (Qden q)) in
  if Qle_bool (2 ^ e) (Qabs q) then e else e - 1.

(** The unit in the last place of a 53-bit significand. *)
Definition ulp (q : Q) : Q := (2 ^ (ilogb q - 52))%Q.

(** Rounding to the nearest binary64 number, a tie to the even
    significand (the rounding of every binary64 operation, and of a
    decimal literal stored in a REAL column). *)
Definition round64 (q : Q) : Q :=
  if Qeq_bool q 0 then 0%Q
  else (inject_Z (round_half_even (q / ulp q)) * ulp q)%Q.

(** x + y on two REALs *)
Definition add (x y : Q) : Q := round64 (x + y).

(** The accumulator of SUM after the last row: it starts at 0.0 and every
    row's value is added to it, in the order of the rows (rSum += v in
    SQLite's sumStep; the compensation term that releases from 3.44 on
    carry along is left out). *)
Definition sum64 (xs : list Q) : Q := fold_left add xs 0%Q.

(** SUM(x) over a REAL column: NULL when there is no row. *)
Definition SUM (xs : list Q) : option Q :=
  match xs with
  | [] => None
  | _ => Some (sum64 xs)
  end.

(** SELECT COALESCE(SUM(yield_value),0) AS total_liters *)
Definition total_liters (rows : list milk) : Q :=
  COALESCE (SUM (yields rows)) 0%Q.

(** SELECT record_year AS year, SUM(yield_value) AS liters ...
    GROUP BY record_year ORDER BY record_year: the columns [year] and
    [liters] of the annual query. *)
Definition annual_liters (rows : list milk) : list (Z * Q) :=
  map (fun g => (fst g, sum64 (yields (snd g))))
      (GROUP_BY Z.eq_dec Z.leb record_year rows).

(** A whole number. *)
Definition whole (q : Q) : bool := Qeq_bool (inject_Z (Qfloor q)) q.

End Binary64.

(* ------------------------------------------------------------------ *)
(** ** What the page shows                                              *)
(* ------------------------------------------------------------------ *)

Module Views.
Import Sql Pandas Store Dashboard Text.
Local Open Scope string_scope.

(** The sum of a column of integers. *)
Definition Zsum (xs : list Z) : Z := fold_right Z.add 0 xs.

(** "{:.1f}".format(x) on a number *)
Definition format_1f (q : Q) : string :=
  let t := round_half_even (Qabs q * (10 # 1)) in
  sign q ++ digits (t / 10) ++ "." ++ digits (t mod 10).

(** The three metrics of the farm overview:
      c1.metric("Total Milk (L)", f"{total:,.0f}")
      c2.metric("Total Lactation Days", f"{days}")
      c3.metric("Cows Registered", len(load_animals(farm))) *)
Definition farm_metrics (d : db) (today : date) (farm : string)
  : string * string * nat :=
  let s := farm_yield_summary d today farm in
  (format_comma_0f (fs_total s), str_int (fs_days s),
   length (load_animals d farm)).

Section CowMetrics.
(** repr of a float, as an f-string prints MAX and MIN. *)
Variable float_repr : Q -> string.

(** str(x) of a value that may be None *)
Definition str_or_None (x : option Q) : string :=
  match x with
  | Some q => float_repr q
  | None => "None"
  end.

(** The four metrics of the cow page:
      m1.metric("Total Milk (L)", f"{total:,.0f} ({duration} d)")
      m2.metric("Days Milked", f"{days}")
      m3.metric("Avg Daily (L)", f"{stats['avg_daily']:.1f}")
      m4.metric("Max / Min (L)", f"{stats['max_yield']} / {stats['min_yield']}")
    The format '.1f' of None is a TypeError ([None]). *)
Definition cow_metrics (s : animal_summary)
  : option (string * string * string * string) :=
  match st_avg_daily (as_stats s) with
  | None => None
  | Some avg =>
      Some (format_comma_0f (as_total s)
              ++ " (" ++ str_int (as_duration s) ++ " d)",
            str_int (as_days s),
            format_1f avg,
            str_or_None (st_max_yield (as_stats s))
              ++ " / " ++ str_or_None (st_min_yield (as_stats s)))
  end.
End CowMetrics.

(** The age shown on the cow page:
      age = ((date.today() - pd.to_datetime(birth).date()).days // 30)
            if birth else "-"
    [Some None] is the dash of an absent birth date, [None] the exception
    of a birth date pd.to_datetime does not read. *)
Definition age (today : date) (birth : option date) : option (option Z) :=
  match birth with
  | None => Some None
  | Some b =>
      match to_datetime_date (Some b) with
      | Some bd => Some (Some ((toordinal today - toordinal bd) / 30))
      | None => None
      end
  end.

(** What an expander or a tab holds: a table, or a notice when the frame
    is empty. *)
Inductive panel (A : Type) : Type :=
| Info (msg : string)
| Table (rows : list A).
Arguments Info {A} msg.
Arguments Table {A} rows.

(** The trend table of either page:
      if not df_12mo.empty:
          tbl = df_12mo.rename(...).set_index("Month")
          tbl["Liters"] = tbl["Liters"].map("{:,.0f}".format)
          tbl["Milking Sessions"] = tbl["Milking Sessions"].map("{:,.0f}".format)
      else: st.info("No data for the past 12 months.") *)
Definition tbl (df_12mo : list trend_row)
  : panel (month_key * string * string) :=
  match df_12mo with
  | [] => Info "No data for the past 12 months."
  | _ =>
      Table (map (fun r =>
                    (t_month r,
                     format_comma_0f (inject_Z (t_liters r)),
                     format_comma_0f (inject_Z (t_sessions r))))
                 df_12mo)
  end.

End Views.

(* ------------------------------------------------------------------ *)
(** ** The same tables as the specification words them                  *)
(* ------------------------------------------------------------------ *)

Module Reference.
Import Sql Pandas Store Dashboard.

(** The value a month-keyed series holds for a month, 0 when the month
    is absent from it. *)
Definition lookup0 (k : month_key) (series : list (month_key * Z)) : Z :=
  match find (fun r => month_key_eqb k (fst r)) series with
  | Some r => snd r
  | None => 0
  end.

(** The merge of the specification: a full outer join on month, keyed by
    the union of the months of the two series, an absent value read as 0,
    months ascending. *)
Definition outer_join_sessions (liters sessions : list (month_key * Z))
  : list trend_row :=
  map (fun k => (k, lookup0 k liters, lookup0 k sessions))
      (ORDER_BY month_key_leb
                (nodup month_key_eq_dec (map fst liters ++ map fst sessions))).

Definition in_month (mo : month_key) (m : milk) : bool :=
  month_key_eqb (record_month m) mo.

(** Farm scope: the number of distinct animals with at least one record
    in the month. *)
Definition animals_with_record_in (rows : list milk) (mo : month_key) : Z :=
  Z.of_nat
    (length
       (filter (fun t =>
                  existsb (fun m => String.eqb (ear_tag m) t && in_month mo m)
                          rows)
               (nodup string_dec (tags rows)))).

(** Animal scope: the number of records in the month. *)
Definition records_in (rows : list milk) (mo : month_key) : Z :=
  Z.of_nat (length (filter (in_month mo) rows)).

(** Reading a CSV text back: fields separated by commas, rows by line
    feeds, a quoted field closed by its quote, a doubled quote inside it
    read as one quote. *)
Inductive rstate : Type := Plain | Quoted | QuoteSeen.

Fixpoint read_csv (s : list ascii) (st : rstate) (fld : list ascii)
         (row : list string) : list (list string) :=
  let fields := rev (string_of_list_ascii (rev fld) :: row) in
  match s with
  | [] => match st, fld, row with
          | Plain, [], [] => []
          | _, _, _ => [fields]
          end
  | c :: t =>
      match st with
      | Quoted =>
          if Ascii.eqb c Text.DQ then read_csv t QuoteSeen fld row
          else read_csv t Quoted (c :: fld) row
      | _ =>
          if Ascii.eqb c Text.DQ then
            match st with
            | QuoteSeen => read_csv t Quoted (Text.DQ :: fld) row
            | _ => read_csv t Quoted fld row
            end
          else if Ascii.eqb c Text.COMMA then
            read_csv t Plain [] (string_of_list_ascii (rev fld) :: row)
          else if Ascii.eqb c Text.LF then
            fields :: read_csv t Plain [] []
          else read_csv t Plain (c :: fld) row
      end
  end.

(** A character that needs no escaping inside a field: not a quote and
    not a line break. *)
Definition inline (c : ascii) : bool :=
  negb (Ascii.eqb c Text.DQ || Ascii.eqb c Text.LF || Ascii.eqb c Text.CR).

Definition parse_csv (text : list ascii) : list (list string) :=
  read_csv text Plain [] [].

(** Stripping the thousands separators of a numeric field. *)
Definition strip_commas (s : string) : string :=
  string_of_list_ascii
    (filter (fun c => negb (Ascii.eqb c Text.COMMA))
            (list_ascii_of_string s)).

Fixpoint split_dot (s : string) : string * option string :=
  match s with
  | EmptyString => (EmptyString, None)
  | String c t =>
      if Ascii.eqb c "."%char then (EmptyString, Some t)
      else let (a, b) := split_dot t in (String c a, b)
  end.

Definition nat_of_digits (s : string) : option Z :=
  option_map (fun u => Z.of_N (N.of_uint u)) (NilZero.uint_of_string s).

(** An unsigned decimal number: digits, then optionally a point and
    digits. *)
Definition parse_unsigned (s : string) : option Q :=
  let (ip, fp) := split_dot s in
  match nat_of_digits ip, fp with
  | Some i, None => Some (inject_Z i)
  | Some i, Some f =>
      match nat_of_digits f with
      | Some n =>
          Some (inject_Z i
                + inject_Z n / inject_Z (10 ^ Z.of_nat (String.length f)))%Q
      | None => None
      end
  | None, _ => None
  end.

(** Re-parsing a numeric field of the export. *)
Definition parse_number (s : string) : option Q :=
  match strip_commas s with
  | String c t =>
      if Ascii.eqb c "-"%char then option_map Qopp (parse_unsigned t)
      else parse_unsigned (String c t)
  | EmptyString => None
  end.

(** The numeric columns of one exported row: liters, days, average. *)
Definition reparse_row (fields : list string) : option (Q * Q * Q) :=
  match fields with
  | [_; l; dd; a] =>
      match parse_number l, parse_number dd, parse_number a with
      | Some x, Some y, Some z => Some (x, y, z)
      | _, _, _ => None
      end
  | _ => None
  end.

(** A month lies inside the window [today - 365 days, today]: it is not
    before the month of the window's first day and not after today's. *)
Definition in_trailing_window (today : date) (mo : month_key) : bool :=
  month_key_leb (strftime_Ym (since today)) mo
  && month_key_leb mo (strftime_Ym today).

(** The value of a finite number of the Standard Library's IEEE 754
    specification. *)
Definition of_spec_float (x : spec_float) : option Q :=
  match x with
  | S754_zero _ => Some 0%Q
  | S754_finite s m e =>
      Some ((if s then Z.neg m # 1 else Z.pos m # 1) * 2 ^ e)%Q
  | _ => None
  end.

(** [Binary64.add] gives the binary64 sum of that specification. *)
Definition agrees_with_SFadd (p : spec_float * spec_float) : bool :=
  match of_spec_float (fst p), of_spec_float (snd p),
        of_spec_float (SFadd 53 1024 (fst p) (snd p)) with
  | Some a, Some b, Some c => Qeq_bool (Binary64.add a b) c
  | _, _, _ => false
  end.

(** [Binary64.round64] of a quotient of two whole numbers is the binary64
    quotient of that specification: the number a decimal literal such as
    0.1 = 1/10 denotes. *)
Definition agrees_with_SFdiv (p : positive * positive) : bool :=
  match of_spec_float (SFdiv 53 1024 (S754_finite false (fst p) 0)
                             (S754_finite false (snd p) 0)) with
  | Some c => Qeq_bool (Binary64.round64 (Z.pos (fst p) # snd p)) c
  | None => false
  end.

End Reference.

(* ------------------------------------------------------------------ *)
(** ** Sample stores                                                    *)
(* ------------------------------------------------------------------ *)

Module Samples.
Import Store.
Local Open Scope string_scope.

(** Farm Green Pastures with animal T001 and its three records, and a
    second animal T002 without any. *)
Definition green_pastures : db :=
  {| animals := [mkanimal "T001" "Green Pastures" None;
                 mkanimal "T002" "Green Pastures" (Some (mkdate 2020 5 1))];
     milk_yield := [mkmilk "T001" (mkdate 2023 1 10) 2023 (20 # 1);
                    mkmilk "T001" (mkdate 2023 1 10) 2023 (15 # 1);
                    mkmilk "T001" (mkdate 2023 2 1) 2023 (18 # 1)] |}.

(** The same farm with one record entered under a date after today. *)
Definition postdated : db :=
  {| animals := animals green_pastures;
     milk_yield := mkmilk "T001" (mkdate 2025 3 2) 2025 (10 # 1)
                   :: milk_yield green_pastures |}.

(** A farm whose yearly liters are not a whole number. *)
Definition quarter_liter : db :=
  {| animals := [mkanimal "Q7" "Hill Farm" None];
     milk_yield := [mkmilk "Q7" (mkdate 2023 4 2) 2023 (81 # 4)] |}.

Definition a_day_in_2023 : date := mkdate 2023 6 1.
Definition a_day_in_2024 : date := mkdate 2024 6 15.

(** The annual row of Green Pastures for 2023. *)
Definition year_2023 : Dashboard.year_row :=
  {| Dashboard.yr_year := 2023;
     Dashboard.yr_liters := 53 # 1;
     Dashboard.yr_days := 2;
     Dashboard.yr_cows := Some 1;
     Dashboard.yr_avg_daily := Pandas.Finite (265 # 10) |}.

(** Two month-keyed series with different months. *)
Definition liters_jan : list (month_key * Z) := [((2024, 1), 40)].
Definition sessions_jan_feb : list (month_key * Z) :=
  [((2024, 1), 2); ((2024, 2), 3)].

(** A farm with yields of 0.1, 0.2 and 0.3 litres, as a REAL column holds
    them: one record of cow A1 in 2022, two of cow B2 in 2023. *)
Definition tenths : db :=
  {| animals := [mkanimal "A1" "Hill Farm" None;
                 mkanimal "B2" "Hill Farm" None];
     milk_yield :=
       [mkmilk "A1" (mkdate 2022 3 1) 2022 (Binary64.round64 (1 # 10));
        mkmilk "B2" (mkdate 2023 3 1) 2023 (Binary64.round64 (2 # 10));
        mkmilk "B2" (mkdate 2023 3 2) 2023 (Binary64.round64 (3 # 10))] |}.

(** An animal with two records dated in the year 2300. *)
Definition year_2300 : db :=
  {| animals := [mkanimal "T300" "Hill Farm" None];
     milk_yield := [mkmilk "T300" (mkdate 2300 1 1) 2300 (12 # 1);
                    mkmilk "T300" (mkdate 2300 1 3) 2300 (14 # 1)] |}.

(** Pairs of binary64 numbers: 0.1 and 0.2, their sum and 0.3, 0.2 and
    0.3, 0.1 and 0.5, 2^53 and 1, 1 and -0.1, -0.3 and 0.1, 1.4 and 3.05. *)
Definition additions : list (spec_float * spec_float) :=
  [(S754_finite false 7205759403792794 (-56),
    S754_finite false 7205759403792794 (-55));
   (S754_finite false 5404319552844596 (-54),
    S754_finite false 5404319552844595 (-54));
   (S754_finite false 7205759403792794 (-55),
    S754_finite false 5404319552844595 (-54));
   (S754_finite false 7205759403792794 (-56),
    S754_finite false 4503599627370496 (-53));
   (S754_finite false 4503599627370496 1,
    S754_finite false 4503599627370496 (-52));
   (S754_finite false 4503599627370496 (-52),
    S754_finite true 7205759403792794 (-56));
   (S754_finite true 5404319552844595 (-54),
    S754_finite false 7205759403792794 (-56));
   (S754_finite false 6305039478318694 (-52),
    S754_finite false 6867989431740006 (-51))].

(** The decimals 0.1, 0.2, 0.3, 1.4, 3.05 and 20.25, one third and 53. *)
Definition decimals : list (positive * positive) :=
  [(1, 10); (2, 10); (3, 10); (14, 10); (305, 100); (2025, 100); (1, 3);
   (53, 1)]%positive.

End Samples.

Import Sql Pandas Store Dashboard Views Reference.

(* ================================================================== *)
(** * Properties                                                        *)
(* ================================================================== *)

(** ** Sums of rationals *)

Lemma Qsum_app (l1 l2 : list Q) :
  (Qsum (l1 ++ l2) == Qsum l1 + Qsum l2)%Q.
Proof.
  induction l1 as [|x l1 IH]; simpl.
  - now rewrite Qplus_0_l.
  - rewrite IH. now rewrite Qplus_assoc.
Qed.

Lemma Qsum_Permutation (l1 l2 : list Q) :
  Permutation l1 l2 -> (Qsum l1 == Qsum l2)%Q.
Proof.
  induction 1 as [|x l l' _ IH|x y l|l l' l'' _ IH1 _ IH2]; simpl.
  - reflexivity.
  - now rewrite IH.
  - rewrite !Qplus_assoc. now rewrite (Qplus_comm y x).
  - now rewrite IH1.
Qed.

Lemma Qsum_flat_map {A : Type} (f : A -> list Q) (l : list A) :
  (Qsum (flat_map f l) == Qsum (map (fun a => Qsum (f a)) l))%Q.
Proof.
  induction l as [|a l IH]; simpl.
  - reflexivity.
  - now rewrite Qsum_app, IH.
Qed.

(** ** ORDER BY *)

Section OrderByFacts.
Context {A : Type} (leb : A -> A -> bool).

Lemma insert_Permutation (x : A) (l : list A) :
  Permutation (insert leb x l) (x :: l).
Proof.
  induction l as [|y l IH]; simpl.
  - apply Permutation_refl.
  - destruct (leb x y).
    + apply Permutation_refl.
    + apply perm_trans with (y :: x :: l).
      * now apply perm_skip.
      * apply perm_swap.
Qed.

Lemma ORDER_BY_Permutation (l : list A) : Permutation (ORDER_BY leb l) l.
Proof.
  induction l as [|x l IH]; simpl.
  - constructor.
  - apply perm_trans with (x :: ORDER_BY leb l).
    + apply insert_Permutation.
    + now apply perm_skip.
Qed.

Lemma ORDER_BY_In (x : A) (l : list A) : In x (ORDER_BY leb l) <-> In x l.
Proof.
  split; apply Permutation_in;
    [ | apply Permutation_sym ]; apply ORDER_BY_Permutation.
Qed.

Lemma ORDER_BY_NoDup (l : list A) : NoDup l -> NoDup (ORDER_BY leb l).
Proof.
  apply Permutation_NoDup, Permutation_sym, ORDER_BY_Permutation.
Qed.

Lemma ORDER_BY_nil_iff (l : list A) : ORDER_BY leb l = [] <-> l = [].
Proof.
  split; intros H.
  - apply Permutation_nil. rewrite <- H. apply ORDER_BY_Permutation.
  - now subst.
Qed.

Hypothesis leb_total : forall x y, leb x y = false -> leb y x = true.
Hypothesis leb_trans :
  forall x y z, leb x y = true -> leb y z = true -> leb x z = true.

Lemma insert_sorted (x : A) (l : list A) :
  StronglySorted (fun a b => leb a b = true) l ->
  StronglySorted (fun a b => leb a b = true) (insert leb x l).
Proof.
  induction 1 as [|y l Hs IH Hall]; simpl.
  - repeat constructor.
  - destruct (leb x y) eqn:E.
    + constructor; [now constructor|].
      constructor; [exact E|].
      apply Forall_impl with (2 := Hall).
      intros z Hz. now apply leb_trans with y.
    + constructor; [exact IH|].
      apply Forall_forall. intros z Hz.
      apply (Permutation_in _ (insert_Permutation x l)) in Hz.
      destruct Hz as [<-|Hz].
      * now apply leb_total.
      * rewrite Forall_forall in Hall. now apply Hall.
Qed.

Lemma ORDER_BY_sorted (l : list A) :
  StronglySorted (fun a b => leb a b = true) (ORDER_BY leb l).
Proof.
  induction l as [|x l IH]; simpl.
  - constructor.
  - now apply insert_sorted.
Qed.
End OrderByFacts.

(** ** GROUP BY *)

Lemma filter_all {A : Type} (p : A -> bool) (l : list A) :
  (forall x, In x l -> p x = true) -> filter p l = l.
Proof.
  induction l as [|x l IH]; simpl; intros H.
  - reflexivity.
  - rewrite (H x (or_introl eq_refl)). f_equal. apply IH.
    intros y Hy. apply H. now right.
Qed.

Lemma filter_none {A : Type} (p : A -> bool) (l : list A) :
  (forall x, In x l -> p x = false) -> filter p l = [].
Proof.
  induction l as [|x l IH]; simpl; intros H.
  - reflexivity.
  - rewrite (H x (or_introl eq_refl)). apply IH.
    intros y Hy. apply H. now right.
Qed.

Lemma filter_disjoint_Permutation {A : Type} (p q : A -> bool) (l : list A) :
  (forall x, In x l -> p x = true -> q x = false) ->
  Permutation (filter p l ++ filter q l) (filter (fun x => p x || q x) l).
Proof.
  induction l as [|x l IH]; simpl; intros H.
  - constructor.
  - assert (IH' := IH (fun y Hy => H y (or_intror Hy))).
    destruct (p x) eqn:Ep; simpl.
    + rewrite (H x (or_introl eq_refl) Ep). now apply perm_skip.
    + destruct (q x); simpl.
      * apply Permutation_sym, Permutation_cons_app, Permutation_sym, IH'.
      * exact IH'.
Qed.

Section GroupByFacts.
Context {A K : Type}.
Variable eq_dec : forall a b : K, {a = b} + {a <> b}.
Variable leb : K -> K -> bool.
Variable key : A -> K.

Lemma has_key_true (k : K) (r : A) :
  has_key eq_dec key k r = true <-> key r = k.
Proof. unfold has_key. destruct (eq_dec (key r) k); split; congruence. Qed.

Lemma groups_of_keys_Permutation (ks : list K) (rows : list A) :
  NoDup ks ->
  Permutation (flat_map (fun k => filter (has_key eq_dec key k) rows) ks)
              (filter (key_in eq_dec key ks) rows).
Proof.
  induction 1 as [|k ks Hk Hnd IH]; simpl.
  - rewrite filter_none by reflexivity. constructor.
  - apply perm_trans with
      (filter (has_key eq_dec key k) rows ++ filter (key_in eq_dec key ks) rows).
    + now apply Permutation_app_head.
    + apply perm_trans with
        (filter (fun r => has_key eq_dec key k r || key_in eq_dec key ks r) rows).
      * apply filter_disjoint_Permutation.
        intros r _ Hr. apply has_key_true in Hr. unfold key_in.
        destruct (in_dec eq_dec (key r) ks); congruence.
      * erewrite filter_ext; [apply Permutation_refl|].
        intros r. unfold has_key, key_in.
        destruct (eq_dec (key r) k) as [E|E];
          destruct (in_dec eq_dec (key r) (k :: ks)) as [I|I];
          destruct (in_dec eq_dec (key r) ks) as [I'|I'];
          simpl in *; try reflexivity; exfalso; intuition congruence.
Qed.

Lemma GROUP_BY_In (k : K) (g : list A) (rows : list A) :
  In (k, g) (GROUP_BY eq_dec leb key rows) <->
  In k (map key rows) /\ g = filter (has_key eq_dec key k) rows.
Proof.
  unfold GROUP_BY. rewrite in_map_iff. split.
  - intros (k' & [= <- <-] & Hin).
    apply ORDER_BY_In, nodup_In in Hin. now split.
  - intros (Hin & ->). exists k. split; [reflexivity|].
    now apply ORDER_BY_In, nodup_In.
Qed.

Lemma GROUP_BY_keys (rows : list A) :
  map fst (GROUP_BY eq_dec leb key rows)
  = ORDER_BY leb (nodup eq_dec (map key rows)).
Proof.
  unfold GROUP_BY. rewrite map_map. simpl. apply map_id.
Qed.

Lemma GROUP_BY_keys_NoDup (rows : list A) :
  NoDup (map fst (GROUP_BY eq_dec leb key rows)).
Proof. rewrite GROUP_BY_keys. apply ORDER_BY_NoDup, NoDup_nodup. Qed.

Lemma GROUP_BY_group_In (k : K) (g : list A) (rows : list A) (r : A) :
  In (k, g) (GROUP_BY eq_dec leb key rows) ->
  (In r g <-> In r rows /\ key r = k).
Proof.
  intros H. apply GROUP_BY_In in H. destruct H as [_ ->].
  rewrite filter_In, has_key_true. reflexivity.
Qed.

Lemma GROUP_BY_nonempty (k : K) (g : list A) (rows : list A) :
  In (k, g) (GROUP_BY eq_dec leb key rows) -> g <> [].
Proof.
  intros H. pose proof (GROUP_BY_In k g rows) as [H1 _].
  destruct (H1 H) as [Hk _]. apply in_map_iff in Hk.
  destruct Hk as (r & Hr & Hin).
  assert (In r g) by (apply (GROUP_BY_group_In k g rows r H); now split).
  intros ->. contradiction.
Qed.

Lemma GROUP_BY_nil : GROUP_BY eq_dec leb key [] = [].
Proof. reflexivity. Qed.

(** The groups partition the rows: put side by side they are the rows
    again, each counted once. *)
Lemma GROUP_BY_partition (rows : list A) :
  Permutation (flat_map snd (GROUP_BY eq_dec leb key rows)) rows.
Proof.
  unfold GROUP_BY. rewrite flat_map_concat_map, map_map. simpl.
  rewrite <- flat_map_concat_map.
  set (ks := ORDER_BY leb (nodup eq_dec (map key rows))).
  apply perm_trans with (filter (key_in eq_dec key ks) rows).
  - apply groups_of_keys_Permutation.
    apply ORDER_BY_NoDup, NoDup_nodup.
  - rewrite filter_all; [apply Permutation_refl|].
    intros r Hr. unfold key_in.
    destruct (in_dec eq_dec (key r) ks) as [|N]; [reflexivity|].
    exfalso. apply N. apply ORDER_BY_In, nodup_In. now apply in_map.
Qed.
End GroupByFacts.

(** ** The annual table *)

Lemma nodup_length_pos {A : Type} (dec : forall a b : A, {a = b} + {a <> b})
      (l : list A) :
  l <> [] -> (1 <= length (nodup dec l))%nat.
Proof.
  destruct l as [|x l]; [congruence|]. intros _.
  assert (H : In x (nodup dec (x :: l))) by (apply nodup_In; now left).
  destruct (nodup dec (x :: l)); [contradiction|simpl; lia].
Qed.

Lemma COUNT_DISTINCT_pos {A : Type} (dec : forall a b : A, {a = b} + {a <> b})
      (l : list A) :
  l <> [] -> 1 <= COUNT_DISTINCT dec l.
Proof.
  intros H. unfold COUNT_DISTINCT.
  pose proof (nodup_length_pos dec l H). lia.
Qed.

Lemma total_liters_Qsum (rows : list milk) :
  (total_liters rows == Qsum (yields rows))%Q.
Proof.
  unfold total_liters, SUM.
  destruct (yields rows); simpl; reflexivity.
Qed.

Lemma df_year_of_In (with_cows : bool) (rows : list milk) (r : year_row) :
  In r (df_year_of with_cows rows) ->
  exists g,
    In (yr_year r, g) (GROUP_BY Z.eq_dec Z.leb record_year rows)
    /\ yr_liters r = Qsum (yields g)
    /\ yr_days r = COUNT_DISTINCT date_eq_dec (dates g)
    /\ yr_avg_daily r = round_1 (truediv (yr_liters r) (yr_days r)).
Proof.
  unfold df_year_of, annual_query. rewrite map_map, in_map_iff.
  intros ([k g] & <- & Hin). exists g. simpl. auto.
Qed.

Lemma df_year_of_years (with_cows : bool) (rows : list milk) :
  map yr_year (df_year_of with_cows rows)
  = ORDER_BY Z.leb (nodup Z.eq_dec (map record_year rows)).
Proof.
  unfold df_year_of, annual_query. rewrite !map_map. simpl.
  rewrite <- (GROUP_BY_keys Z.eq_dec Z.leb record_year rows).
  reflexivity.
Qed.

Lemma df_year_of_days_pos (with_cows : bool) (rows : list milk) (r : year_row) :
  In r (df_year_of with_cows rows) ->
  1 <= yr_days r
  /\ yr_avg_daily r
     = Finite (round1 (yr_liters r / inject_Z (yr_days r)))
  /\ exists m, In m rows /\ record_year m = yr_year r.
Proof.
  intros H. destruct (df_year_of_In _ _ _ H) as (g & Hg & Hl & Hd & Ha).
  assert (Hne : g <> []) by (eapply GROUP_BY_nonempty; eassumption).
  assert (Hpos : 1 <= yr_days r).
  { rewrite Hd. apply COUNT_DISTINCT_pos. unfold dates.
    destruct g; [congruence|discriminate]. }
  split; [exact Hpos|]. split.
  - rewrite Ha. unfold truediv.
    destruct (Z.eqb_spec (yr_days r) 0); [lia|reflexivity].
  - destruct g as [|m g']; [congruence|]. exists m.
    apply (GROUP_BY_group_In Z.eq_dec Z.leb record_year _ _ rows m Hg).
    now left.
Qed.


(** ** Scopes without records *)

Lemma farm_summary_no_records (d : db) (today : date) (farm : string) :
  farm_records d farm = [] ->
  farm_yield_summary d today farm
  = {| fs_total := 0 # 1; fs_days := 0; fs_df_year := []; fs_df_12mo := [] |}.
Proof. intros H. unfold farm_yield_summary. rewrite H. reflexivity. Qed.

Lemma animal_summary_no_records (d : db) (today : date) (tag : string) :
  animal_records d tag = [] ->
  animal_yield_summary d today tag
  = {| as_total := 0 # 1; as_days := 0; as_duration := 0;
       as_df_year := []; as_df_12mo := [];
       as_stats := {| st_avg_daily := None; st_max_yield := None;
                      st_min_yield := None |} |}.
Proof. intros H. unfold animal_yield_summary. rewrite H. reflexivity. Qed.

(** C6. A farm or an animal with no matching yield record gets total liters
    exactly 0 and lactation days 0, with an empty annual table and an empty
    trend; the aggregators are total functions, so they return these values
    and do not fail. *)
Theorem empty_scope_zero_totals (d : db) (today : date) :
  (forall farm,
      farm_records d farm = [] ->
      let s := farm_yield_summary d today farm in
      fs_total s = (0 # 1)%Q /\ fs_days s = 0
      /\ fs_df_year s = [] /\ fs_df_12mo s = [])
  /\
  (forall tag,
      animal_records d tag = [] ->
      let s := animal_yield_summary d today tag in
      as_total s = (0 # 1)%Q /\ as_days s = 0
      /\ as_df_year s = [] /\ as_df_12mo s = []).
Proof.
  split; intros x H.
  - rewrite (farm_summary_no_records d today x H). simpl. auto.
  - rewrite (animal_summary_no_records d today x H). simpl. auto.
Qed.


(** ** Farm records and animal records *)

Lemma flat_map_app_pointwise {A B : Type} (f g : A -> list B) (l : list A) :
  Permutation (flat_map (fun a => f a ++ g a) l)
              (flat_map f l ++ flat_map g l).
Proof.
  induction l as [|a l IH]; simpl.
  - constructor.
  - rewrite <- !app_assoc.
    apply Permutation_app_head.
    apply perm_trans with (g a ++ flat_map f l ++ flat_map g l).
    + now apply Permutation_app_head.
    + rewrite !app_assoc. apply Permutation_app_tail, Permutation_app_comm.
Qed.

Lemma flat_map_swap {A B C : Type} (f : A -> B -> list C)
      (xs : list A) (ys : list B) :
  Permutation (flat_map (fun x => flat_map (f x) ys) xs)
              (flat_map (fun y => flat_map (fun x => f x y) xs) ys).
Proof.
  induction xs as [|x xs IH]; simpl.
  - induction ys as [|y ys IHy]; simpl; [constructor|exact IHy].
  - apply perm_trans with
      (flat_map (f x) ys ++ flat_map (fun y => flat_map (fun x => f x y) xs) ys).
    + now apply Permutation_app_head.
    + apply Permutation_sym.
      apply (flat_map_app_pointwise (f x)
               (fun y => flat_map (fun x0 => f x0 y) xs)).
Qed.

Lemma filter_flat_map {A : Type} (p : A -> bool) (l : list A) :
  filter p l = flat_map (fun x => if p x then [x] else []) l.
Proof.
  induction l as [|x l IH]; simpl; [reflexivity|].
  destruct (p x); simpl; now rewrite IH.
Qed.

Lemma flat_map_of_map {A B C : Type} (f : B -> list C) (g : A -> B)
      (l : list A) :
  flat_map f (map g l) = flat_map (fun x => f (g x)) l.
Proof.
  induction l as [|x l IH]; simpl; [reflexivity|]. now rewrite IH.
Qed.

(** The join restricted to a farm, read record by record. *)
Lemma farm_records_flat_map (d : db) (farm : string) :
  farm_records d farm
  = flat_map
      (fun m =>
         flat_map
           (fun a => if String.eqb (ear_tag m) (a_ear_tag a) then [m] else [])
           (filter (fun a => String.eqb (farm_name a) farm) (animals d)))
      (milk_yield d).
Proof.
  unfold farm_records, milk_join_animals.
  induction (milk_yield d) as [|m ms IH]; simpl; [reflexivity|].
  rewrite filter_app, map_app, IH. f_equal. clear IH.
  induction (animals d) as [|a l IHa]; simpl; [reflexivity|].
  destruct (String.eqb (ear_tag m) (a_ear_tag a)) eqn:Et;
    destruct (String.eqb (farm_name a) farm) eqn:Ef; simpl;
    rewrite ?Ef, ?Et; simpl; now rewrite IHa.
Qed.

Lemma farm_records_by_animal (d : db) (farm : string) :
  Permutation (farm_records d farm)
              (flat_map (fun a => animal_records d (fst a))
                        (load_animals d farm)).
Proof.
  rewrite farm_records_flat_map. unfold load_animals.
  rewrite flat_map_of_map. simpl.
  set (own := filter (fun a => String.eqb (farm_name a) farm) (animals d)).
  apply perm_trans with
    (flat_map (fun a => animal_records d (a_ear_tag a)) own).
  - eapply perm_trans; [apply flat_map_swap|].
    erewrite flat_map_ext; [apply Permutation_refl|].
    intros a. unfold animal_records. simpl. now rewrite filter_flat_map.
  - apply Permutation_flat_map, Permutation_sym, ORDER_BY_Permutation.
Qed.

Lemma load_animals_tags (d : db) (farm : string) :
  Permutation (map fst (load_animals d farm))
              (map a_ear_tag
                   (filter (fun a => String.eqb (farm_name a) farm)
                           (animals d))).
Proof.
  unfold load_animals. rewrite map_map. simpl.
  apply Permutation_map, ORDER_BY_Permutation.
Qed.

Lemma NoDup_map_filter {A B : Type} (keep : A -> bool) (f : A -> B) :
  forall l : list A, NoDup (map f l) -> NoDup (map f (filter keep l)).
Proof.
  intros l. induction l as [|x l IH]; simpl; intros H; [constructor|].
  inversion H as [|? ? Hx Hl]; subst.
  destruct (keep x); simpl; [constructor|]; auto.
  intros Hin. apply Hx. apply in_map_iff in Hin.
  destruct Hin as (y & Hy & Hin). apply filter_In in Hin.
  apply in_map_iff. exists y. tauto.
Qed.

(** ** The calendar *)

Ltac month_cases m :=
  let H := fresh "Hm" in
  assert (H : m = 1 \/ m = 2 \/ m = 3 \/ m = 4 \/ m = 5 \/ m = 6 \/ m = 7
              \/ m = 8 \/ m = 9 \/ m = 10 \/ m = 11 \/ m = 12) by lia;
  repeat (destruct H as [H|H]); subst m; try (exfalso; lia).

Lemma valid_date_bounds (d : date) :
  valid_date d = true ->
  1 <= year d <= 9999 /\ 1 <= month d <= 12
  /\ 1 <= day d <= days_in_month (year d) (month d).
Proof.
  unfold valid_date. rewrite !andb_true_iff, !Z.leb_le. tauto.
Qed.

Lemma days_before_year_succ (y : Z) :
  days_before_year (y + 1)
  = days_before_year y + (if is_leap y then 366 else 365).
Proof.
  unfold days_before_year, is_leap.
  replace (y + 1 - 1) with y by lia.
  destruct (Z.eqb_spec (y mod 4) 0), (Z.eqb_spec (y mod 100) 0),
    (Z.eqb_spec (y mod 400) 0); simpl;
    Z.to_euclidean_division_equations; lia.
Qed.

Lemma days_before_year_mono (y y' : Z) :
  y <= y' -> days_before_year y <= days_before_year y'.
Proof.
  intros H. unfold days_before_year.
  Z.to_euclidean_division_equations. lia.
Qed.

Lemma days_before_month_succ (y m : Z) :
  1 <= m <= 11 ->
  days_before_month y (m + 1) = days_before_month y m + days_in_month y m.
Proof.
  intros H. unfold days_before_month, days_in_month.
  month_cases m; simpl; destruct (is_leap y); reflexivity.
Qed.

Lemma days_before_month_mono (y m m' : Z) :
  1 <= m -> m <= m' -> m' <= 12 ->
  days_before_month y m <= days_before_month y m'.
Proof.
  intros H1 H2 H3. unfold days_before_month.
  month_cases m; month_cases m'; simpl; destruct (is_leap y); lia.
Qed.

Lemma days_in_month_pos (y m : Z) : 1 <= m <= 12 -> 28 <= days_in_month y m.
Proof.
  intros H. unfold days_in_month.
  month_cases m; simpl; destruct (is_leap y); lia.
Qed.

Lemma days_in_year_bound (y m : Z) :
  1 <= m <= 12 ->
  days_before_month y m + days_in_month y m
  <= (if is_leap y then 366 else 365).
Proof.
  intros H. unfold days_before_month, days_in_month.
  month_cases m; simpl; destruct (is_leap y); lia.
Qed.

(** The day number grows strictly along the order of the date texts. *)
Lemma toordinal_lt (a b : date) :
  valid_date a = true -> valid_date b = true ->
  date_compare a b = Lt -> toordinal a < toordinal b.
Proof.
  intros Ha Hb. apply valid_date_bounds in Ha, Hb.
  destruct a as [ya ma da], b as [yb mb db]. simpl in *.
  unfold date_compare, toordinal. simpl.
  destruct (Z.compare_spec ya yb) as [->|Hy|Hy]; try discriminate.
  - destruct (Z.compare_spec ma mb) as [->|Hm|Hm]; try discriminate.
    + rewrite Z.compare_lt_iff. lia.
    + intros _.
      pose proof (days_before_month_succ yb ma ltac:(lia)).
      pose proof (days_before_month_mono yb (ma + 1) mb
                    ltac:(lia) ltac:(lia) ltac:(lia)).
      lia.
  - intros _.
    pose proof (days_in_year_bound ya ma ltac:(lia)).
    pose proof (days_before_year_succ ya).
    pose proof (days_before_year_mono (ya + 1) yb ltac:(lia)).
    pose proof (days_before_month_mono yb 1 mb
                  ltac:(lia) ltac:(lia) ltac:(lia)).
    change (days_before_month yb 1) with 0 in *.
    destruct (is_leap ya); lia.
Qed.

Lemma date_compare_eq (a b : date) : date_compare a b = Eq -> a = b.
Proof.
  destruct a as [ya ma da], b as [yb mb db]. unfold date_compare. simpl.
  destruct (Z.compare_spec ya yb); try discriminate.
  destruct (Z.compare_spec ma mb); try discriminate.
  intros Hd. apply Z.compare_eq in Hd. congruence.
Qed.

Lemma date_compare_antisym (a b : date) :
  date_compare b a = CompOpp (date_compare a b).
Proof.
  destruct a as [ya ma da], b as [yb mb db]. unfold date_compare. simpl.
  rewrite (Z.compare_antisym ya yb), (Z.compare_antisym ma mb),
    (Z.compare_antisym da db).
  destruct (ya ?= yb); simpl; try reflexivity.
  destruct (ma ?= mb); simpl; reflexivity.
Qed.

(** On dates, comparing the texts is comparing the day numbers. *)
Lemma date_leb_toordinal (a b : date) :
  valid_date a = true -> valid_date b = true ->
  (date_leb a b = true <-> toordinal a <= toordinal b).
Proof.
  intros Ha Hb. unfold date_leb.
  destruct (date_compare a b) eqn:E.
  - apply date_compare_eq in E. subst. split; [lia|reflexivity].
  - pose proof (toordinal_lt a b Ha Hb E). split; [lia|reflexivity].
  - assert (E' : date_compare b a = Lt)
      by (rewrite date_compare_antisym, E; reflexivity).
    pose proof (toordinal_lt b a Hb Ha E'). split; [discriminate|lia].
Qed.

Lemma toordinal_inj (a b : date) :
  valid_date a = true -> valid_date b = true ->
  toordinal a = toordinal b -> a = b.
Proof.
  intros Ha Hb H.
  destruct (date_compare a b) eqn:E.
  - now apply date_compare_eq.
  - pose proof (toordinal_lt a b Ha Hb E). lia.
  - assert (E' : date_compare b a = Lt)
      by (rewrite date_compare_antisym, E; reflexivity).
    pose proof (toordinal_lt b a Hb Ha E'). lia.
Qed.

Lemma date_leb_total (a b : date) : date_leb a b = false -> date_leb b a = true.
Proof.
  unfold date_leb. rewrite (date_compare_antisym a b).
  destruct (date_compare a b); simpl; congruence.
Qed.

Lemma date_leb_iff (a b : date) :
  date_leb a b = true <->
  year a < year b
  \/ (year a = year b
      /\ (month a < month b \/ (month a = month b /\ day a <= day b))).
Proof.
  unfold date_leb, date_compare.
  destruct (Z.compare_spec (year a) (year b));
    destruct (Z.compare_spec (month a) (month b));
    destruct (Z.compare_spec (day a) (day b));
    split; intros; try reflexivity; try discriminate; lia.
Qed.

Lemma date_leb_trans (a b c : date) :
  date_leb a b = true -> date_leb b c = true -> date_leb a c = true.
Proof. rewrite !date_leb_iff. lia. Qed.

Lemma toordinal_pos (d : date) : valid_date d = true -> 1 <= toordinal d.
Proof.
  intros H. apply valid_date_bounds in H. unfold toordinal.
  pose proof (days_before_year_mono 1 (year d) ltac:(lia)).
  pose proof (days_before_month_mono (year d) 1 (month d)
                ltac:(lia) ltac:(lia) ltac:(lia)).
  change (days_before_year 1) with 0 in *.
  change (days_before_month (year d) 1) with 0 in *. lia.
Qed.

Lemma prev_day_spec (d : date) :
  valid_date d = true -> 1 < toordinal d ->
  valid_date (prev_day d) = true
  /\ toordinal (prev_day d) = toordinal d - 1.
Proof.
  intros Hv Hord. apply valid_date_bounds in Hv.
  destruct d as [y m dd]. unfold prev_day, toordinal in *. simpl in *.
  destruct (Z.ltb_spec 1 dd) as [Hd|Hd].
  - split; [|simpl; lia].
    unfold valid_date. simpl. rewrite !andb_true_iff, !Z.leb_le. lia.
  - assert (dd = 1) by lia. subst dd.
    destruct (Z.ltb_spec 1 m) as [Hm|Hm].
    + pose proof (days_in_month_pos y (m - 1) ltac:(lia)).
      pose proof (days_before_month_succ y (m - 1) ltac:(lia)) as Hs.
      replace (m - 1 + 1) with m in Hs by lia.
      split; [|simpl; lia].
      unfold valid_date. simpl. rewrite !andb_true_iff, !Z.leb_le. lia.
    + assert (m = 1) by lia. subst m.
      change (days_before_month y 1) with 0 in Hord.
      assert (Hy : 1 < y).
      { destruct (Z.eq_dec y 1) as [->|]; [|lia].
        change (days_before_year 1) with 0 in Hord. lia. }
      pose proof (days_before_year_succ (y - 1)) as Hs.
      replace (y - 1 + 1) with y in Hs by lia.
      split.
      * unfold valid_date. simpl. rewrite !andb_true_iff, !Z.leb_le.
        change (days_in_month (y - 1) 12) with 31. lia.
      * simpl. unfold days_before_month. simpl.
        change (days_before_month y 1) with 0.
        destruct (is_leap (y - 1)); lia.
Qed.

Lemma sub_days_spec (d : date) (n : nat) :
  valid_date d = true -> Z.of_nat n < toordinal d ->
  valid_date (sub_days d n) = true
  /\ toordinal (sub_days d n) = toordinal d - Z.of_nat n.
Proof.
  intros Hv. induction n as [|n IH]; intros Hn.
  - change (sub_days d 0) with d. split; [exact Hv|lia].
  - destruct (IH ltac:(lia)) as [IHv IHo].
    change (sub_days d (S n)) with (prev_day (sub_days d n)).
    destruct (prev_day_spec (sub_days d n) IHv ltac:(lia)) as [Pv Po].
    split; [exact Pv|lia].
Qed.

Lemma toordinal_second_year (d : date) :
  valid_date d = true -> 1 < year d -> 365 < toordinal d.
Proof.
  intros Hv Hy. apply valid_date_bounds in Hv. unfold toordinal.
  pose proof (days_before_year_mono 2 (year d) ltac:(lia)).
  pose proof (days_before_month_mono (year d) 1 (month d)
                ltac:(lia) ltac:(lia) ltac:(lia)).
  change (days_before_year 2) with 365 in *.
  change (days_before_month (year d) 1) with 0 in *. lia.
Qed.

(** [since] is the date 365 days before today. *)
Lemma since_spec (today : date) :
  valid_date today = true -> 1 < year today ->
  valid_date (since today) = true
  /\ toordinal (since today) = toordinal today - 365.
Proof.
  intros Hv Hy. pose proof (toordinal_second_year today Hv Hy).
  destruct (sub_days_spec today 365 Hv ltac:(lia)) as [H1 H2].
  split; [exact H1|]. unfold since. lia.
Qed.

(** ** MIN and MAX *)

Section MinMax.
Context {A : Type} (leb : A -> A -> bool).
Hypothesis leb_total : forall x y, leb x y = false -> leb y x = true.
Hypothesis leb_trans :
  forall x y z, leb x y = true -> leb y z = true -> leb x z = true.

Lemma leb_refl (x : A) : leb x x = true.
Proof.
  destruct (leb x x) eqn:E; [reflexivity|].
  pose proof (leb_total x x E). congruence.
Qed.

Lemma MIN_None (l : list A) : MIN leb l = None <-> l = [].
Proof.
  destruct l as [|x l]; simpl; [tauto|].
  destruct (MIN leb l); split; discriminate.
Qed.

Lemma MAX_None (l : list A) : MAX leb l = None <-> l = [].
Proof.
  destruct l as [|x l]; simpl; [tauto|].
  destruct (MAX leb l); split; discriminate.
Qed.

Lemma MIN_spec (l : list A) (m : A) :
  MIN leb l = Some m ->
  In m l /\ forall x, In x l -> leb m x = true.
Proof.
  revert m. induction l as [|y l IH]; simpl; intros m; [discriminate|].
  destruct (MIN leb l) as [m'|] eqn:E.
  - destruct (IH m' eq_refl) as [Hin Hle]. intros [= <-].
    destruct (leb y m') eqn:L.
    + split; [now left|]. intros x [<-|Hx]; [apply leb_refl|].
      apply leb_trans with m'; auto.
    + split; [now right|]. intros x [<-|Hx]; [now apply leb_total|auto].
  - intros [= <-]. apply MIN_None in E. subst l.
    split; [now left|]. intros x [<-|[]]. apply leb_refl.
Qed.

Lemma MAX_spec (l : list A) (m : A) :
  MAX leb l = Some m ->
  In m l /\ forall x, In x l -> leb x m = true.
Proof.
  revert m. induction l as [|y l IH]; simpl; intros m; [discriminate|].
  destruct (MAX leb l) as [m'|] eqn:E.
  - destruct (IH m' eq_refl) as [Hin Hle]. intros [= <-].
    destruct (leb y m') eqn:L.
    + split; [now right|]. intros x [<-|Hx]; auto.
    + split; [now left|]. intros x [<-|Hx]; [apply leb_refl|].
      apply leb_trans with m'; auto.
  - intros [= <-]. apply MAX_None in E. subst l.
    split; [now left|]. intros x [<-|[]]. apply leb_refl.
Qed.
End MinMax.

(** ** Counting distinct days in a span *)

Lemma NoDup_map_inj_on {A B : Type} (f : A -> B) (l : list A) :
  NoDup l ->
  (forall a b, In a l -> In b l -> f a = f b -> a = b) ->
  NoDup (map f l).
Proof.
  intros Hnd Hinj. induction Hnd as [|x l Hx Hnd IH]; simpl; constructor.
  - intros Hin. apply in_map_iff in Hin. destruct Hin as (y & Hy & Hin).
    assert (y = x) by (apply Hinj; simpl; auto). subst. contradiction.
  - apply IH. intros a b Ha Hb. apply Hinj; simpl; auto.
Qed.

Lemma NoDup_in_range_length (zs : list Z) (lo hi : Z) :
  NoDup zs -> (forall z, In z zs -> lo <= z <= hi) ->
  Z.of_nat (length zs) <= Z.max 0 (hi - lo + 1).
Proof.
  intros Hnd Hin.
  set (range := map (fun i => lo + Z.of_nat i) (seq 0 (Z.to_nat (hi - lo + 1)))).
  assert (Hincl : incl zs range).
  { intros z Hz. specialize (Hin z Hz). unfold range. apply in_map_iff.
    exists (Z.to_nat (z - lo)). split; [lia|]. apply in_seq. lia. }
  pose proof (NoDup_incl_length Hnd Hincl) as Hlen.
  unfold range in Hlen. rewrite length_map, length_seq in Hlen. lia.
Qed.

(** ** Active duration of an animal *)

Lemma timestamp_day_valid (d : date) :
  timestamp_day d = true -> valid_date d = true.
Proof.
  unfold timestamp_day. rewrite !andb_true_iff. tauto.
Qed.

(** MIN and MAX of the record dates, and the two outcomes of the try
    block. *)
Lemma duration_of_records (ds : list date) (days : Z) :
  (forall x, In x ds -> valid_date x = true) ->
  ds <> [] ->
  exists d0 d1,
    In d0 ds /\ In d1 ds
    /\ (forall x, In x ds -> toordinal d0 <= toordinal x <= toordinal d1)
    /\ duration_of (MIN date_leb ds) (MAX date_leb ds) days
       = if timestamp_day d0 && timestamp_day d1
         then toordinal d1 - toordinal d0 + 1
         else days.
Proof.
  intros Hv Hne.
  destruct (MIN date_leb ds) as [d0|] eqn:Emin;
    [|apply MIN_None in Emin; contradiction].
  destruct (MAX date_leb ds) as [d1|] eqn:Emax;
    [|apply MAX_None in Emax; contradiction].
  destruct (MIN_spec date_leb date_leb_total date_leb_trans ds d0 Emin)
    as [Hin0 Hle0].
  destruct (MAX_spec date_leb date_leb_total date_leb_trans ds d1 Emax)
    as [Hin1 Hle1].
  exists d0, d1. repeat split; try assumption.
  - apply date_leb_toordinal; auto.
  - apply date_leb_toordinal; auto.
  - unfold duration_of, to_datetime_date.
    destruct (timestamp_day d0), (timestamp_day d1); reflexivity.
Qed.

Lemma distinct_days_in_span (ds : list date) (d0 d1 : date) :
  (forall x, In x ds -> valid_date x = true) ->
  (forall x, In x ds -> toordinal d0 <= toordinal x <= toordinal d1) ->
  COUNT_DISTINCT date_eq_dec ds <= Z.max 0 (toordinal d1 - toordinal d0 + 1).
Proof.
  intros Hv Hspan. unfold COUNT_DISTINCT.
  rewrite <- (length_map toordinal).
  apply NoDup_in_range_length.
  - apply NoDup_map_inj_on; [apply NoDup_nodup|].
    intros x y Hx Hy. apply nodup_In in Hx, Hy.
    apply toordinal_inj; auto.
  - intros z Hz. apply in_map_iff in Hz. destruct Hz as (x & <- & Hx).
    apply nodup_In in Hx. auto.
Qed.

(** A record date after the last day a Timestamp holds: the try block
    raises and the duration is the lactation-day count, here 2, while the
    first and the last record date are three days apart, both counted. *)
Lemma duration_of_records_in_2300 :
  let s := animal_yield_summary Samples.year_2300 Samples.a_day_in_2023
                                "T300"%string in
  let ds := dates (animal_records Samples.year_2300 "T300"%string) in
  forallb valid_date ds = true
  /\ MIN date_leb ds = Some (mkdate 2300 1 1)
  /\ MAX date_leb ds = Some (mkdate 2300 1 3)
  /\ toordinal (mkdate 2300 1 3) - toordinal (mkdate 2300 1 1) + 1 = 3
  /\ as_days s = 2
  /\ as_duration s = 2.
Proof. vm_compute. repeat split; reflexivity. Qed.

(** C7, amended. For an animal whose record dates are calendar days: with
    no record the duration is the lactation-day count, which is 0; the
    duration is always at least the lactation-day count; and with at least
    one record, first and last being record dates that bound all the
    others, the duration is (last record date - first record date + 1)
    when both are days pd.to_datetime reads (inside the Timestamp range,
    1677-09-22 to 2262-04-11), and the lactation-day count when one of them
    is not. *)
Theorem animal_duration_covers_days (d : db) (today : date) (tag : string) :
  (forall m, In m (animal_records d tag) ->
             valid_date (record_date m) = true) ->
  let s := animal_yield_summary d today tag in
  let ds := dates (animal_records d tag) in
  (ds = [] -> as_duration s = as_days s /\ as_days s = 0)
  /\ as_days s <= as_duration s
  /\ (ds <> [] ->
      exists d0 d1,
        In d0 ds /\ In d1 ds
        /\ (forall x, In x ds -> toordinal d0 <= toordinal x <= toordinal d1)
        /\ as_duration s
           = if timestamp_day d0 && timestamp_day d1
             then toordinal d1 - toordinal d0 + 1
             else as_days s).
Proof.
  intros Hvalid s ds.
  assert (Hv : forall x, In x ds -> valid_date x = true).
  { intros x Hx. apply in_map_iff in Hx. destruct Hx as (m & <- & Hm). auto. }
  assert (Hdur : ds <> [] ->
             exists d0 d1,
               In d0 ds /\ In d1 ds
               /\ (forall x, In x ds ->
                             toordinal d0 <= toordinal x <= toordinal d1)
               /\ as_duration s
                  = if timestamp_day d0 && timestamp_day d1
                    then toordinal d1 - toordinal d0 + 1
                    else as_days s).
  { intros ne. exact (duration_of_records ds (lactation_days _) Hv ne). }
  assert (Hempty : ds = [] -> as_duration s = as_days s /\ as_days s = 0).
  { intros E. subst s. simpl. fold ds. rewrite E.
    unfold lactation_days. fold ds. rewrite E. split; reflexivity. }
  split; [exact Hempty|]. split; [|exact Hdur].
  destruct ds as [|x0 ds'] eqn:E.
  - destruct (Hempty eq_refl) as [-> _]. apply Z.le_refl.
  - destruct (Hdur ltac:(discriminate)) as (d0 & d1 & H0 & H1 & Hspan & ->).
    destruct (timestamp_day d0 && timestamp_day d1); [|apply Z.le_refl].
    pose proof (distinct_days_in_span (x0 :: ds') d0 d1 Hv Hspan) as Hc.
    pose proof (Hspan d0 H0).
    subst s. simpl. unfold lactation_days. fold ds. rewrite E. lia.
Qed.

(** ** Month keys *)

Lemma month_key_eqb_eq (a b : month_key) :
  month_key_eqb a b = true <-> a = b.
Proof.
  destruct a as [ya ma], b as [yb mb]. unfold month_key_eqb. simpl.
  rewrite andb_true_iff, !Z.eqb_eq. split; [intros [-> ->]|intros [= -> ->]]; auto.
Qed.

Lemma month_key_leb_iff (a b : month_key) :
  month_key_leb a b = true <->
  fst a < fst b \/ (fst a = fst b /\ snd a <= snd b).
Proof.
  unfold month_key_leb.
  destruct (Z.compare_spec (fst a) (fst b)); rewrite ?Z.leb_le;
    split; intros; try reflexivity; try discriminate; lia.
Qed.

Lemma month_key_leb_total (a b : month_key) :
  month_key_leb a b = false -> month_key_leb b a = true.
Proof.
  intros H. apply month_key_leb_iff.
  destruct (month_key_leb a b) eqn:E; [discriminate|].
  assert (N : ~ (fst a < fst b \/ (fst a = fst b /\ snd a <= snd b))).
  { intros C. apply month_key_leb_iff in C. congruence. }
  lia.
Qed.

Lemma month_key_leb_trans (a b c : month_key) :
  month_key_leb a b = true -> month_key_leb b c = true ->
  month_key_leb a c = true.
Proof. rewrite !month_key_leb_iff. lia. Qed.

Lemma has_key_in_month (mo : month_key) (m : milk) :
  has_key month_key_eq_dec record_month mo m = in_month mo m.
Proof.
  unfold has_key, in_month.
  destruct (month_key_eq_dec (record_month m) mo) as [E|E].
  - symmetry. now apply month_key_eqb_eq.
  - destruct (month_key_eqb (record_month m) mo) eqn:B; [|reflexivity].
    apply month_key_eqb_eq in B. contradiction.
Qed.

(** ** The left merge *)

Section MergeFacts.
Context {V : Type}.

Lemma filter_key_find (k : month_key) (right : list (month_key * V)) :
  NoDup (map fst right) ->
  filter (fun r => month_key_eqb k (fst r)) right
  = match find (fun r => month_key_eqb k (fst r)) right with
    | Some r => [r]
    | None => []
    end.
Proof.
  induction right as [|r rs IH]; simpl; intros Hnd; [reflexivity|].
  inversion Hnd as [|? ? Hr Hrs]; subst.
  destruct (month_key_eqb k (fst r)) eqn:E.
  - f_equal. apply filter_none. intros x Hx.
    destruct (month_key_eqb k (fst x)) eqn:Ex; [|reflexivity].
    apply month_key_eqb_eq in E, Ex. exfalso. apply Hr.
    rewrite <- E, Ex. now apply in_map.
  - now apply IH.
Qed.

Lemma find_key_of_map {G : Type} (kf : G -> month_key) (h : G -> V)
      (gs : list G) (g : G) :
  NoDup (map kf gs) -> In g gs ->
  find (fun r => month_key_eqb (kf g) (fst r))
       (map (fun x => (kf x, h x)) gs)
  = Some (kf g, h g).
Proof.
  induction gs as [|x gs IH]; simpl; intros Hnd Hin; [contradiction|].
  inversion Hnd as [|? ? Hx Hgs]; subst.
  destruct (month_key_eqb (kf g) (kf x)) eqn:E.
  - apply month_key_eqb_eq in E. destruct Hin as [->|Hin]; [reflexivity|].
    exfalso. apply Hx. rewrite <- E. now apply in_map.
  - destruct Hin as [->|Hin]; [|now apply IH].
    assert (month_key_eqb (kf g) (kf g) = true)
      by now apply month_key_eqb_eq.
    congruence.
Qed.
End MergeFacts.

Lemma merge_left_unique (liters sessions : list (month_key * Z)) :
  NoDup (map fst sessions) ->
  merge_left month_key_eqb liters sessions
  = map (fun l =>
           (fst l, snd l,
            option_map snd
              (find (fun r => month_key_eqb (fst l) (fst r)) sessions)))
        liters.
Proof.
  intros Hnd. unfold merge_left.
  match goal with |- flat_map ?f _ = _ => set (step := f) end.
  induction liters as [|l ls IH]; [reflexivity|].
  change (flat_map step (l :: ls)) with (step l ++ flat_map step ls).
  rewrite IH. clear IH. unfold step at 1.
  rewrite (filter_key_find (fst l) sessions Hnd).
  destruct (find (fun r => month_key_eqb (fst l) (fst r)) sessions) eqn:E;
    simpl; rewrite E; reflexivity.
Qed.

(** With one row per month on the right, the merge keeps the rows of the
    left series, in their order, each with the right value of its month or
    0. *)
Lemma merge_sessions_left_join (liters sessions : list (month_key * Z)) :
  NoDup (map fst sessions) ->
  merge_sessions liters sessions
  = map (fun l => (fst l, snd l, lookup0 (fst l) sessions)) liters.
Proof.
  intros Hnd. unfold merge_sessions, fillna0.
  rewrite (merge_left_unique liters sessions Hnd), map_map.
  apply map_ext. intros l. unfold lookup0. simpl.
  destruct (find (fun r => month_key_eqb (fst l) (fst r)) sessions);
    reflexivity.
Qed.

Lemma nodup_app_covered {A : Type} (dec : forall a b : A, {a = b} + {a <> b})
      (l1 l2 : list A) :
  incl l1 l2 -> NoDup l2 -> nodup dec (l1 ++ l2) = l2.
Proof.
  intros Hincl Hnd. induction l1 as [|x l1 IH]; simpl.
  - now apply nodup_fixed_point.
  - destruct (in_dec dec x (l1 ++ l2)) as [|N].
    + apply IH. intros y Hy. apply Hincl. now right.
    + exfalso. apply N, in_or_app. right. apply Hincl. now left.
Qed.

Lemma ORDER_BY_fixed {A : Type} (leb : A -> A -> bool) (l : list A) :
  StronglySorted (fun a b => leb a b = true) l -> ORDER_BY leb l = l.
Proof.
  induction 1 as [|x l Hs IH Hall]; simpl; [reflexivity|].
  rewrite IH. destruct l as [|y l']; [reflexivity|]. simpl.
  inversion Hall as [|? ? Hxy _]; subst. now rewrite Hxy.
Qed.

(** ** The 12-month trend *)

Lemma by_month_keys_NoDup (rows : list milk) :
  NoDup (map fst (by_month rows)).
Proof. apply GROUP_BY_keys_NoDup. Qed.

Lemma by_month_keys_sorted (rows : list milk) :
  StronglySorted (fun a b => month_key_leb a b = true)
                 (map fst (by_month rows)).
Proof.
  unfold by_month. rewrite GROUP_BY_keys.
  apply ORDER_BY_sorted.
  - apply month_key_leb_total.
  - apply month_key_leb_trans.
Qed.

Lemma by_month_group (rows : list milk) (g : month_key * list milk) :
  In g (by_month rows) ->
  snd g = filter (in_month (fst g)) rows
  /\ exists m, In m rows /\ record_month m = fst g.
Proof.
  destruct g as [k g]. intros H. simpl.
  pose proof (GROUP_BY_nonempty month_key_eq_dec month_key_leb record_month
                k g rows H) as Hne.
  apply GROUP_BY_In in H. destruct H as [_ ->]. split.
  - apply filter_ext. intros m. apply has_key_in_month.
  - destruct (filter (has_key month_key_eq_dec record_month k) rows)
      as [|m l] eqn:E; [congruence|].
    exists m. rewrite <- has_key_true with (eq_dec := month_key_eq_dec).
    rewrite <- filter_In, E. now left.
Qed.

(** The trend table, group by group: the left merge finds every month of
    the liters series in the session series. *)
Lemma trend_rows (count : list milk -> Z) (rows : list milk) :
  merge_sessions (round0_int (month_liters_query rows))
                 (map (fun g => (fst g, count (snd g))) (by_month rows))
  = map (fun g =>
           (fst g, round_half_even (Qsum (yields (snd g))), count (snd g)))
        (by_month rows).
Proof.
  rewrite merge_sessions_left_join.
  - unfold round0_int, month_liters_query. rewrite !map_map.
    apply map_ext_in. intros g Hg. simpl. unfold lookup0.
    rewrite (find_key_of_map fst (fun x => count (snd x)) (by_month rows) g
               (by_month_keys_NoDup rows) Hg).
    reflexivity.
  - rewrite map_map. simpl. apply by_month_keys_NoDup.
Qed.

Lemma trend_rows_outer_join (count : list milk -> Z) (rows : list milk) :
  outer_join_sessions (round0_int (month_liters_query rows))
                      (map (fun g => (fst g, count (snd g))) (by_month rows))
  = map (fun g =>
           (fst g, round_half_even (Qsum (yields (snd g))), count (snd g)))
        (by_month rows).
Proof.
  unfold outer_join_sessions, round0_int, month_liters_query.
  rewrite !map_map. simpl.
  rewrite nodup_app_covered;
    [|apply incl_refl|apply by_month_keys_NoDup].
  rewrite ORDER_BY_fixed by apply by_month_keys_sorted.
  rewrite map_map. apply map_ext_in. intros g Hg. unfold lookup0.
  rewrite (find_key_of_map fst (fun x => count (snd x)) (by_month rows) g
             (by_month_keys_NoDup rows) Hg).
  rewrite (find_key_of_map fst
             (fun x => round_half_even (Qsum (yields (snd x))))
             (by_month rows) g (by_month_keys_NoDup rows) Hg).
  reflexivity.
Qed.

Lemma farm_trend_rows (d : db) (today : date) (farm : string) :
  fs_df_12mo (farm_yield_summary d today farm)
  = map (fun g =>
           (fst g, round_half_even (Qsum (yields (snd g))),
            COUNT_DISTINCT string_dec (tags (snd g))))
        (by_month (on_or_after (since today) (farm_records d farm))).
Proof.
  apply (trend_rows (fun g => COUNT_DISTINCT string_dec (tags g))).
Qed.

Lemma animal_trend_rows (d : db) (today : date) (tag : string) :
  as_df_12mo (animal_yield_summary d today tag)
  = map (fun g =>
           (fst g, round_half_even (Qsum (yields (snd g))), COUNT (snd g)))
        (by_month (on_or_after (since today) (animal_records d tag))).
Proof. apply (trend_rows (fun g => COUNT g)). Qed.

Lemma trend_months (count : list milk -> Z) (rows : list milk) :
  map t_month
      (map (fun g =>
              (fst g, round_half_even (Qsum (yields (snd g))), count (snd g)))
           (by_month rows))
  = map fst (by_month rows).
Proof. rewrite map_map. reflexivity. Qed.

(** The merge taken alone is a left join: handed two series that do not
    hold the same months, which the two queries of a trend never return, it
    keeps the months of the liters series only. *)
Remark merge_keeps_liters_months :
  merge_sessions Samples.liters_jan Samples.sessions_jan_feb
  = [((2024, 1), 40, 2)]
  /\ outer_join_sessions Samples.liters_jan Samples.sessions_jan_feb
     = [((2024, 1), 40, 2); ((2024, 2), 0, 3)].
Proof. split; reflexivity. Qed.

Lemma outer_join_months (liters sessions : list (month_key * Z))
      (mo : month_key) :
  In mo (map t_month (outer_join_sessions liters sessions))
  <-> In mo (map fst liters) \/ In mo (map fst sessions).
Proof.
  unfold outer_join_sessions. rewrite map_map. unfold t_month. simpl.
  rewrite map_id, ORDER_BY_In, nodup_In, in_app_iff. reflexivity.
Qed.

(** C3. In the farm trend and in the animal trend the merged table is the
    full outer join on month of the liters series and the session series:
    its months are the months present in either series, a month missing
    from one series would get 0 for that series' value, and the months are
    ascending. (The two series are grouped from the same rows, so they
    hold the same months, and the left merge of the code loses none.) *)
Theorem trend_merge_is_outer_join (d : db) (today : date) :
  (forall farm,
      let recent := on_or_after (since today) (farm_records d farm) in
      let liters := round0_int (month_liters_query recent) in
      let sessions := month_cows_query recent in
      let trend := fs_df_12mo (farm_yield_summary d today farm) in
      trend = outer_join_sessions liters sessions
      /\ (forall mo, In mo (map t_month trend)
                     <-> In mo (map fst liters) \/ In mo (map fst sessions))
      /\ (forall r, In r trend ->
                    t_liters r = lookup0 (t_month r) liters
                    /\ t_sessions r = lookup0 (t_month r) sessions)
      /\ StronglySorted (fun a b => month_key_leb a b = true)
                        (map t_month trend))
  /\
  (forall tag,
      let recent := on_or_after (since today) (animal_records d tag) in
      let liters := round0_int (month_liters_query recent) in
      let sessions := month_count_query recent in
      let trend := as_df_12mo (animal_yield_summary d today tag) in
      trend = outer_join_sessions liters sessions
      /\ (forall mo, In mo (map t_month trend)
                     <-> In mo (map fst liters) \/ In mo (map fst sessions))
      /\ (forall r, In r trend ->
                    t_liters r = lookup0 (t_month r) liters
                    /\ t_sessions r = lookup0 (t_month r) sessions)
      /\ StronglySorted (fun a b => month_key_leb a b = true)
                        (map t_month trend)).
Proof.
  assert (Hrows : forall liters sessions r,
             In r (outer_join_sessions liters sessions) ->
             t_liters r = lookup0 (t_month r) liters
             /\ t_sessions r = lookup0 (t_month r) sessions).
  { intros liters sessions r Hr. unfold outer_join_sessions in Hr.
    apply in_map_iff in Hr. destruct Hr as (k & <- & _). split; reflexivity. }
  split; intros x recent liters sessions trend.
  - assert (E : trend = outer_join_sessions liters sessions).
    { unfold trend. rewrite farm_trend_rows. symmetry.
      apply (trend_rows_outer_join
               (fun g => COUNT_DISTINCT string_dec (tags g))). }
    split; [exact E|]. split; [|split].
    + intros mo. rewrite E. apply outer_join_months.
    + intros r Hr. rewrite E in Hr. now apply Hrows.
    + unfold trend. rewrite farm_trend_rows.
      rewrite (trend_months (fun g => COUNT_DISTINCT string_dec (tags g))).
      apply by_month_keys_sorted.
  - assert (E : trend = outer_join_sessions liters sessions).
    { unfold trend. rewrite animal_trend_rows. symmetry.
      apply (trend_rows_outer_join (fun g => COUNT g)). }
    split; [exact E|]. split; [|split].
    + intros mo. rewrite E. apply outer_join_months.
    + intros r Hr. rewrite E in Hr. now apply Hrows.
    + unfold trend. rewrite animal_trend_rows.
      rewrite (trend_months (fun g => COUNT g)).
      apply by_month_keys_sorted.
Qed.

Lemma farm_records_In (d : db) (farm : string) (m : milk) :
  In m (farm_records d farm) -> In m (milk_yield d).
Proof.
  unfold farm_records, milk_join_animals. rewrite in_map_iff.
  intros ([m' a] & <- & H). apply filter_In in H. destruct H as [H _].
  apply in_flat_map in H. destruct H as (m0 & Hm0 & H).
  apply in_map_iff in H. destruct H as (a0 & [= -> ->] & _). exact Hm0.
Qed.

Lemma animal_records_In (d : db) (tag : string) (m : milk) :
  In m (animal_records d tag) -> In m (milk_yield d).
Proof. unfold animal_records. rewrite filter_In. tauto. Qed.

Lemma by_month_months (rows : list milk) (mo : month_key) :
  In mo (map fst (by_month rows)) <->
  exists m, In m rows /\ record_month m = mo.
Proof.
  unfold by_month. rewrite GROUP_BY_keys, ORDER_BY_In, nodup_In, in_map_iff.
  split; intros (m & H1 & H2); exists m; tauto.
Qed.

Lemma on_or_after_since (today : date) (rows : list milk) (m : milk) :
  valid_date today = true -> 1 < year today ->
  valid_date (record_date m) = true ->
  (In m (on_or_after (since today) rows) <->
   In m rows /\ toordinal today - 365 <= toordinal (record_date m)).
Proof.
  intros Hv Hy Hm. destruct (since_spec today Hv Hy) as [Sv So].
  unfold on_or_after. rewrite filter_In.
  rewrite (date_leb_toordinal _ _ Sv Hm), So. tauto.
Qed.

(** A record dated after today puts its month into both trends. *)
Lemma trend_holds_month_after_today :
  In ((2025, 3), 10, 1)
     (fs_df_12mo (farm_yield_summary Samples.postdated Samples.a_day_in_2024
                                     "Green Pastures"))
  /\ In ((2025, 3), 10, 1)
        (as_df_12mo (animal_yield_summary Samples.postdated
                                          Samples.a_day_in_2024 "T001"))
  /\ in_trailing_window Samples.a_day_in_2024 (2025, 3) = false.
Proof.
  split; [|split].
  - vm_compute. auto.
  - vm_compute. auto.
  - vm_compute. reflexivity.
Qed.

(** C4, amended. With today a date after year 1 and record dates calendar
    days, a month is in the farm trend (in the animal trend) exactly when
    some record of the farm (of the animal) dated on or after today - 365
    days falls in it. The bound is a lower bound only: a record dated after
    today contributes its month as well. *)
Theorem trend_months_since_lower_bound (d : db) (today : date) :
  valid_date today = true -> 1 < year today ->
  (forall m, In m (milk_yield d) -> valid_date (record_date m) = true) ->
  (forall farm mo,
      In mo (map t_month (fs_df_12mo (farm_yield_summary d today farm))) <->
      exists m, In m (farm_records d farm)
                /\ record_month m = mo
                /\ toordinal today - 365 <= toordinal (record_date m))
  /\
  (forall tag mo,
      In mo (map t_month (as_df_12mo (animal_yield_summary d today tag))) <->
      exists m, In m (animal_records d tag)
                /\ record_month m = mo
                /\ toordinal today - 365 <= toordinal (record_date m)).
Proof.
  intros Hv Hy Hdates.
  assert (Hwin : forall rows m,
             In m rows -> In m (milk_yield d) ->
             (In m (on_or_after (since today) rows) <->
              toordinal today - 365 <= toordinal (record_date m))).
  { intros rows m Hm Hd.
    rewrite (on_or_after_since today rows m Hv Hy (Hdates m Hd)). tauto. }
  assert (Hsub : forall rows m,
             In m (on_or_after (since today) rows) -> In m rows).
  { intros rows m H. unfold on_or_after in H. apply filter_In in H. tauto. }
  split; intros x mo.
  - rewrite farm_trend_rows.
    rewrite (trend_months (fun g => COUNT_DISTINCT string_dec (tags g))).
    rewrite by_month_months. split.
    + intros (m & Hin & Hmo). exists m.
      pose proof (Hsub _ _ Hin) as Hm.
      pose proof (farm_records_In _ _ _ Hm) as Hd.
      repeat split; try assumption. now apply (Hwin _ m Hm Hd).
    + intros (m & Hm & Hmo & Hord). exists m. split; [|exact Hmo].
      apply (Hwin _ m Hm (farm_records_In _ _ _ Hm)). exact Hord.
  - rewrite animal_trend_rows.
    rewrite (trend_months (fun g => COUNT g)).
    rewrite by_month_months. split.
    + intros (m & Hin & Hmo). exists m.
      pose proof (Hsub _ _ Hin) as Hm.
      pose proof (animal_records_In _ _ _ Hm) as Hd.
      repeat split; try assumption. now apply (Hwin _ m Hm Hd).
    + intros (m & Hm & Hmo & Hord). exists m. split; [|exact Hmo].
      apply (Hwin _ m Hm (animal_records_In _ _ _ Hm)). exact Hord.
Qed.

(** ** Session counts *)

Lemma distinct_tags_in_month (rows : list milk) (mo : month_key) :
  COUNT_DISTINCT string_dec (tags (filter (in_month mo) rows))
  = animals_with_record_in rows mo.
Proof.
  unfold COUNT_DISTINCT, animals_with_record_in. f_equal.
  apply Permutation_length, NoDup_Permutation.
  - apply NoDup_nodup.
  - apply NoDup_filter, NoDup_nodup.
  - intros t. rewrite nodup_In, filter_In, nodup_In, existsb_exists.
    unfold tags. rewrite !in_map_iff. split.
    + intros (m & Ht & Hm). apply filter_In in Hm. destruct Hm as [Hm Hmo].
      split; [now exists m|]. exists m. split; [exact Hm|].
      rewrite Hmo, andb_true_r. now apply String.eqb_eq.
    + intros (_ & m & Hm & Hb). apply andb_true_iff in Hb.
      destruct Hb as [Ht Hmo]. apply String.eqb_eq in Ht.
      exists m. split; [exact Ht|]. apply filter_In. now split.
Qed.

Lemma filter_filter_implied {A : Type} (p q : A -> bool) (l : list A) :
  (forall x, In x l -> p x = true -> q x = true) ->
  filter p (filter q l) = filter p l.
Proof.
  induction l as [|x l IH]; simpl; intros H; [reflexivity|].
  assert (IH' := IH (fun y Hy => H y (or_intror Hy))).
  destruct (q x) eqn:Eq; simpl.
  - now rewrite IH'.
  - destruct (p x) eqn:Ep; [|exact IH'].
    rewrite (H x (or_introl eq_refl) Ep) in Eq. discriminate.
Qed.

Lemma in_month_whole (start : date) (rows : list milk) (mo : month_key) :
  (forall m, In m rows -> record_month m = mo ->
             date_leb start (record_date m) = true) ->
  filter (in_month mo) (on_or_after start rows) = filter (in_month mo) rows.
Proof.
  intros H. apply filter_filter_implied. intros m Hm Hmo.
  apply H; [exact Hm|]. now apply month_key_eqb_eq.
Qed.


(** ** Numbers as text *)

Import Text.

Local Abbreviation chars := list_ascii_of_string (only parsing).

Lemma chars_append (a b : string) :
  chars (a ++ b)%string = chars a ++ chars b.
Proof. induction a as [|c a IH]; simpl; [reflexivity|now rewrite IH]. Qed.

Lemma is_digit_cases (c : ascii) :
  is_digit c = true ->
  In c ["0"; "1"; "2"; "3"; "4"; "5"; "6"; "7"; "8"; "9"]%char.
Proof.
  unfold is_digit. rewrite existsb_exists.
  intros (x & Hx & E). apply Ascii.eqb_eq in E. now subst.
Qed.

Ltac digit_cases c H :=
  apply is_digit_cases in H; simpl in H;
  repeat (destruct H as [H|H]; [subst c|]); [..|contradiction].

Lemma is_digit_not_special (c : ascii) :
  is_digit c = true ->
  special c = false /\ Ascii.eqb c "."%char = false
  /\ Ascii.eqb c "-"%char = false.
Proof. intros H. digit_cases c H; repeat split; reflexivity. Qed.

Lemma uint_chars_digits (d : Decimal.uint) :
  forallb is_digit (chars (NilEmpty.string_of_uint d)) = true.
Proof. induction d; simpl; auto. Qed.

Lemma digits_all_digits (n : Z) : forallb is_digit (chars (digits n)) = true.
Proof.
  unfold digits, NilZero.string_of_uint.
  destruct (N.to_uint (Z.to_N n)) eqn:E; try reflexivity;
    rewrite <- E; apply uint_chars_digits.
Qed.

Lemma N_to_uint_nonnil (n : N) : N.to_uint n <> Decimal.Nil.
Proof.
  destruct n as [|p]; simpl; [discriminate|].
  apply DecimalPos.Unsigned.to_uint_nonnil.
Qed.

Lemma nat_of_digits_digits (n : Z) :
  0 <= n -> nat_of_digits (digits n) = Some n.
Proof.
  intros H. unfold nat_of_digits, digits.
  rewrite NilZero.usu by apply N_to_uint_nonnil. simpl.
  rewrite DecimalN.Unsigned.of_to. f_equal. now apply Z2N.id.
Qed.

Lemma digits_nonempty (n : Z) : digits n <> EmptyString.
Proof.
  intros E. pose proof (NilZero.usu (N.to_uint (Z.to_N n))
                          (N_to_uint_nonnil _)) as H.
  unfold digits in E. rewrite E in H. discriminate.
Qed.

Lemma filter_group3 (p : ascii -> bool) (l : list ascii) :
  p COMMA = false -> filter p (group3 l) = filter p l.
Proof.
  intros Hc.
  assert (H : forall n l, (length l <= n)%nat ->
                          filter p (group3 l) = filter p l).
  { clear l. induction n as [|n IH]; intros l Hl.
    - destruct l; [reflexivity|simpl in Hl; lia].
    - destruct l as [|a [|b [|c [|e rest]]]]; try reflexivity.
      change (group3 (a :: b :: c :: e :: rest))
        with (a :: b :: c :: COMMA :: group3 (e :: rest)).
      cbn [filter]. rewrite Hc, (IH (e :: rest)) by (simpl in *; lia).
      reflexivity. }
  now apply (H (length l)).
Qed.

Lemma Forall_group3 (P : ascii -> Prop) (l : list ascii) :
  P COMMA -> Forall P l -> Forall P (group3 l).
Proof.
  intros Hc.
  assert (H : forall n l, (length l <= n)%nat ->
                          Forall P l -> Forall P (group3 l)).
  { clear l. induction n as [|n IH]; intros l Hl Hall.
    - destruct l; [constructor|simpl in Hl; lia].
    - destruct l as [|a [|b [|c [|e rest]]]]; try exact Hall.
      change (group3 (a :: b :: c :: e :: rest))
        with (a :: b :: c :: COMMA :: group3 (e :: rest)).
      inversion Hall as [|? ? Ha Hall1]; subst.
      inversion Hall1 as [|? ? Hb Hall2]; subst.
      inversion Hall2 as [|? ? Hcc Hall3]; subst.
      repeat constructor; try assumption.
      apply IH; [simpl in *; lia|assumption]. }
  now apply (H (length l)).
Qed.

Lemma strip_commas_thousands (s : string) :
  forallb is_digit (chars s) = true -> strip_commas (thousands s) = s.
Proof.
  intros H. unfold strip_commas, thousands.
  rewrite list_ascii_of_string_of_list_ascii, filter_rev.
  rewrite filter_group3 by reflexivity.
  rewrite <- filter_rev, rev_involutive.
  rewrite filter_all; [apply string_of_list_ascii_of_string|].
  intros c Hc. rewrite forallb_forall in H. specialize (H c Hc).
  digit_cases c H; reflexivity.
Qed.

Lemma strip_commas_append (a b : string) :
  strip_commas (a ++ b)%string
  = (strip_commas a ++ strip_commas b)%string.
Proof.
  unfold strip_commas. rewrite chars_append, filter_app.
  generalize (filter (fun c => negb (Ascii.eqb c COMMA)) (chars a)).
  intros l. induction l as [|c l IH]; simpl; [reflexivity|now rewrite IH].
Qed.

Lemma strip_commas_digits (s : string) :
  forallb is_digit (chars s) = true -> strip_commas s = s.
Proof.
  intros H. unfold strip_commas.
  rewrite filter_all; [apply string_of_list_ascii_of_string|].
  intros c Hc. rewrite forallb_forall in H. specialize (H c Hc).
  digit_cases c H; reflexivity.
Qed.

Lemma split_dot_digits (a : string) :
  forallb is_digit (chars a) = true ->
  split_dot a = (a, None)
  /\ forall b, split_dot (a ++ String "."%char b)%string = (a, Some b).
Proof.
  induction a as [|c a IH]; simpl; intros H.
  - split; reflexivity.
  - apply andb_true_iff in H. destruct H as [Hc Ha].
    destruct (IH Ha) as [IH1 IH2].
    destruct (is_digit_not_special c Hc) as (_ & Hdot & _).
    rewrite Hdot, IH1. split; [reflexivity|].
    intros b. now rewrite IH2.
Qed.

Lemma first_char_digits (n : Z) :
  exists c t, digits n = String c t /\ is_digit c = true.
Proof.
  pose proof (digits_all_digits n) as H.
  pose proof (digits_nonempty n) as Hne.
  destruct (digits n) as [|c t]; [congruence|].
  simpl in H. apply andb_true_iff in H. exists c, t. tauto.
Qed.

(** ** Rounding to the nearest integer *)

Lemma round_half_even_comp (q q' : Q) :
  (q == q')%Q -> round_half_even q = round_half_even q'.
Proof.
  intros E. unfold round_half_even.
  rewrite (Qfloor_comp _ _ E).
  assert (E' : (q - inject_Z (Qfloor q') == q' - inject_Z (Qfloor q'))%Q)
    by now rewrite E.
  now rewrite (Qcompare_comp _ _ E' _ _ (Qeq_refl (1 # 2))).
Qed.

Lemma round_half_even_Z (z : Z) : round_half_even (inject_Z z) = z.
Proof.
  unfold round_half_even. rewrite Qfloor_Z.
  assert (E : (inject_Z z - inject_Z z == 0)%Q) by ring.
  now rewrite (Qcompare_comp _ _ E _ _ (Qeq_refl (1 # 2))).
Qed.

Lemma round_half_even_nonneg (q : Q) : (0 <= q)%Q -> 0 <= round_half_even q.
Proof.
  intros H. pose proof (Qfloor_resp_le _ _ H) as Hf.
  change (Qfloor 0) with 0 in Hf. unfold round_half_even.
  destruct (q - inject_Z (Qfloor q) ?= 1 # 2)%Q;
    [destruct (Z.even (Qfloor q))| |]; lia.
Qed.

Lemma round_half_even_near (q : Q) :
  (Qabs (inject_Z (round_half_even q) - q) <= 1 # 2)%Q.
Proof.
  apply Qabs_Qle_condition.
  pose proof (Qfloor_le q) as Hlo. pose proof (Qlt_floor q) as Hhi.
  rewrite inject_Z_plus in Hhi. unfold round_half_even.
  set (f := Qfloor q) in *. change (inject_Z 1) with 1%Q in Hhi.
  destruct (q - inject_Z f ?= 1 # 2)%Q eqn:C.
  - apply Qeq_alt in C.
    destruct (Z.even f);
      [|rewrite inject_Z_plus; change (inject_Z 1) with 1%Q]; split; lra.
  - apply Qlt_alt in C. split; lra.
  - apply Qgt_alt in C. rewrite inject_Z_plus.
    change (inject_Z 1) with 1%Q. split; lra.
Qed.

(** ** Formatting a number and reading it back *)

Lemma sign_nonneg (q : Q) : (0 <= q)%Q -> sign q = EmptyString.
Proof.
  intros H. unfold sign. destruct (q ?= 0)%Q eqn:C; try reflexivity.
  apply Qlt_alt in C. lra.
Qed.

Lemma parse_unsigned_digits (n : Z) :
  0 <= n -> parse_unsigned (digits n) = Some (inject_Z n).
Proof.
  intros H. unfold parse_unsigned.
  destruct (split_dot_digits (digits n) (digits_all_digits n)) as [-> _].
  now rewrite nat_of_digits_digits.
Qed.

Lemma parse_number_unsigned (s : string) (c : ascii) (t : string) :
  strip_commas s = String c t -> is_digit c = true ->
  parse_number s = parse_unsigned (String c t).
Proof.
  intros E Hc. unfold parse_number. rewrite E.
  destruct (is_digit_not_special c Hc) as (_ & _ & ->). reflexivity.
Qed.

Lemma parse_number_format_0f (q : Q) :
  (0 <= q)%Q ->
  parse_number (format_comma_0f q) = Some (inject_Z (round_half_even q)).
Proof.
  intros H. unfold format_comma_0f. rewrite (sign_nonneg q H). simpl.
  rewrite (round_half_even_comp _ _ (Qabs_pos q H)).
  pose proof (round_half_even_nonneg q H) as Hn.
  destruct (first_char_digits (round_half_even q)) as (c & t & E & Hc).
  rewrite (parse_number_unsigned _ c t).
  - rewrite <- E. now apply parse_unsigned_digits.
  - rewrite strip_commas_thousands by apply digits_all_digits. exact E.
  - exact Hc.
Qed.

Lemma digits_one_char (b : Z) :
  0 <= b < 10 -> String.length (digits b) = 1%nat.
Proof.
  intros H.
  assert (C : b = 0 \/ b = 1 \/ b = 2 \/ b = 3 \/ b = 4 \/ b = 5 \/ b = 6
              \/ b = 7 \/ b = 8 \/ b = 9) by lia.
  repeat (destruct C as [C|C]; [subst b; reflexivity|]).
  subst b. reflexivity.
Qed.

Lemma parse_number_format_1f (q : Q) :
  (0 <= q)%Q ->
  exists v, parse_number (format_comma_1f q) = Some v
            /\ (v == inject_Z (round_half_even (q * (10 # 1))) / (10 # 1))%Q.
Proof.
  intros H. unfold format_comma_1f. rewrite (sign_nonneg q H).
  assert (E10 : (Qabs q * (10 # 1) == q * (10 # 1))%Q)
    by now rewrite (Qabs_pos q H).
  rewrite (round_half_even_comp _ _ E10).
  set (t := round_half_even (q * (10 # 1))).
  assert (Ht : 0 <= t) by (apply round_half_even_nonneg; lra).
  assert (Ha : 0 <= t / 10) by (apply Z.div_pos; lia).
  assert (Hb : 0 <= t mod 10 < 10) by (apply Z.mod_pos_bound; lia).
  change (EmptyString ++ ?x)%string with x.
  destruct (first_char_digits (t / 10)) as (c & r & E & Hc).
  assert (Es : strip_commas
                 (thousands (digits (t / 10)) ++ "." ++ digits (t mod 10))
               = (digits (t / 10) ++ String "."%char (digits (t mod 10)))%string).
  { rewrite strip_commas_append.
    rewrite strip_commas_thousands by apply digits_all_digits.
    f_equal.
    rewrite (strip_commas_append "." (digits (t mod 10))).
    now rewrite (strip_commas_digits _ (digits_all_digits (t mod 10))). }
  assert (Es' : strip_commas
                  (thousands (digits (t / 10)) ++ "." ++ digits (t mod 10))
                = String c (r ++ String "."%char (digits (t mod 10))))
    by (rewrite Es, E; reflexivity).
  rewrite (parse_number_unsigned _ c _ Es' Hc).
  change (String c (r ++ String "."%char (digits (t mod 10))))%string
    with (String c r ++ String "."%char (digits (t mod 10)))%string.
  rewrite <- E. unfold parse_unsigned.
  destruct (split_dot_digits (digits (t / 10)) (digits_all_digits _))
    as [_ ->].
  rewrite !nat_of_digits_digits by lia.
  rewrite (digits_one_char _ Hb).
  eexists. split; [reflexivity|].
  change (inject_Z (10 ^ Z.of_nat 1)) with (10 # 1)%Q.
  rewrite (Z.div_mod t 10) at 3 by lia.
  rewrite inject_Z_plus, inject_Z_mult.
  change (inject_Z 10) with (10 # 1)%Q. field.
Qed.

(** ** The export table *)

Lemma traverse_map {A B C : Type} (f : B -> option C) (g : A -> B)
      (h : A -> C) (l : list A) :
  (forall x, f (g x) = Some (h x)) ->
  traverse f (map g l) = Some (map h l).
Proof.
  intros H. induction l as [|x l IH]; simpl; [reflexivity|].
  now rewrite H, IH.
Qed.

(** The four columns of the download and its rows: the year as it is, the
    liters and the days with no decimals, the average with one. *)
Lemma csv_of_df_year (with_cows : bool) (df : list year_row) :
  csv (frame_of_df_year with_cows df)
  = Some {| fr_columns :=
              ["Year"; "Total Liters"; "Days Milked"; "Avg Daily (L)"]%string;
            fr_rows :=
              map (fun r =>
                     [CInt (yr_year r);
                      CStr (format_comma_0f (yr_liters r));
                      CStr (format_comma_0f (inject_Z (yr_days r)));
                      CStr (format_float format_comma_1f (yr_avg_daily r))])
                  df |}.
Proof.
  unfold csv, frame_of_df_year.
  destruct with_cows; unfold assign_from; cbn [fr_columns fr_rows index_of
    String.eqb Ascii.eqb Bool.eqb option_map app].
  all: erewrite traverse_map by (intros; cbn; reflexivity).
  all: cbn [bind option_map]; unfold select;
    cbn [fr_columns fr_rows traverse index_of String.eqb Ascii.eqb Bool.eqb
         option_map app].
  all: erewrite traverse_map by (intros; cbn; reflexivity).
  all: cbn [bind option_map set_columns fr_columns length Nat.eqb fr_rows].
  all: unfold map_column at 1;
    cbn [fr_columns fr_rows index_of String.eqb Ascii.eqb Bool.eqb option_map].
  all: erewrite traverse_map by (intros; cbn; reflexivity).
  all: cbn [bind option_map]; unfold map_column at 1;
    cbn [fr_columns fr_rows index_of String.eqb Ascii.eqb Bool.eqb option_map].
  all: erewrite traverse_map by (intros; cbn; reflexivity).
  all: cbn [bind option_map]; unfold map_column at 1;
    cbn [fr_columns fr_rows index_of String.eqb Ascii.eqb Bool.eqb option_map].
  all: erewrite traverse_map by (intros; cbn; reflexivity).
  all: reflexivity.
Qed.

(** ** Writing a CSV text and reading it back *)

Lemma read_plain_run (cs rest : list ascii) (fld : list ascii)
      (row : list string) :
  forallb (fun c => negb (special c)) cs = true ->
  read_csv (cs ++ rest) Plain fld row
  = read_csv rest Plain (rev cs ++ fld) row.
Proof.
  revert fld. induction cs as [|c cs IH]; intros fld H; [reflexivity|].
  simpl in H. apply andb_true_iff in H. destruct H as [Hc Hcs].
  unfold special in Hc. rewrite !negb_orb, !andb_true_iff in Hc.
  destruct Hc as [[[H1 H2] H3] H4]. apply negb_true_iff in H1, H2, H3.
  cbn [app read_csv]. rewrite H1, H2, H3, IH by assumption.
  cbn [rev]. now rewrite <- app_assoc.
Qed.

Lemma read_quoted_run (cs rest : list ascii) (fld : list ascii)
      (row : list string) :
  forallb inline cs = true ->
  read_csv (cs ++ rest) Quoted fld row
  = read_csv rest Quoted (rev cs ++ fld) row.
Proof.
  revert fld. induction cs as [|c cs IH]; intros fld H; [reflexivity|].
  simpl in H. apply andb_true_iff in H. destruct H as [Hc Hcs].
  unfold inline in Hc. rewrite !negb_orb, !andb_true_iff in Hc.
  destruct Hc as [[H1 _] _]. apply negb_true_iff in H1.
  cbn [app read_csv]. rewrite H1, IH by assumption.
  cbn [rev]. now rewrite <- app_assoc.
Qed.

Lemma escape_inline (cs : list ascii) :
  forallb inline cs = true ->
  flat_map (fun c => if Ascii.eqb c DQ then [DQ; DQ] else [c]) cs = cs.
Proof.
  induction cs as [|c cs IH]; simpl; intros H; [reflexivity|].
  apply andb_true_iff in H. destruct H as [Hc Hcs].
  unfold inline in Hc. rewrite !negb_orb, !andb_true_iff in Hc.
  destruct Hc as [[H1 _] _]. apply negb_true_iff in H1.
  now rewrite H1, IH.
Qed.

(** After a written field the reader holds its characters and is back
    outside quotes. *)
Lemma read_field (s : string) (rest : list ascii) (row : list string) :
  forallb inline (chars s) = true ->
  exists st,
    (st = Plain \/ st = QuoteSeen)
    /\ read_csv (write_field s ++ rest) Plain [] row
       = read_csv rest st (rev (chars s)) row.
Proof.
  intros H. unfold write_field.
  destruct (existsb special (chars s)) eqn:E.
  - exists QuoteSeen. split; [now right|].
    rewrite (escape_inline _ H).
    change ((DQ :: chars s ++ [DQ]) ++ rest)
      with (DQ :: (chars s ++ [DQ]) ++ rest).
    rewrite <- app_assoc. cbn [read_csv].
    change (Ascii.eqb DQ DQ) with true. cbn iota.
    rewrite (read_quoted_run _ _ _ _ H). rewrite app_nil_r.
    reflexivity.
  - exists Plain. split; [now left|].
    rewrite read_plain_run, app_nil_r; [reflexivity|].
    apply forallb_forall. intros c Hc.
    apply negb_true_iff.
    destruct (special c) eqn:S; [|reflexivity].
    assert (existsb special (chars s) = true)
      by (apply existsb_exists; eauto).
    congruence.
Qed.

Lemma read_comma (st : rstate) (rest fld : list ascii) (row : list string) :
  st = Plain \/ st = QuoteSeen ->
  read_csv (COMMA :: rest) st fld row
  = read_csv rest Plain [] (string_of_list_ascii (rev fld) :: row).
Proof. intros [->| ->]; reflexivity. Qed.

Lemma read_line_feed (st : rstate) (rest fld : list ascii)
      (row : list string) :
  st = Plain \/ st = QuoteSeen ->
  read_csv (LF :: rest) st fld row
  = rev (string_of_list_ascii (rev fld) :: row)
    :: read_csv rest Plain [] [].
Proof. intros [->| ->]; reflexivity. Qed.

Lemma read_row (fields : list string) (rest : list ascii)
      (row : list string) :
  fields <> [] ->
  Forall (fun s => forallb inline (chars s) = true) fields ->
  read_csv (write_row fields ++ rest) Plain [] row
  = (rev row ++ fields) :: read_csv rest Plain [] [].
Proof.
  revert row. induction fields as [|f fs IH]; intros row Hne Hall;
    [congruence|].
  inversion Hall as [|? ? Hf Hfs]; subst.
  destruct fs as [|g fs'].
  - cbn [write_row]. rewrite <- app_assoc.
    destruct (read_field f ([LF] ++ rest) row Hf) as (st & Hst & ->).
    cbn [app]. rewrite (read_line_feed st _ _ _ Hst).
    rewrite rev_involutive, string_of_list_ascii_of_string.
    reflexivity.
  - change (write_row (f :: g :: fs'))
      with (write_field f ++ COMMA :: write_row (g :: fs')).
    rewrite <- app_assoc.
    destruct (read_field f ((COMMA :: write_row (g :: fs')) ++ rest) row Hf)
      as (st & Hst & ->).
    cbn [app]. rewrite (read_comma st _ _ _ Hst).
    rewrite rev_involutive, string_of_list_ascii_of_string.
    rewrite IH by (auto; discriminate).
    cbn [rev]. now rewrite <- app_assoc.
Qed.

(** Reading back a written table gives the table. *)
Lemma parse_csv_written (table : list (list string)) :
  Forall (fun fields =>
            fields <> []
            /\ Forall (fun s => forallb inline (chars s) = true) fields)
         table ->
  parse_csv (flat_map write_row table) = table.
Proof.
  unfold parse_csv. induction 1 as [|fields table [Hne Hall] _ IH];
    [reflexivity|].
  cbn [flat_map]. rewrite (read_row fields _ [] Hne Hall). now rewrite IH.
Qed.

(** ** The characters of the exported fields *)

Lemma inline_append (a b : string) :
  forallb inline (chars a) = true -> forallb inline (chars b) = true ->
  forallb inline (chars (a ++ b)%string) = true.
Proof.
  intros Ha Hb. rewrite chars_append, forallb_app. now rewrite Ha, Hb.
Qed.

Lemma inline_digits_string (s : string) :
  forallb is_digit (chars s) = true -> forallb inline (chars s) = true.
Proof.
  rewrite !forallb_forall. intros H c Hc. specialize (H c Hc).
  digit_cases c H; reflexivity.
Qed.

Lemma inline_thousands (s : string) :
  forallb inline (chars s) = true ->
  forallb inline (chars (thousands s)) = true.
Proof.
  intros H. unfold thousands. rewrite list_ascii_of_string_of_list_ascii.
  apply forallb_forall, Forall_forall, Forall_rev, Forall_group3;
    [reflexivity|].
  apply Forall_rev, Forall_forall, forallb_forall, H.
Qed.

Lemma inline_sign (q : Q) : forallb inline (chars (sign q)) = true.
Proof. unfold sign. destruct (q ?= 0)%Q; reflexivity. Qed.

Lemma inline_format_comma_0f (q : Q) :
  forallb inline (chars (format_comma_0f q)) = true.
Proof.
  unfold format_comma_0f. apply inline_append; [apply inline_sign|].
  apply inline_thousands, inline_digits_string, digits_all_digits.
Qed.

Lemma inline_format_comma_1f (q : Q) :
  forallb inline (chars (format_comma_1f q)) = true.
Proof.
  unfold format_comma_1f. apply inline_append; [apply inline_sign|].
  apply inline_append.
  - apply inline_thousands, inline_digits_string, digits_all_digits.
  - apply (inline_append "."); [reflexivity|].
    apply inline_digits_string, digits_all_digits.
Qed.

Lemma inline_format_float (fmt : Q -> string) (x : fnum) :
  (forall q, forallb inline (chars (fmt q)) = true) ->
  forallb inline (chars (format_float fmt x)) = true.
Proof. intros H. destruct x; simpl; auto. Qed.

Lemma inline_str_int (z : Z) : forallb inline (chars (str_int z)) = true.
Proof.
  unfold str_int.
  assert (U : forall d, forallb inline (chars (NilZero.string_of_uint d)) = true).
  { intros d. unfold NilZero.string_of_uint.
    destruct d eqn:E; try reflexivity; rewrite <- E;
      apply inline_digits_string, uint_chars_digits. }
  destruct (Z.to_int z) as [d|d]; simpl; [apply U|].
  now rewrite U.
Qed.

(** ** The annual CSV, written and read back *)

Lemma Qsum_nonneg (xs : list Q) :
  (forall x, In x xs -> (0 <= x)%Q) -> (0 <= Qsum xs)%Q.
Proof.
  induction xs as [|x xs IH]; simpl; intros H; [lra|].
  pose proof (H x (or_introl eq_refl)).
  pose proof (IH (fun y Hy => H y (or_intror Hy))). lra.
Qed.

Lemma round1_nonneg (x : Q) : (0 <= x)%Q -> (0 <= round1 x)%Q.
Proof.
  intros H. unfold round1.
  pose proof (round_half_even_nonneg (x * (10 # 1)) ltac:(lra)) as Hk.
  apply Qle_shift_div_l; [reflexivity|]. rewrite Qmult_0_l.
  change 0%Q with (inject_Z 0). now rewrite <- Zle_Qle.
Qed.

Lemma parse_number_round1 (x : Q) :
  (0 <= x)%Q ->
  exists v, parse_number (format_comma_1f (round1 x)) = Some v
            /\ (v == round1 x)%Q.
Proof.
  intros H.
  destruct (parse_number_format_1f (round1 x) (round1_nonneg x H))
    as (v & Hv & E).
  exists v. split; [exact Hv|]. rewrite E. unfold round1 at 2.
  assert (E10 : (round1 x * (10 # 1)
                 == inject_Z (round_half_even (x * (10 # 1))))%Q)
    by (unfold round1; field).
  now rewrite (round_half_even_comp _ _ E10), round_half_even_Z.
Qed.

Lemma Forall2_map_right {A B : Type} (P : A -> B -> Prop) (g : A -> B)
      (l : list A) :
  (forall x, In x l -> P x (g x)) -> Forall2 P l (map g l).
Proof.
  induction l as [|x l IH]; simpl; intros H; constructor.
  - apply H. now left.
  - apply IH. intros y Hy. apply H. now right.
Qed.

(** What one exported row gives when its numeric fields are read back. *)
Lemma reparse_exported_row (r : year_row) (av : Q) :
  (0 <= yr_liters r)%Q -> 0 <= yr_days r ->
  (0 <= av)%Q -> yr_avg_daily r = Finite (round1 av) ->
  exists l dd a,
    reparse_row
      [str_int (yr_year r);
       format_comma_0f (yr_liters r);
       format_comma_0f (inject_Z (yr_days r));
       format_float format_comma_1f (yr_avg_daily r)]
    = Some (l, dd, a)
    /\ (l == inject_Z (round_half_even (yr_liters r)))%Q
    /\ (dd == inject_Z (yr_days r))%Q
    /\ (a == round1 av)%Q.
Proof.
  intros Hl Hd Hav Ea. unfold reparse_row.
  rewrite (parse_number_format_0f _ Hl).
  assert (Hd' : (0 <= inject_Z (yr_days r))%Q)
    by (change 0%Q with (inject_Z 0); now rewrite <- Zle_Qle).
  rewrite (parse_number_format_0f _ Hd'), round_half_even_Z.
  rewrite Ea. simpl format_float.
  destruct (parse_number_round1 av Hav) as (v & -> & Ev).
  exists (inject_Z (round_half_even (yr_liters r))),
    (inject_Z (yr_days r)), v.
  repeat split; try reflexivity. exact Ev.
Qed.

Lemma annual_csv_read_back (float_repr : Q -> string) (with_cows : bool)
      (rows : list milk) :
  (forall m, In m rows -> (0 <= yield_value m)%Q) ->
  let df := df_year_of with_cows rows in
  exists text body,
    csv_download float_repr (frame_of_df_year with_cows df) = Some text
    /\ parse_csv text
       = ["Year"; "Total Liters"; "Days Milked"; "Avg Daily (L)"]%string
           :: body
    /\ Forall2
         (fun r fields =>
            exists l dd a,
              reparse_row fields = Some (l, dd, a)
              /\ (l == inject_Z (round_half_even (yr_liters r)))%Q
              /\ (Qabs (l - yr_liters r) <= 1 # 2)%Q
              /\ (dd == inject_Z (yr_days r))%Q
              /\ exists av, yr_avg_daily r = Finite av /\ (a == av)%Q)
         df body.
Proof.
  intros Hpos df.
  set (line := fun r : year_row =>
                 [str_int (yr_year r);
                  format_comma_0f (yr_liters r);
                  format_comma_0f (inject_Z (yr_days r));
                  format_float format_comma_1f (yr_avg_daily r)]).
  exists (to_csv float_repr
            {| fr_columns :=
                 ["Year"; "Total Liters"; "Days Milked"; "Avg Daily (L)"]%string;
               fr_rows :=
                 map (fun r =>
                        [CInt (yr_year r);
                         CStr (format_comma_0f (yr_liters r));
                         CStr (format_comma_0f (inject_Z (yr_days r)));
                         CStr (format_float format_comma_1f (yr_avg_daily r))])
                     df |}),
    (map line df).
  split; [|split].
  - unfold csv_download. now rewrite csv_of_df_year.
  - unfold to_csv. cbn [fr_columns fr_rows]. rewrite map_map.
    cbn [map cell_text]. fold line.
    apply (parse_csv_written (_ :: map line df)).
    constructor.
    + split; [discriminate|]. repeat constructor.
    + apply Forall_forall. intros fields Hf. apply in_map_iff in Hf.
      destruct Hf as (r & <- & _). split; [discriminate|].
      unfold line. repeat constructor.
      * apply inline_str_int.
      * apply inline_format_comma_0f.
      * apply inline_format_comma_0f.
      * apply inline_format_float, inline_format_comma_1f.
  - apply Forall2_map_right. intros r Hr.
    destruct (df_year_of_In _ _ _ Hr) as (g & Hg & Hl & _).
    destruct (df_year_of_days_pos _ _ _ Hr) as (Hd & Ha & _).
    assert (Hlpos : (0 <= yr_liters r)%Q).
    { rewrite Hl. apply Qsum_nonneg. intros x Hx.
      unfold yields in Hx. apply in_map_iff in Hx.
      destruct Hx as (m & <- & Hm). apply Hpos.
      apply (GROUP_BY_group_In Z.eq_dec Z.leb record_year _ _ rows m Hg).
      exact Hm. }
    assert (Hq : (0 <= yr_liters r / inject_Z (yr_days r))%Q).
    { apply Qle_shift_div_l.
      - change 0%Q with (inject_Z 0). rewrite <- Zlt_Qlt. lia.
      - now rewrite Qmult_0_l. }
    destruct (reparse_exported_row r _ Hlpos ltac:(lia) Hq Ha)
      as (l & dd & a & E & El & Ed & Eavg).
    unfold line. exists l, dd, a.
    assert (Hnear : (Qabs (l - yr_liters r) <= 1 # 2)%Q)
      by (rewrite El; apply round_half_even_near).
    repeat split; try assumption.
    exists (round1 (yr_liters r / inject_Z (yr_days r))). now split.
Qed.

(** Liters that are not a whole number do not come back from the export:
    20.25 liters are written as 20. *)
Lemma csv_liters_not_reproduced :
  let df := fs_df_year (farm_yield_summary Samples.quarter_liter
                                           Samples.a_day_in_2023 "Hill Farm") in
  map yr_liters df = [81 # 4]
  /\ option_map parse_csv
       (csv_download (fun _ => EmptyString) (frame_of_df_year true df))
     = Some [["Year"; "Total Liters"; "Days Milked"; "Avg Daily (L)"];
             ["2023"; "20"; "1"; "20.2"]]%string
  /\ parse_number "20" = Some (20 # 1)
  /\ ~ (20 # 1 == 81 # 4)%Q.
Proof.
  repeat split; try (vm_compute; reflexivity).
  intros H. vm_compute in H. discriminate.
Qed.

(** C9, amended. For yields that are not negative, the annual table of a
    farm or of an animal is exported without failure as a CSV text whose
    first line holds exactly the four columns Year, Total Liters, Days
    Milked, Avg Daily (L), with no index column, followed by one line per
    year. Read back with the thousands separators stripped, a line gives
    the days exactly, the average exactly as stored (so within 0.05 of it),
    and the liters rounded to the nearest whole number (ties to even),
    which is within 0.5 of the original and equal to it when the liters are
    a whole number. *)
Theorem annual_csv_round_trip (float_repr : Q -> string) (d : db)
        (today : date) :
  (forall m, In m (milk_yield d) -> (0 <= yield_value m)%Q) ->
  (forall farm,
      let df := fs_df_year (farm_yield_summary d today farm) in
      exists text body,
        csv_download float_repr (frame_of_df_year true df) = Some text
        /\ parse_csv text
           = ["Year"; "Total Liters"; "Days Milked"; "Avg Daily (L)"]%string
               :: body
        /\ Forall2
             (fun r fields =>
                exists l dd a,
                  reparse_row fields = Some (l, dd, a)
                  /\ (l == inject_Z (round_half_even (yr_liters r)))%Q
                  /\ (Qabs (l - yr_liters r) <= 1 # 2)%Q
                  /\ (dd == inject_Z (yr_days r))%Q
                  /\ exists av, yr_avg_daily r = Finite av /\ (a == av)%Q)
             df body)
  /\
  (forall tag,
      let df := as_df_year (animal_yield_summary d today tag) in
      exists text body,
        csv_download float_repr (frame_of_df_year false df) = Some text
        /\ parse_csv text
           = ["Year"; "Total Liters"; "Days Milked"; "Avg Daily (L)"]%string
               :: body
        /\ Forall2
             (fun r fields =>
                exists l dd a,
                  reparse_row fields = Some (l, dd, a)
                  /\ (l == inject_Z (round_half_even (yr_liters r)))%Q
                  /\ (Qabs (l - yr_liters r) <= 1 # 2)%Q
                  /\ (dd == inject_Z (yr_days r))%Q
                  /\ exists av, yr_avg_daily r = Finite av /\ (a == av)%Q)
             df body).
Proof.
  intros Hpos. split; intros x.
  - apply (annual_csv_read_back float_repr true (farm_records d x)).
    intros m Hm. apply Hpos. now apply farm_records_In in Hm.
  - apply (annual_csv_read_back float_repr false (animal_records d x)).
    intros m Hm. apply Hpos. now apply animal_records_In in Hm.
Qed.

(* ================================================================== *)
(** * Sums of REAL values                                               *)
(* ================================================================== *)

Section RealSums.
Import Binary64.
Local Open Scope Q_scope.

(** ** Rounding to binary64 *)

Lemma two_neq_0 : ~ 2 == 0.
Proof. discriminate. Qed.

Lemma pow2_pos (e : Z) : 0 < 2 ^ e.
Proof. apply Qpower_0_lt. reflexivity. Qed.

Lemma pow2_succ (e : Z) : 2 ^ (e + 1) == 2 * 2 ^ e.
Proof. rewrite Qpower_plus by exact two_neq_0. rewrite Qpower_1_r. ring. Qed.

Lemma pow2_lt_inv (a b : Z) : 2 ^ a < 2 ^ b -> (a < b)%Z.
Proof. intros H. apply (Qpower_lt_compat_l_inv 2); [exact H|reflexivity]. Qed.

Lemma pow2_le (a b : Z) : (a <= b)%Z -> 2 ^ a <= 2 ^ b.
Proof. intros H. apply Qpower_le_compat_l; [exact H|discriminate]. Qed.

Lemma log2_bounds (n : Z) :
  (0 < n)%Z ->
  2 ^ Z.log2 n <= inject_Z n /\ inject_Z n < 2 * 2 ^ Z.log2 n.
Proof.
  intros Hn. destruct (Z.log2_spec n Hn) as [Hlo Hhi].
  pose proof (Z.log2_nonneg n) as H0.
  change 2 with (inject_Z 2).
  rewrite <- Zpower_Qpower by exact H0. split.
  - now rewrite <- Zle_Qle.
  - rewrite <- inject_Z_mult, <- Zlt_Qlt.
    rewrite Z.pow_succ_r in Hhi by exact H0. exact Hhi.
Qed.

Lemma Qabs_fraction (q : Q) :
  Qabs q * inject_Z (Z.pos (Qden q)) == inject_Z (Z.abs (Qnum q)).
Proof.
  destruct q as [n d]. simpl. unfold Qeq, inject_Z. simpl. lia.
Qed.

Lemma ilogb_spec (q : Q) :
  ~ q == 0 -> 2 ^ ilogb q <= Qabs q /\ Qabs q < 2 ^ (ilogb q + 1).
Proof.
  intros Hq.
  assert (Hn : (0 < Z.abs (Qnum q))%Z).
  { destruct q as [n d]. unfold Qeq in Hq. simpl in *. lia. }
  pose proof (log2_bounds _ Hn) as [Hn1 Hn2].
  pose proof (log2_bounds (Z.pos (Qden q)) eq_refl) as [Hd1 Hd2].
  pose proof (Qabs_fraction q) as E.
  set (a := Z.log2 (Z.abs (Qnum q))) in *.
  set (b := Z.log2 (Z.pos (Qden q))) in *.
  set (N := inject_Z (Z.abs (Qnum q))) in *.
  set (D := inject_Z (Z.pos (Qden q))) in *.
  assert (Eab : 2 ^ a == 2 ^ (a - b) * 2 ^ b).
  { rewrite <- Qpower_plus by exact two_neq_0.
    now replace (a - b + b)%Z with a by lia. }
  pose proof (pow2_pos a) as Pa. pose proof (pow2_pos b) as Pb.
  pose proof (pow2_pos (a - b)) as Pab.
  assert (HD : 0 < D) by reflexivity.
  pose proof (Qabs_nonneg q) as Hq0.
  unfold ilogb. fold a b.
  destruct (Qle_bool (2 ^ (a - b)) (Qabs q)) eqn:T.
  - apply Qle_bool_iff in T. split; [exact T|].
    rewrite pow2_succ.
    apply Qnot_le_lt. intros C.
    assert (H1 : 2 * 2 ^ (a - b) * D <= Qabs q * D).
    { apply Qmult_le_compat_r; [exact C|apply Qlt_le_weak, HD]. }
    assert (H2 : 2 * 2 ^ (a - b) * 2 ^ b <= 2 * 2 ^ (a - b) * D).
    { rewrite !(Qmult_comm (2 * 2 ^ (a - b))).
      apply Qmult_le_compat_r; [exact Hd1|lra]. }
    rewrite E in H1. rewrite <- Qmult_assoc, <- Eab in H2. lra.
  - assert (T' : Qabs q < 2 ^ (a - b)).
    { apply Qnot_le_lt. intros C. apply Qle_bool_iff in C. congruence. }
    replace (a - b - 1 + 1)%Z with (a - b)%Z by lia.
    split; [|exact T'].
    assert (E1 : 2 ^ (a - b) == 2 * 2 ^ (a - b - 1)).
    { rewrite <- pow2_succ.
      now replace (a - b - 1 + 1)%Z with (a - b)%Z by lia. }
    apply Qnot_lt_le. intros C.
    assert (H1 : Qabs q * D <= 2 ^ (a - b - 1) * D).
    { apply Qmult_le_compat_r; [apply Qlt_le_weak, C|apply Qlt_le_weak, HD]. }
    rewrite E in H1.
    assert (E2 : 2 ^ (a - b - 1) * (2 * 2 ^ b) == 2 ^ a).
    { rewrite Eab, E1. ring. }
    assert (H3 : 2 ^ (a - b - 1) * D < 2 ^ (a - b - 1) * (2 * 2 ^ b)).
    { rewrite !(Qmult_comm (2 ^ (a - b - 1))).
      apply Qmult_lt_compat_r; [apply pow2_pos|exact Hd2]. }
    rewrite E2 in H3. lra.
Qed.

Lemma ilogb_unique (q : Q) (e : Z) :
  2 ^ e <= Qabs q -> Qabs q < 2 ^ (e + 1) -> ilogb q = e.
Proof.
  intros Hlo Hhi.
  assert (Hq : ~ q == 0).
  { intros E. rewrite E in Hlo. pose proof (pow2_pos e).
    change (Qabs 0) with 0 in Hlo. lra. }
  destruct (ilogb_spec q Hq) as [Ilo Ihi].
  assert (H1 : (e < ilogb q + 1)%Z).
  { apply pow2_lt_inv. eapply Qle_lt_trans; eassumption. }
  assert (H2 : (ilogb q < e + 1)%Z).
  { apply pow2_lt_inv. eapply Qle_lt_trans; eassumption. }
  lia.
Qed.

Lemma ilogb_comp (q q' : Q) : q == q' -> ~ q == 0 -> ilogb q = ilogb q'.
Proof.
  intros E Hq. symmetry.
  destruct (ilogb_spec q Hq) as [Ilo Ihi].
  apply ilogb_unique; now rewrite <- E.
Qed.

Lemma round64_comp (q q' : Q) : q == q' -> round64 q == round64 q'.
Proof.
  intros E. unfold round64.
  destruct (Qeq_bool q 0) eqn:Z0.
  - apply Qeq_bool_iff in Z0.
    assert (Z1 : Qeq_bool q' 0 = true).
    { apply Qeq_bool_iff. now rewrite <- E. }
    rewrite Z1. reflexivity.
  - assert (Hq : ~ q == 0).
    { intros C. apply Qeq_bool_iff in C. congruence. }
    assert (Z1 : Qeq_bool q' 0 = false).
    { destruct (Qeq_bool q' 0) eqn:C; [|reflexivity].
      apply Qeq_bool_iff in C. rewrite <- E in C. contradiction. }
    rewrite Z1. unfold ulp. rewrite <- (ilogb_comp q q' E Hq).
    assert (E' : q / 2 ^ (ilogb q - 52) == q' / 2 ^ (ilogb q - 52))
      by (apply Qdiv_comp; [exact E|reflexivity]).
    now rewrite (round_half_even_comp _ _ E').
Qed.

Lemma ulp_pos (q : Q) : 0 < ulp q.
Proof. apply pow2_pos. Qed.

Lemma ulp_binade (q : Q) : ulp q * inject_Z (2 ^ 52) == 2 ^ ilogb q.
Proof.
  unfold ulp. rewrite (Zpower_Qpower 2 52) by lia.
  change (inject_Z 2) with 2.
  rewrite <- Qpower_plus by exact two_neq_0.
  now replace (ilogb q - 52 + 52)%Z with (ilogb q) by lia.
Qed.

(** The rounding error is at most half a unit in the last place, hence at
    most 2^-53 of the number. *)
Lemma round64_error (q : Q) :
  Qabs (round64 q - q) <= Qabs q * (1 # 2 ^ 53).
Proof.
  unfold round64. destruct (Qeq_bool q 0) eqn:Z0.
  - apply Qeq_bool_iff in Z0. rewrite Z0. vm_compute. discriminate.
  - assert (Hq : ~ q == 0).
    { intros C. apply Qeq_bool_iff in C. congruence. }
    destruct (ilogb_spec q Hq) as [Ilo _].
    pose proof (ulp_pos q) as Hu. pose proof (ulp_binade q) as Eu.
    pose proof (round_half_even_near (q / ulp q)) as Hr.
    set (u := ulp q) in *. set (m := inject_Z (round_half_even (q / u))) in *.
    assert (Eq : q == q / u * u) by (field; lra).
    assert (Ed : m * u - q == (m - q / u) * u).
    { rewrite Eq at 1. ring. }
    rewrite Ed, Qabs_Qmult, (Qabs_pos u) by lra.
    rewrite <- Eu in Ilo.
    change (inject_Z (2 ^ 52)) with (4503599627370496 # 1) in Ilo.
    change (1 # 2 ^ 53) with (1 # 9007199254740992).
    assert (H1 : Qabs (m - q / u) * u <= (1 # 2) * u).
    { apply Qmult_le_compat_r; [exact Hr|lra]. }
    lra.
Qed.

(** A number with a significand below 2^53 is a binary64 number. *)
Lemma round64_exact (q : Q) (n k : Z) :
  q == inject_Z n * 2 ^ k -> (Z.abs n < 2 ^ 53)%Z -> round64 q == q.
Proof.
  intros E Hn. unfold round64. destruct (Qeq_bool q 0) eqn:Z0.
  - apply Qeq_bool_iff in Z0. now rewrite Z0.
  - assert (Hq : ~ q == 0).
    { intros C. apply Qeq_bool_iff in C. congruence. }
    destruct (ilogb_spec q Hq) as [Ilo _].
    pose proof (pow2_pos k) as Pk.
    assert (Habs : Qabs q == inject_Z (Z.abs n) * 2 ^ k).
    { rewrite E, Qabs_Qmult, (Qabs_pos (2 ^ k)) by lra.
      apply Qmult_comp; [|reflexivity].
      unfold inject_Z. now rewrite <- Zabs_Qabs. }
    assert (Hlt : 2 ^ ilogb q < 2 ^ (53 + k)).
    { eapply Qle_lt_trans; [exact Ilo|]. rewrite Habs.
      rewrite Qpower_plus by exact two_neq_0.
      apply Qmult_lt_compat_r; [exact Pk|].
      rewrite <- (Zpower_Qpower 2 53) by lia.
      now rewrite <- Zlt_Qlt. }
    apply pow2_lt_inv in Hlt.
    set (j := (k - (ilogb q - 52))%Z).
    assert (Hj : (0 <= j)%Z) by (unfold j; lia).
    assert (Ek : 2 ^ k == inject_Z (2 ^ j) * ulp q).
    { unfold ulp. rewrite (Zpower_Qpower 2 j) by exact Hj.
      change (inject_Z 2) with 2.
      rewrite <- Qpower_plus by exact two_neq_0.
      now replace (j + (ilogb q - 52))%Z with k by (unfold j; lia). }
    pose proof (ulp_pos q) as Hu.
    set (u := ulp q) in *.
    assert (Ed : q / u == inject_Z (n * 2 ^ j)).
    { rewrite E, Ek, inject_Z_mult. field. lra. }
    rewrite (round_half_even_comp _ _ Ed), round_half_even_Z.
    rewrite E, Ek, inject_Z_mult. ring.
Qed.

Lemma fold_add_comp (l : list Q) :
  forall a a', a == a' -> fold_left add l a == fold_left add l a'.
Proof.
  induction l as [|x l IH]; intros a a' E; simpl; [exact E|].
  apply IH. unfold add. apply round64_comp. now rewrite E.
Qed.

(** One more addition widens the relative error of the accumulator by at
    most 2^-52, as long as the error is below 1. *)
Lemma add_error (a A x eps : Q) :
  0 <= A -> 0 <= x -> 0 <= eps <= 1 ->
  Qabs (a - A) <= eps * A ->
  Qabs (add a x - (A + x)) <= (eps + (1 # 2 ^ 52)) * (A + x).
Proof.
  intros HA Hx [He0 He1] Ha.
  pose proof (round64_error (a + x)) as Hr. unfold add.
  set (r := round64 (a + x)) in *.
  change (1 # 2 ^ 53) with (1 # 9007199254740992) in Hr.
  change (1 # 2 ^ 52) with (1 # 4503599627370496).
  assert (T1 : 0 <= eps * A) by now apply Qmult_le_0_compat.
  assert (T2 : 0 <= eps * x) by now apply Qmult_le_0_compat.
  assert (T3 : eps * A <= A).
  { rewrite <- (Qmult_1_l A) at 2. now apply Qmult_le_compat_r. }
  assert (E : (eps + (1 # 4503599627370496)) * (A + x)
              == eps * A + eps * x + (1 # 4503599627370496) * (A + x))
    by ring.
  rewrite E. clear E.
  set (t1 := eps * A) in *. set (t2 := eps * x) in *.
  apply Qabs_Qle_condition in Ha. destruct Ha as [Ha1 Ha2].
  assert (Hax : Qabs (a + x) <= 2 * (A + x)).
  { apply Qabs_Qle_condition. split; lra. }
  apply Qabs_Qle_condition in Hr. destruct Hr as [Hr1 Hr2].
  apply Qabs_Qle_condition. split; lra.
Qed.

Lemma fold_add_error (l : list Q) :
  (forall y, In y l -> 0 <= y) ->
  forall a A eps,
    0 <= A -> 0 <= eps ->
    eps + inject_Z (Z.of_nat (length l)) * (1 # 2 ^ 52) <= 1 ->
    Qabs (a - A) <= eps * A ->
    Qabs (fold_left add l a - (A + Qsum l))
    <= (eps + inject_Z (Z.of_nat (length l)) * (1 # 2 ^ 52)) * (A + Qsum l).
Proof.
  induction l as [|x l IH]; intros Hl a A eps HA He Hn Ha.
  - cbn [fold_left length Qsum fold_right Z.of_nat].
    assert (E1 : A + 0 == A) by ring.
    assert (E2 : eps + inject_Z 0 * (1 # 2 ^ 52) == eps) by ring.
    now rewrite E1, E2.
  - cbn [fold_left length Qsum fold_right] in *. fold (Qsum l).
    rewrite Nat2Z.inj_succ, <- Z.add_1_r, inject_Z_plus in *.
    change (inject_Z 1) with 1 in *.
    assert (Hx : 0 <= x) by (apply Hl; now left).
    assert (Hk : 0 <= inject_Z (Z.of_nat (length l))).
    { change 0 with (inject_Z 0). rewrite <- Zle_Qle. lia. }
    set (k := inject_Z (Z.of_nat (length l))) in *.
    change (1 # 2 ^ 52) with (1 # 4503599627370496) in *.
    assert (He1 : eps <= 1) by lra.
    pose proof (add_error a A x eps HA Hx (conj He He1) Ha) as Hstep.
    change (1 # 2 ^ 52) with (1 # 4503599627370496) in Hstep.
    assert (HA' : 0 <= A + x) by lra.
    assert (He' : 0 <= eps + (1 # 4503599627370496)) by lra.
    assert (Hn' : eps + (1 # 4503599627370496)
                  + k * (1 # 4503599627370496) <= 1) by lra.
    pose proof (IH (fun y Hy => Hl y (or_intror Hy)) (add a x) (A + x)
                   (eps + (1 # 4503599627370496)) HA' He' Hn' Hstep) as H.
    assert (E1 : A + (x + Qsum l) == A + x + Qsum l) by ring.
    assert (E2 : eps + (k + 1) * (1 # 4503599627370496)
                 == eps + (1 # 4503599627370496)
                    + k * (1 # 4503599627370496)) by ring.
    now rewrite E1, E2.
Qed.

(** The accumulated sum of non-negative REALs is within 2^-52 per row of
    the exact sum. *)
Lemma sum64_error (l : list Q) :
  (forall y, In y l -> 0 <= y) ->
  (Z.of_nat (length l) <= 2 ^ 52)%Z ->
  Qabs (sum64 l - Qsum l)
  <= inject_Z (Z.of_nat (length l)) * (1 # 2 ^ 52) * Qsum l.
Proof.
  intros Hl Hn. unfold sum64.
  assert (Hk : inject_Z (Z.of_nat (length l)) * (1 # 2 ^ 52) <= 1).
  { rewrite Zle_Qle in Hn.
    change (inject_Z (2 ^ 52)) with (4503599627370496 # 1) in Hn.
    change (1 # 2 ^ 52) with (1 # 4503599627370496). lra. }
  pose proof (fold_add_error l Hl 0 0 0 (Qle_refl 0) (Qle_refl 0)) as H.
  assert (E0 : 0 + inject_Z (Z.of_nat (length l)) * (1 # 2 ^ 52)
               == inject_Z (Z.of_nat (length l)) * (1 # 2 ^ 52)) by ring.
  assert (E1 : 0 + Qsum l == Qsum l) by ring.
  rewrite E0, E1 in H. apply H; [exact Hk|].
  vm_compute. discriminate.
Qed.

Lemma whole_iff (q : Q) : whole q = true <-> q == inject_Z (Qfloor q).
Proof.
  unfold whole. rewrite Qeq_bool_iff. split; intros H; now symmetry.
Qed.

Lemma whole_plus (p q : Q) :
  whole p = true -> whole q = true -> whole (p + q) = true.
Proof.
  rewrite !whole_iff. intros Hp Hq.
  assert (E : p + q == inject_Z (Qfloor p + Qfloor q)).
  { rewrite inject_Z_plus, <- Hp, <- Hq. reflexivity. }
  rewrite (Qfloor_comp _ _ E), Qfloor_Z. exact E.
Qed.

(** A non-negative whole number of units 2^-k, below 2^53 units, is a
    binary64 number. *)
Lemma round64_grid (k : Z) (q : Q) :
  0 <= q -> whole (q * 2 ^ k) = true -> q * 2 ^ k < inject_Z (2 ^ 53) ->
  round64 q == q.
Proof.
  intros H0 Hw Hlt. apply whole_iff in Hw.
  pose proof (pow2_pos k) as Pk.
  set (n := Qfloor (q * 2 ^ k)) in *.
  assert (Hn0 : (0 <= n)%Z).
  { unfold n. change 0%Z with (Qfloor 0). apply Qfloor_resp_le.
    apply Qmult_le_0_compat; lra. }
  apply (round64_exact q n (- k)).
  - rewrite Qpower_opp, <- Hw. field. lra.
  - rewrite Hw, <- Zlt_Qlt in Hlt. lia.
Qed.

Lemma fold_add_exact (k : Z) (l : list Q) :
  (forall y, In y l -> 0 <= y /\ whole (y * 2 ^ k) = true) ->
  forall a,
    0 <= a -> whole (a * 2 ^ k) = true ->
    (a + Qsum l) * 2 ^ k < inject_Z (2 ^ 53) ->
    fold_left add l a == a + Qsum l.
Proof.
  pose proof (pow2_pos k) as Pk.
  induction l as [|x l IH]; intros Hl a Ha Hw Hlt.
  - simpl. ring.
  - cbn [fold_left Qsum fold_right] in *. fold (Qsum l) in *.
    destruct (Hl x (or_introl eq_refl)) as [Hx Hwx].
    assert (Hs : 0 <= Qsum l).
    { apply Qsum_nonneg. intros y Hy. apply (Hl y). now right. }
    assert (Hw' : whole ((a + x) * 2 ^ k) = true).
    { assert (E : (a + x) * 2 ^ k == a * 2 ^ k + x * 2 ^ k) by ring.
      apply whole_iff. rewrite (Qfloor_comp _ _ E), E. apply whole_iff.
      now apply whole_plus. }
    assert (Hlt' : (a + x) * 2 ^ k < inject_Z (2 ^ 53)).
    { eapply Qle_lt_trans; [|exact Hlt].
      apply Qmult_le_compat_r; lra. }
    assert (Ex : add a x == a + x).
    { unfold add. apply (round64_grid k); [lra|exact Hw'|exact Hlt']. }
    rewrite (fold_add_comp l _ _ Ex).
    rewrite IH.
    + ring.
    + intros y Hy. apply Hl. now right.
    + lra.
    + exact Hw'.
    + eapply Qle_lt_trans; [|exact Hlt]. apply Qmult_le_compat_r; lra.
Qed.

(** Where every value is a non-negative whole number of units 2^-k and the
    exact sum stays below 2^53 units, no addition rounds. *)
Lemma sum64_exact (k : Z) (l : list Q) :
  (forall y, In y l -> 0 <= y /\ whole (y * 2 ^ k) = true) ->
  Qsum l * 2 ^ k < inject_Z (2 ^ 53) ->
  sum64 l == Qsum l.
Proof.
  intros Hl Hlt. unfold sum64.
  rewrite (fold_add_exact k l Hl 0).
  - ring.
  - apply Qle_refl.
  - reflexivity.
  - assert (E : (0 + Qsum l) * 2 ^ k == Qsum l * 2 ^ k) by ring.
    now rewrite E.
Qed.

Lemma total_liters_sum64 (rows : list milk) :
  Binary64.total_liters rows = sum64 (yields rows).
Proof.
  unfold Binary64.total_liters, Binary64.SUM.
  destruct (yields rows); reflexivity.
Qed.

Lemma Qsum_map_error {A : Type} (f h : A -> Q) (c : Q) (l : list A) :
  (forall a, In a l -> Qabs (f a - h a) <= c * h a) ->
  Qabs (Qsum (map f l) - Qsum (map h l)) <= c * Qsum (map h l).
Proof.
  induction l as [|a l IH]; intros H.
  - simpl. rewrite Qmult_0_r. vm_compute. discriminate.
  - cbn [map Qsum fold_right]. fold (Qsum (map f l)) (Qsum (map h l)).
    pose proof (H a (or_introl eq_refl)) as Ha.
    pose proof (IH (fun b Hb => H b (or_intror Hb))) as Hl.
    assert (E : c * (h a + Qsum (map h l)) == c * h a + c * Qsum (map h l))
      by ring.
    rewrite E. clear E.
    set (t1 := c * h a) in *. set (t2 := c * Qsum (map h l)) in *.
    apply Qabs_Qle_condition in Ha. apply Qabs_Qle_condition in Hl.
    apply Qabs_Qle_condition. destruct Ha, Hl. split; lra.
Qed.

Lemma whole_Qsum (s : Q) (l : list Q) :
  (forall y, In y l -> whole (y * s) = true) -> whole (Qsum l * s) = true.
Proof.
  induction l as [|x l IH]; intros H.
  - simpl. apply whole_iff.
    assert (E : 0 * s == inject_Z 0) by ring.
    now rewrite (Qfloor_comp _ _ E), Qfloor_Z.
  - cbn [Qsum fold_right]. fold (Qsum l).
    assert (E : (x + Qsum l) * s == x * s + Qsum l * s) by ring.
    apply whole_iff. rewrite (Qfloor_comp _ _ E), E. apply whole_iff.
    apply whole_plus; [apply H; now left|].
    apply IH. intros y Hy. apply H. now right.
Qed.


Lemma Qsum_concat (parts : list (list Q)) :
  Qsum (concat parts) == Qsum (map Qsum parts).
Proof.
  induction parts as [|p parts IH]; simpl; [reflexivity|].
  now rewrite Qsum_app, IH.
Qed.

Lemma length_part_le {A : Type} (p : list A) (parts : list (list A)) :
  In p parts -> (length p <= length (concat parts))%nat.
Proof.
  induction parts as [|q parts IH]; simpl; [tauto|].
  rewrite length_app. intros [->|H]; [lia|]. apply IH in H. lia.
Qed.

Lemma Qsum_part_le (p : list Q) (parts : list (list Q)) :
  (forall y, In y (concat parts) -> 0 <= y) ->
  In p parts -> Qsum p <= Qsum (concat parts).
Proof.
  induction parts as [|q parts IH]; simpl; [tauto|].
  intros Hpos Hin. rewrite Qsum_app.
  assert (H1 : 0 <= Qsum q).
  { apply Qsum_nonneg. intros y Hy. apply Hpos, in_or_app. now left. }
  assert (H2 : 0 <= Qsum (concat parts)).
  { apply Qsum_nonneg. intros y Hy. apply Hpos, in_or_app. now right. }
  destruct Hin as [->|Hin]; [lra|].
  assert (H3 : Qsum p <= Qsum (concat parts)).
  { apply IH; [|exact Hin]. intros y Hy. apply Hpos, in_or_app. now right. }
  lra.
Qed.

(** Rows summed in parts and rows summed at once: the sums of the parts
    add up to the sum of all rows within 2^-51 per row. *)
Lemma sum64_parts_error (parts : list (list Q)) (ys : list Q) :
  Permutation (concat parts) ys ->
  (forall y, In y ys -> 0 <= y) ->
  (Z.of_nat (length ys) <= 2 ^ 52)%Z ->
  Qabs (Qsum (map sum64 parts) - sum64 ys)
  <= inject_Z (Z.of_nat (length ys)) * (1 # 2 ^ 51) * Qsum ys.
Proof.
  intros Hperm Hpos Hn.
  set (c := inject_Z (Z.of_nat (length ys)) * (1 # 2 ^ 52)).
  assert (Hc : 0 <= c).
  { unfold c. apply Qmult_le_0_compat; [|discriminate].
    change 0 with (inject_Z 0). rewrite <- Zle_Qle. lia. }
  assert (Hparts : Qabs (Qsum (map sum64 parts) - Qsum (map Qsum parts))
                   <= c * Qsum (map Qsum parts)).
  { apply Qsum_map_error. intros p Hp.
    assert (Hp0 : forall y, In y p -> 0 <= y).
    { intros y Hy. apply Hpos, (Permutation_in _ Hperm), in_concat.
      exists p. now split. }
    assert (Hlen : (length p <= length ys)%nat).
    { rewrite <- (Permutation_length Hperm). now apply length_part_le. }
    eapply Qle_trans; [apply sum64_error; [exact Hp0|lia]|].
    apply Qmult_le_compat_r; [|now apply Qsum_nonneg].
    unfold c. apply Qmult_le_compat_r; [|discriminate].
    rewrite <- Zle_Qle. lia. }
  pose proof (sum64_error ys Hpos Hn) as Hall. fold c in Hall.
  assert (E : Qsum (map Qsum parts) == Qsum ys).
  { rewrite <- Qsum_concat. now apply Qsum_Permutation. }
  rewrite E in Hparts.
  assert (E2 : inject_Z (Z.of_nat (length ys)) * (1 # 2 ^ 51) * Qsum ys
               == c * Qsum ys + c * Qsum ys).
  { unfold c. change (1 # 2 ^ 51) with (1 # 2251799813685248).
    change (1 # 2 ^ 52) with (1 # 4503599627370496). ring. }
  rewrite E2. set (t := c * Qsum ys) in *.
  apply Qabs_Qle_condition in Hparts. apply Qabs_Qle_condition in Hall.
  apply Qabs_Qle_condition. destruct Hparts, Hall. split; lra.
Qed.

(** Where every value is a non-negative whole number of units 2^-k and all
    rows together stay below 2^53 units, the sums of the parts add up to
    the sum of all rows exactly, whether added exactly or in binary64. *)
Lemma sum64_parts_exact (k : Z) (parts : list (list Q)) (ys : list Q) :
  Permutation (concat parts) ys ->
  (forall y, In y ys -> 0 <= y /\ whole (y * 2 ^ k) = true) ->
  Qsum ys * 2 ^ k < inject_Z (2 ^ 53) ->
  Qsum (map sum64 parts) == sum64 ys
  /\ sum64 (map sum64 parts) == sum64 ys
  /\ sum64 ys == Qsum ys.
Proof.
  intros Hperm Hgrid Hlt.
  pose proof (pow2_pos k) as Pk.
  assert (Hall : sum64 ys == Qsum ys) by now apply (sum64_exact k).
  assert (Hpos : forall y, In y (concat parts) -> 0 <= y).
  { intros y Hy. now apply Hgrid, (Permutation_in _ Hperm). }
  assert (Hpart : forall p, In p parts -> sum64 p == Qsum p).
  { intros p Hp. apply (sum64_exact k).
    - intros y Hy. apply Hgrid, (Permutation_in _ Hperm), in_concat.
      exists p. now split.
    - eapply Qle_lt_trans; [|exact Hlt].
      apply Qmult_le_compat_r; [|lra].
      rewrite <- (Qsum_Permutation _ _ Hperm). now apply Qsum_part_le. }
  assert (E : Qsum (map sum64 parts) == Qsum ys).
  { rewrite <- (Qsum_Permutation _ _ Hperm), Qsum_concat.
    clear - Hpart. induction parts as [|p parts IH]; simpl; [reflexivity|].
    rewrite (Hpart p (or_introl eq_refl)).
    now rewrite (IH (fun q Hq => Hpart q (or_intror Hq))). }
  split; [now rewrite E, Hall|]. split; [|exact Hall].
  rewrite Hall, <- E. apply (sum64_exact k).
  - intros y Hy. apply in_map_iff in Hy. destruct Hy as (p & <- & Hp).
    assert (Hp0 : forall z, In z p -> 0 <= z /\ whole (z * 2 ^ k) = true).
    { intros z Hz. apply Hgrid, (Permutation_in _ Hperm), in_concat.
      exists p. now split. }
    assert (Ep : sum64 p * 2 ^ k == Qsum p * 2 ^ k)
      by now rewrite (Hpart p Hp).
    split.
    + rewrite (Hpart p Hp). apply Qsum_nonneg. intros z Hz. now apply Hp0.
    + apply whole_iff. rewrite (Qfloor_comp _ _ Ep), Ep. apply whole_iff.
      apply whole_Qsum. intros z Hz. now apply Hp0.
  - now rewrite E.
Qed.

Lemma yields_nonneg (rows : list milk) :
  (forall m, In m rows -> 0 <= yield_value m) ->
  forall y, In y (yields rows) -> 0 <= y.
Proof.
  intros H y Hy. apply in_map_iff in Hy. destruct Hy as (m & <- & Hm). auto.
Qed.

Lemma yields_on_grid (k : Z) (rows : list milk) :
  (forall m, In m rows ->
             0 <= yield_value m /\ whole (yield_value m * 2 ^ k) = true) ->
  forall y, In y (yields rows) -> 0 <= y /\ whole (y * 2 ^ k) = true.
Proof.
  intros H y Hy. apply in_map_iff in Hy. destruct Hy as (m & <- & Hm). auto.
Qed.

Lemma COUNT_yields (rows : list milk) :
  COUNT rows = Z.of_nat (length (yields rows)).
Proof. unfold COUNT, yields. now rewrite length_map. Qed.

Lemma yields_flat_map {A : Type} (f : A -> list milk) (l : list A) :
  concat (map (fun a => yields (f a)) l) = yields (flat_map f l).
Proof.
  unfold yields. induction l as [|a l IH]; simpl; [reflexivity|].
  now rewrite map_app, IH.
Qed.

Lemma annual_liters_parts (rows : list milk) :
  map snd (Binary64.annual_liters rows)
  = map sum64 (map (fun g => yields (snd g))
                   (GROUP_BY Z.eq_dec Z.leb record_year rows))
  /\ Permutation
       (concat (map (fun g => yields (snd g))
                    (GROUP_BY Z.eq_dec Z.leb record_year rows)))
       (yields rows).
Proof.
  split.
  - unfold Binary64.annual_liters. now rewrite !map_map.
  - rewrite (yields_flat_map snd). apply Permutation_map, GROUP_BY_partition.
Qed.

Lemma annual_liters_In (rows : list milk) (r : Z * Q) :
  In r (Binary64.annual_liters rows) ->
  snd r = sum64 (yields (filter (fun m => (record_year m =? fst r)%Z) rows)).
Proof.
  unfold Binary64.annual_liters. rewrite in_map_iff.
  intros ([k g] & <- & Hg). apply GROUP_BY_In in Hg.
  destruct Hg as [_ ->]. simpl. do 2 f_equal. apply filter_ext.
  intros m. unfold has_key.
  destruct (Z.eq_dec (record_year m) k);
    destruct (Z.eqb_spec (record_year m) k); congruence.
Qed.

Lemma annual_liters_years (rows : list milk) :
  map fst (Binary64.annual_liters rows)
  = ORDER_BY Z.leb (nodup Z.eq_dec (map record_year rows)).
Proof.
  unfold Binary64.annual_liters. rewrite map_map. simpl.
  apply (GROUP_BY_keys Z.eq_dec Z.leb record_year rows).
Qed.

(** The exact total of [Dashboard] and the binary64 total: within 2^-52
    of the exact total per row, and equal on a grid of units 2^-k. *)
Lemma total_liters_near_exact (rows : list milk) :
  ((forall m, In m rows -> 0 <= yield_value m) ->
   (COUNT rows <= 2 ^ 52)%Z ->
   Qabs (Binary64.total_liters rows - Dashboard.total_liters rows)
   <= inject_Z (COUNT rows) * (1 # 2 ^ 52) * Dashboard.total_liters rows)
  /\ (forall k : Z,
         (forall m, In m rows ->
                    0 <= yield_value m
                    /\ whole (yield_value m * 2 ^ k) = true) ->
         Dashboard.total_liters rows * 2 ^ k < inject_Z (2 ^ 53) ->
         Binary64.total_liters rows == Dashboard.total_liters rows).
Proof.
  rewrite total_liters_sum64. split.
  - intros Hpos Hn. rewrite total_liters_Qsum, COUNT_yields in *.
    apply sum64_error; [now apply yields_nonneg|exact Hn].
  - intros k Hgrid Hlt. rewrite total_liters_Qsum in *.
    apply (sum64_exact k); [now apply yields_on_grid|exact Hlt].
Qed.

(** C2, amended. For every farm, grouping by record_year partitions the
    farm's records: the years of the annual table are pairwise distinct,
    every record has its year in the table, and a year's liters are the
    binary64 sum over exactly the farm's records of that year. The per-year
    liters add up to the farm's total liters up to the rounding of the
    binary64 additions: with yields not negative (and at most 2^52 records)
    the two differ by at most 2^-51 of the exact total per record; and they
    are equal, and equal to the exact total, where every yield is a whole
    number of units 2^-k litres and the total stays below 2^53 units. *)
Theorem annual_liters_add_up_to_rounding (d : db) (farm : string) :
  let rows := farm_records d farm in
  let annual := Binary64.annual_liters rows in
  let total := Binary64.total_liters rows in
  NoDup (map fst annual)
  /\ (forall m, In m rows -> In (record_year m) (map fst annual))
  /\ (forall r, In r annual ->
                snd r
                = sum64 (yields (filter
                                   (fun m => (record_year m =? fst r)%Z)
                                   rows)))
  /\ ((forall m, In m rows -> 0 <= yield_value m) ->
      (COUNT rows <= 2 ^ 52)%Z ->
      Qabs (Qsum (map snd annual) - total)
      <= inject_Z (COUNT rows) * (1 # 2 ^ 51) * Qsum (yields rows))
  /\ (forall k : Z,
         (forall m, In m rows ->
                    0 <= yield_value m
                    /\ whole (yield_value m * 2 ^ k) = true) ->
         Qsum (yields rows) * 2 ^ k < inject_Z (2 ^ 53) ->
         Qsum (map snd annual) == total
         /\ sum64 (map snd annual) == total
         /\ total == Qsum (yields rows)).
Proof.
  intros rows annual total.
  destruct (annual_liters_parts rows) as [Eparts Hperm].
  unfold annual, total. rewrite total_liters_sum64, Eparts.
  split; [|split; [|split; [|split]]].
  - rewrite annual_liters_years. apply ORDER_BY_NoDup, NoDup_nodup.
  - intros m Hm. rewrite annual_liters_years.
    apply ORDER_BY_In, nodup_In. now apply in_map.
  - apply annual_liters_In.
  - intros Hpos Hn. rewrite COUNT_yields in *.
    apply sum64_parts_error; [exact Hperm|now apply yields_nonneg|exact Hn].
  - intros k Hgrid Hlt.
    apply (sum64_parts_exact k); [exact Hperm|now apply yields_on_grid|exact Hlt].
Qed.

(** C10, amended. With ear tags unique in [animals], the farm's records are
    the records of the animals [load_animals] returns for the farm put
    together, each once; the animals listed have pairwise distinct ear
    tags, and a record belongs to the records of at most one ear tag. The
    animal totals add up to the farm's total liters up to the rounding of
    the binary64 additions: with yields not negative (and at most 2^52
    records) the two differ by at most 2^-51 of the exact total per record;
    and they are equal, and equal to the exact total, where every yield is
    a whole number of units 2^-k litres and the total stays below 2^53
    units. *)
Theorem farm_total_and_animal_totals (d : db) (farm : string) :
  NoDup (map a_ear_tag (animals d)) ->
  let rows := farm_records d farm in
  let cows := load_animals d farm in
  let per_animal :=
    map (fun a => Binary64.total_liters (animal_records d (fst a))) cows in
  let total := Binary64.total_liters rows in
  Permutation rows (flat_map (fun a => animal_records d (fst a)) cows)
  /\ NoDup (map fst cows)
  /\ (forall m t1 t2,
         In m (animal_records d t1) -> In m (animal_records d t2) -> t1 = t2)
  /\ ((forall m, In m rows -> 0 <= yield_value m) ->
      (COUNT rows <= 2 ^ 52)%Z ->
      Qabs (Qsum per_animal - total)
      <= inject_Z (COUNT rows) * (1 # 2 ^ 51) * Qsum (yields rows))
  /\ (forall k : Z,
         (forall m, In m rows ->
                    0 <= yield_value m
                    /\ whole (yield_value m * 2 ^ k) = true) ->
         Qsum (yields rows) * 2 ^ k < inject_Z (2 ^ 53) ->
         Qsum per_animal == total
         /\ sum64 per_animal == total
         /\ total == Qsum (yields rows)).
Proof.
  intros Huniq rows cows per_animal total.
  assert (Eparts : per_animal
                   = map sum64 (map (fun a => yields (animal_records d (fst a)))
                                    cows)).
  { unfold per_animal. rewrite map_map. apply map_ext. intros a.
    apply total_liters_sum64. }
  assert (Hperm : Permutation
                    (concat (map (fun a => yields (animal_records d (fst a)))
                                 cows))
                    (yields rows)).
  { rewrite (yields_flat_map (fun a => animal_records d (fst a))).
    apply Permutation_map, Permutation_sym, farm_records_by_animal. }
  unfold total. rewrite total_liters_sum64, Eparts.
  split; [|split; [|split; [|split]]].
  - apply farm_records_by_animal.
  - apply (Permutation_NoDup (Permutation_sym (load_animals_tags d farm))).
    now apply NoDup_map_filter.
  - intros m t1 t2 H1 H2. unfold animal_records in *.
    apply filter_In in H1, H2. destruct H1 as [_ H1], H2 as [_ H2].
    apply String.eqb_eq in H1, H2. congruence.
  - intros Hpos Hn. rewrite COUNT_yields in *.
    apply sum64_parts_error; [exact Hperm|now apply yields_nonneg|exact Hn].
  - intros k Hgrid Hlt.
    apply (sum64_parts_exact k); [exact Hperm|now apply yields_on_grid|exact Hlt].
Qed.

End RealSums.

(* ================================================================== *)
(** * The properties on the sample stores                               *)
(* ================================================================== *)

Local Open Scope string_scope.

(** Testable property 7 of the specification: Green Pastures, T001. *)
Example green_pastures_scenario :
  let s := animal_yield_summary Samples.green_pastures
                                Samples.a_day_in_2023 "T001" in
  as_total s = (53 # 1)%Q
  /\ as_days s = 2
  /\ as_df_year s
     = [{| yr_year := 2023; yr_liters := 53 # 1; yr_days := 2;
           yr_cows := None; yr_avg_daily := Finite (265 # 10) |}].
Proof. vm_compute. repeat split; reflexivity. Qed.

Example toordinal_epoch : toordinal (mkdate 1970 1 1) = 719163.
Proof. reflexivity. Qed.

Example since_of_a_day_in_2024 :
  since Samples.a_day_in_2024 = mkdate 2023 6 16.
Proof. vm_compute. reflexivity. Qed.


Lemma green_pastures_dates_valid (m : milk) :
  In m (milk_yield Samples.green_pastures) ->
  valid_date (record_date m) = true.
Proof.
  simpl. intros [<-|[<-|[<-|[]]]]; reflexivity.
Qed.

Lemma trend_months_since_lower_bound_witness :
  (forall farm mo,
      In mo (map t_month
                 (fs_df_12mo (farm_yield_summary Samples.green_pastures
                                Samples.a_day_in_2023 farm))) <->
      exists m, In m (farm_records Samples.green_pastures farm)
                /\ record_month m = mo
                /\ toordinal Samples.a_day_in_2023 - 365
                   <= toordinal (record_date m))
  /\
  (forall tag mo,
      In mo (map t_month
                 (as_df_12mo (animal_yield_summary Samples.green_pastures
                                Samples.a_day_in_2023 tag))) <->
      exists m, In m (animal_records Samples.green_pastures tag)
                /\ record_month m = mo
                /\ toordinal Samples.a_day_in_2023 - 365
                   <= toordinal (record_date m)).
Proof.
  apply (trend_months_since_lower_bound Samples.green_pastures
                                        Samples.a_day_in_2023).
  - reflexivity.
  - simpl. lia.
  - exact green_pastures_dates_valid.
Defined.


Lemma empty_scope_zero_totals_witness :
  let s := farm_yield_summary Samples.green_pastures Samples.a_day_in_2023
                              "Dry Creek" in
  fs_total s = (0 # 1)%Q /\ fs_days s = 0
  /\ fs_df_year s = [] /\ fs_df_12mo s = [].
Proof.
  apply (proj1 (empty_scope_zero_totals Samples.green_pastures
                                        Samples.a_day_in_2023)
               "Dry Creek").
  reflexivity.
Defined.

Lemma animal_duration_covers_days_witness :
  let s := animal_yield_summary Samples.green_pastures
                                Samples.a_day_in_2023 "T001" in
  let ds := dates (animal_records Samples.green_pastures "T001") in
  (ds = [] -> as_duration s = as_days s /\ as_days s = 0)
  /\ as_days s <= as_duration s
  /\ (ds <> [] ->
      exists d0 d1,
        In d0 ds /\ In d1 ds
        /\ (forall x, In x ds -> toordinal d0 <= toordinal x <= toordinal d1)
        /\ as_duration s
           = if timestamp_day d0 && timestamp_day d1
             then toordinal d1 - toordinal d0 + 1
             else as_days s).
Proof.
  apply (animal_duration_covers_days Samples.green_pastures
                                     Samples.a_day_in_2023 "T001").
  simpl. intros m [<-|[<-|[<-|[]]]]; reflexivity.
Defined.

(** Green Pastures, T001: records from 2023-01-10 to 2023-02-01, 23 days. *)
Example green_pastures_T001_duration :
  as_duration (animal_yield_summary Samples.green_pastures
                                    Samples.a_day_in_2023 "T001") = 23.
Proof. vm_compute. reflexivity. Qed.


Lemma annual_csv_round_trip_witness :
  exists text body,
    csv_download (fun _ => EmptyString)
      (frame_of_df_year true
         (fs_df_year (farm_yield_summary Samples.green_pastures
                        Samples.a_day_in_2023 "Green Pastures")))
    = Some text
    /\ parse_csv text
       = ["Year"; "Total Liters"; "Days Milked"; "Avg Daily (L)"] :: body
    /\ Forall2
         (fun r fields =>
            exists l dd a,
              reparse_row fields = Some (l, dd, a)
              /\ (l == inject_Z (round_half_even (yr_liters r)))%Q
              /\ (Qabs (l - yr_liters r) <= 1 # 2)%Q
              /\ (dd == inject_Z (yr_days r))%Q
              /\ exists av, yr_avg_daily r = Finite av /\ (a == av)%Q)
         (fs_df_year (farm_yield_summary Samples.green_pastures
                        Samples.a_day_in_2023 "Green Pastures"))
         body.
Proof.
  apply (proj1 (annual_csv_round_trip (fun _ => EmptyString)
                  Samples.green_pastures Samples.a_day_in_2023
                  ltac:(simpl; intros m [<-|[<-|[<-|[]]]];
                        unfold Qle; simpl; lia))
               "Green Pastures").
Defined.

(** The binary64 additions of [Samples.additions] are those of the
    Standard Library's IEEE 754 specification. *)
Example additions_agree_with_SFadd :
  forallb agrees_with_SFadd Samples.additions = true.
Proof. vm_compute. reflexivity. Qed.

Example decimals_agree_with_SFdiv :
  forallb agrees_with_SFdiv Samples.decimals = true.
Proof. vm_compute. reflexivity. Qed.

(** Yields of 0.1 litres in 2022 and of 0.2 and 0.3 litres in 2023: the
    total is 0.6000000000000001, the per-year liters are 0.1 and 0.5, and
    they add up to another number, whether added exactly or in binary64
    (0.6). *)
Lemma annual_liters_miss_total :
  let rows := farm_records Samples.tenths "Hill Farm" in
  let annual := Binary64.annual_liters rows in
  let total := Binary64.total_liters rows in
  map fst annual = [2022; 2023]
  /\ Forall2 Qeq (map snd annual)
             [3602879701896397 # 36028797018963968; 1 # 2]%Q
  /\ (total == 5404319552844596 # 9007199254740992)%Q
  /\ ~ (Qsum (map snd annual) == total)%Q
  /\ (Binary64.sum64 (map snd annual)
      == 5404319552844595 # 9007199254740992)%Q
  /\ ~ (Binary64.sum64 (map snd annual) == total)%Q.
Proof.
  vm_compute. repeat split; try reflexivity; try discriminate.
  repeat constructor.
Qed.

Lemma annual_liters_add_up_to_rounding_witness :
  let rows := farm_records Samples.green_pastures "Green Pastures" in
  let annual := Binary64.annual_liters rows in
  let total := Binary64.total_liters rows in
  (Qsum (map snd annual) == total)%Q
  /\ (Binary64.sum64 (map snd annual) == total)%Q
  /\ (total == Qsum (yields rows))%Q.
Proof.
  apply (proj2 (proj2 (proj2 (proj2
           (annual_liters_add_up_to_rounding Samples.green_pastures
                                             "Green Pastures")))) 0).
  - intros m Hm. vm_compute in Hm.
    destruct Hm as [<-|[<-|[<-|[]]]]; split; vm_compute; congruence.
  - vm_compute. reflexivity.
Defined.

(** Cow A1 with one yield of 0.1 litres, cow B2 with yields of 0.2 and 0.3
    litres: the farm total is 0.6000000000000001, the animal totals are
    0.1 and 0.5, and they add up to another number, whether added exactly
    or in binary64 (0.6). *)
Lemma animal_totals_miss_farm_total :
  let rows := farm_records Samples.tenths "Hill Farm" in
  let cows := load_animals Samples.tenths "Hill Farm" in
  let per_animal :=
    map (fun a => Binary64.total_liters
                    (animal_records Samples.tenths (fst a))) cows in
  let total := Binary64.total_liters rows in
  NoDup (map a_ear_tag (animals Samples.tenths))
  /\ map fst cows = ["A1"; "B2"]
  /\ Forall2 Qeq per_animal
             [3602879701896397 # 36028797018963968; 1 # 2]%Q
  /\ (total == 5404319552844596 # 9007199254740992)%Q
  /\ ~ (Qsum per_animal == total)%Q
  /\ (Binary64.sum64 per_animal == 5404319552844595 # 9007199254740992)%Q
  /\ ~ (Binary64.sum64 per_animal == total)%Q.
Proof.
  split.
  - simpl. repeat constructor; simpl; intuition discriminate.
  - vm_compute. repeat split; try reflexivity; try discriminate.
    repeat constructor.
Qed.

Lemma farm_total_and_animal_totals_witness :
  let rows := farm_records Samples.green_pastures "Green Pastures" in
  let per_animal :=
    map (fun a => Binary64.total_liters
                    (animal_records Samples.green_pastures (fst a)))
        (load_animals Samples.green_pastures "Green Pastures") in
  let total := Binary64.total_liters rows in
  (Qsum per_animal == total)%Q
  /\ (Binary64.sum64 per_animal == total)%Q
  /\ (total == Qsum (yields rows))%Q.
Proof.
  apply (proj2 (proj2 (proj2 (proj2
           (farm_total_and_animal_totals Samples.green_pastures
              "Green Pastures"
              ltac:(simpl; repeat constructor; simpl;
                    intuition discriminate))))) 0).
  - intros m Hm. vm_compute in Hm.
    destruct Hm as [<-|[<-|[<-|[]]]]; split; vm_compute; congruence.
  - vm_compute. reflexivity.
Defined.

(* ================================================================== *)
(** * Further properties of the loaders, the aggregators and the views  *)
(* ================================================================== *)

Local Close Scope string_scope.

(** ** The order of ear tags and farm names *)

Lemma ascii_compare_lt_trans (a b c : ascii) :
  Ascii.compare a b = Lt -> Ascii.compare b c = Lt -> Ascii.compare a c = Lt.
Proof.
  unfold Ascii.compare. rewrite !N.compare_lt_iff. apply N.lt_trans.
Qed.

Lemma string_compare_lt_trans (s1 s2 s3 : string) :
  String.compare s1 s2 = Lt -> String.compare s2 s3 = Lt ->
  String.compare s1 s3 = Lt.
Proof.
  revert s2 s3. induction s1 as [|c1 s1 IH]; intros [|c2 s2] [|c3 s3];
    simpl; try discriminate; try reflexivity.
  destruct (Ascii.compare c1 c2) eqn:E12; try discriminate.
  - apply Ascii.compare_eq_iff in E12. subst c2.
    destruct (Ascii.compare c1 c3); try discriminate; auto.
    apply IH.
  - destruct (Ascii.compare c2 c3) eqn:E23; try discriminate.
    + apply Ascii.compare_eq_iff in E23. subst c3. now rewrite E12.
    + now rewrite (ascii_compare_lt_trans _ _ _ E12 E23).
Qed.

Lemma string_leb_trans (s1 s2 s3 : string) :
  String.leb s1 s2 = true -> String.leb s2 s3 = true ->
  String.leb s1 s3 = true.
Proof.
  unfold String.leb.
  destruct (String.compare s1 s2) eqn:E12; try discriminate;
    destruct (String.compare s2 s3) eqn:E23; try discriminate; intros _ _.
  - pose proof (String.compare_eq_iff _ _ E12). subst. now rewrite E23.
  - apply String.compare_eq_iff in E12. subst. now rewrite E23.
  - apply String.compare_eq_iff in E23. subst. now rewrite E12.
  - now rewrite (string_compare_lt_trans _ _ _ E12 E23).
Qed.

Lemma string_leb_false (s1 s2 : string) :
  String.leb s1 s2 = false -> String.leb s2 s1 = true.
Proof.
  intros H. destruct (String.leb_total s1 s2) as [E|E]; congruence.
Qed.

Lemma StronglySorted_map {A B : Type} (R : B -> B -> Prop) (f : A -> B)
      (l : list A) :
  StronglySorted (fun a b => R (f a) (f b)) l -> StronglySorted R (map f l).
Proof.
  induction 1 as [|x l Hs IH Hall]; simpl; constructor; [exact IH|].
  apply Forall_map. exact Hall.
Qed.

(** ** The loaders *)

(** X1. [load_farms] lists exactly the non-empty farm names that occur in
    [animals], each once, in ascending order. *)
Theorem load_farms_listing (d : db) :
  StronglySorted (fun a b => String.leb a b = true) (load_farms d)
  /\ NoDup (load_farms d)
  /\ (forall f, In f (load_farms d) <->
                f <> EmptyString
                /\ exists a, In a (animals d) /\ farm_name a = f).
Proof.
  unfold load_farms. split; [|split].
  - apply ORDER_BY_sorted.
    + apply string_leb_false.
    + apply string_leb_trans.
  - apply ORDER_BY_NoDup, NoDup_nodup.
  - intros f. rewrite ORDER_BY_In, nodup_In, in_map_iff. split.
    + intros (a & <- & Ha). apply filter_In in Ha. destruct Ha as [Ha Hn].
      apply negb_true_iff, String.eqb_neq in Hn. eauto.
    + intros (Hne & a & Ha & <-). exists a. split; [reflexivity|].
      apply filter_In. split; [exact Ha|].
      now apply negb_true_iff, String.eqb_neq.
Qed.

(** X2. [load_animals] returns the animals of the farm, each row of
    [animals] once (so its length is the number of such rows), in
    ascending order of ear tag. *)
Theorem load_animals_listing (d : db) (farm : string) :
  Permutation (load_animals d farm)
              (map (fun a => (a_ear_tag a, birth_date a))
                   (filter (fun a => String.eqb (farm_name a) farm)
                           (animals d)))
  /\ StronglySorted (fun a b => String.leb a b = true)
                    (map fst (load_animals d farm))
  /\ (forall t b,
         In (t, b) (load_animals d farm) <->
         exists a, In a (animals d) /\ farm_name a = farm
                   /\ a_ear_tag a = t /\ birth_date a = b).
Proof.
  unfold load_animals. split; [|split].
  - apply Permutation_map, ORDER_BY_Permutation.
  - rewrite map_map. simpl.
    apply (StronglySorted_map (fun a b => String.leb a b = true) a_ear_tag).
    apply (ORDER_BY_sorted
             (fun a b => String.leb (a_ear_tag a) (a_ear_tag b))).
    + intros x y. apply string_leb_false.
    + intros x y z. apply string_leb_trans.
  - intros t b. rewrite in_map_iff. split.
    + intros (a & [= <- <-] & Ha). apply ORDER_BY_In, filter_In in Ha.
      destruct Ha as [Ha Hf]. apply String.eqb_eq in Hf. eauto 6.
    + intros (a & Ha & Hf & <- & <-). exists a. split; [reflexivity|].
      apply ORDER_BY_In, filter_In. split; [exact Ha|].
      now apply String.eqb_eq.
Qed.

(** X3. A farm offered by [load_farms] has at least one animal in
    [load_animals], and a farm with a non-empty name and at least one
    animal is offered. *)
Theorem listed_farm_has_animals (d : db) (farm : string) :
  In farm (load_farms d) <->
  farm <> EmptyString /\ load_animals d farm <> [].
Proof.
  destruct (load_farms_listing d) as (_ & _ & Hin).
  destruct (load_animals_listing d farm) as (_ & _ & Hmem).
  rewrite Hin. split.
  - intros (Hne & a & Ha & Hf). split; [exact Hne|].
    assert (H : In (a_ear_tag a, birth_date a) (load_animals d farm))
      by (apply Hmem; eauto 6).
    intros E. rewrite E in H. contradiction.
  - intros (Hne & Hl). split; [exact Hne|].
    destruct (load_animals d farm) as [|[t b] l] eqn:E; [congruence|].
    destruct (proj1 (Hmem t b) (or_introl eq_refl)) as (a & Ha & Hf & _).
    eauto.
Qed.

(** ** The annual table: order, cows and days *)

Lemma StronglySorted_leb_lt (l : list Z) :
  StronglySorted (fun a b => (a <=? b) = true) l -> NoDup l ->
  StronglySorted Z.lt l.
Proof.
  induction 1 as [|x l Hs IH Hall]; intros Hnd; constructor.
  - apply IH. now inversion Hnd.
  - inversion Hnd as [|? ? Hx _]; subst.
    rewrite Forall_forall in *. intros y Hy.
    specialize (Hall y Hy). apply Z.leb_le in Hall.
    assert (x <> y) by (intros ->; contradiction). lia.
Qed.

Lemma Z_leb_false (x y : Z) : (x <=? y) = false -> (y <=? x) = true.
Proof. rewrite Z.leb_gt, Z.leb_le. lia. Qed.

Lemma Z_leb_trans (x y z : Z) :
  (x <=? y) = true -> (y <=? z) = true -> (x <=? z) = true.
Proof. rewrite !Z.leb_le. lia. Qed.

Lemma df_year_of_ascending (with_cows : bool) (rows : list milk) :
  StronglySorted Z.lt (map yr_year (df_year_of with_cows rows)).
Proof.
  rewrite df_year_of_years. apply StronglySorted_leb_lt.
  - apply ORDER_BY_sorted; [apply Z_leb_false|apply Z_leb_trans].
  - apply ORDER_BY_NoDup, NoDup_nodup.
Qed.

(** X4. The annual table of a farm and of an animal is in strictly
    ascending order of year. *)
Theorem annual_years_ascending (d : db) (today : date) :
  (forall farm,
      StronglySorted Z.lt
        (map yr_year (fs_df_year (farm_yield_summary d today farm))))
  /\ (forall tag,
         StronglySorted Z.lt
           (map yr_year (as_df_year (animal_yield_summary d today tag)))).
Proof. split; intros x; apply df_year_of_ascending. Qed.

Lemma COUNT_DISTINCT_incl {A : Type}
      (dec : forall a b : A, {a = b} + {a <> b}) (l1 l2 : list A) :
  incl l1 l2 -> COUNT_DISTINCT dec l1 <= Z.of_nat (length l2).
Proof.
  intros H. unfold COUNT_DISTINCT. apply inj_le.
  apply NoDup_incl_length; [apply NoDup_nodup|].
  intros x Hx. apply H. now apply nodup_In in Hx.
Qed.

Lemma COUNT_DISTINCT_mono {A : Type}
      (dec : forall a b : A, {a = b} + {a <> b}) (l1 l2 : list A) :
  incl l1 l2 -> COUNT_DISTINCT dec l1 <= COUNT_DISTINCT dec l2.
Proof.
  intros H. apply COUNT_DISTINCT_incl.
  intros x Hx. apply nodup_In. now apply H.
Qed.

Lemma farm_record_tag_listed (d : db) (farm : string) (m : milk) :
  In m (farm_records d farm) ->
  In (ear_tag m) (map fst (load_animals d farm)).
Proof.
  unfold farm_records, milk_join_animals. rewrite in_map_iff.
  intros ([m' a] & <- & H). apply filter_In in H. destruct H as [H Hf].
  apply in_flat_map in H. destruct H as (m0 & _ & H).
  apply in_map_iff in H. destruct H as (a0 & [= -> ->] & Ha).
  apply filter_In in Ha. destruct Ha as [Ha Ht].
  simpl in *. apply String.eqb_eq in Ht, Hf.
  apply in_map_iff. exists (a_ear_tag a, birth_date a).
  split; [now rewrite Ht|].
  apply (proj2 (proj2 (load_animals_listing d farm))). eauto 6.
Qed.

(** X5. In the annual table of a farm every row has a [cows] count, which
    is at least 1 and at most the number of animals [load_animals] returns
    for the farm (the "Cows Registered" metric); the animal table has no
    such column. *)
Theorem annual_cows_bounded (d : db) (today : date) :
  (forall farm r,
      In r (fs_df_year (farm_yield_summary d today farm)) ->
      exists c, yr_cows r = Some c
                /\ 1 <= c <= Z.of_nat (snd (farm_metrics d today farm)))
  /\ (forall tag r,
         In r (as_df_year (animal_yield_summary d today tag)) ->
         yr_cows r = None).
Proof.
  split; intros x r; simpl; unfold df_year_of, annual_query;
    rewrite map_map, in_map_iff; intros ([k g] & <- & Hg); simpl;
    [|reflexivity].
  eexists. split; [reflexivity|]. split.
  - apply COUNT_DISTINCT_pos.
    pose proof (GROUP_BY_nonempty _ _ _ _ _ _ Hg) as Hne.
    unfold tags. destruct g; [congruence|discriminate].
  - rewrite <- (length_map fst). apply COUNT_DISTINCT_incl.
    intros t Ht. unfold tags in Ht. apply in_map_iff in Ht.
    destruct Ht as (m & <- & Hm). apply farm_record_tag_listed.
    now apply (GROUP_BY_group_In _ _ _ _ _ _ m Hg) in Hm.
Qed.

Lemma Zsum_nodup_lengths {A B : Type}
      (dec : forall a b : B, {a = b} + {a <> b}) (f : A -> list B)
      (l : list A) :
  Zsum (map (fun a => COUNT_DISTINCT dec (f a)) l)
  = Z.of_nat (length (flat_map (fun a => nodup dec (f a)) l)).
Proof.
  induction l as [|a l IH]; simpl; [reflexivity|].
  rewrite length_app, IH. unfold COUNT_DISTINCT. lia.
Qed.

Lemma df_year_of_days (with_cows : bool) (rows : list milk) :
  (forall r, In r (df_year_of with_cows rows) ->
             yr_days r <= lactation_days rows)
  /\ lactation_days rows <= Zsum (map yr_days (df_year_of with_cows rows))
  /\ lactation_days rows <= COUNT rows.
Proof.
  split; [|split].
  - intros r Hr. destruct (df_year_of_In _ _ _ Hr) as (g & Hg & _ & -> & _).
    apply COUNT_DISTINCT_mono. intros x Hx. unfold dates in *.
    apply in_map_iff in Hx. destruct Hx as (m & <- & Hm).
    apply in_map.
    now apply (GROUP_BY_group_In Z.eq_dec Z.leb record_year _ _ rows m Hg)
      in Hm.
  - unfold df_year_of, annual_query. rewrite !map_map. simpl.
    rewrite (Zsum_nodup_lengths date_eq_dec (fun g => dates (snd g))).
    unfold lactation_days, COUNT_DISTINCT. apply inj_le.
    apply NoDup_incl_length; [apply NoDup_nodup|].
    intros x Hx. apply nodup_In in Hx. unfold dates in Hx.
    apply in_map_iff in Hx. destruct Hx as (m & <- & Hm).
    apply in_flat_map.
    exists (record_year m,
            filter (has_key Z.eq_dec record_year (record_year m)) rows).
    split.
    + apply GROUP_BY_In. split; [now apply in_map|reflexivity].
    + simpl. apply nodup_In. unfold dates. apply in_map.
      apply filter_In. split; [exact Hm|]. now apply has_key_true.
  - unfold lactation_days, COUNT. rewrite <- (length_map record_date).
    apply COUNT_DISTINCT_incl, incl_refl.
Qed.

(** X6. For a farm and for an animal: the days of every annual row are at
    most the lactation days of the scope, the lactation days are at most
    the sum of the annual days, and at most the number of records. *)
Theorem lactation_days_and_annual_days (d : db) (today : date) :
  (forall farm,
      let s := farm_yield_summary d today farm in
      (forall r, In r (fs_df_year s) -> yr_days r <= fs_days s)
      /\ fs_days s <= Zsum (map yr_days (fs_df_year s))
      /\ fs_days s <= COUNT (farm_records d farm))
  /\ (forall tag,
         let s := animal_yield_summary d today tag in
         (forall r, In r (as_df_year s) -> yr_days r <= as_days s)
         /\ as_days s <= Zsum (map yr_days (as_df_year s))
         /\ as_days s <= COUNT (animal_records d tag)).
Proof. split; intros x; apply df_year_of_days. Qed.

(** ** The rows of the 12-month trend *)

Lemma trend_row_of_group (count : list milk -> Z) (rows : list milk)
      (r : trend_row) :
  In r (map (fun g =>
               (fst g, round_half_even (Qsum (yields (snd g))),
                count (snd g)))
            (by_month rows)) ->
  let g := filter (in_month (t_month r)) rows in
  g <> []
  /\ t_liters r = round_half_even (Qsum (yields g))
  /\ t_sessions r = count g.
Proof.
  rewrite in_map_iff. intros ([k g] & <- & Hg).
  destruct (by_month_group _ _ Hg) as [E (m & Hm & Hk)].
  simpl in E, Hk. unfold t_month, t_liters, t_sessions. simpl.
  rewrite <- E. repeat split.
  intros ->. symmetry in E.
  assert (Hin : In m (filter (in_month k) rows)).
  { apply filter_In. split; [exact Hm|]. now apply month_key_eqb_eq. }
  rewrite E in Hin. contradiction.
Qed.

(** X7. A row of the farm trend or of the animal trend stands for at least
    one record of its month among the scope's records dated on or after
    [since]: its session count is at least 1 (no count is a filled-in 0)
    and at most the number of those records. *)
Theorem trend_rows_stand_for_records (d : db) (today : date) :
  (forall farm r,
      In r (fs_df_12mo (farm_yield_summary d today farm)) ->
      let g := filter (in_month (t_month r))
                      (on_or_after (since today) (farm_records d farm)) in
      g <> [] /\ 1 <= t_sessions r <= COUNT g)
  /\ (forall tag r,
         In r (as_df_12mo (animal_yield_summary d today tag)) ->
         let g := filter (in_month (t_month r))
                         (on_or_after (since today) (animal_records d tag)) in
         g <> [] /\ 1 <= t_sessions r <= COUNT g).
Proof.
  split; intros x r.
  - rewrite farm_trend_rows. intros H.
    destruct (trend_row_of_group
                (fun g => COUNT_DISTINCT string_dec (tags g)) _ r H)
      as (Hne & _ & Hs).
    cbv zeta. rewrite Hs. split; [exact Hne|]. split.
    + apply COUNT_DISTINCT_pos. unfold tags.
      destruct (filter _ _); [congruence|discriminate].
    + unfold COUNT. rewrite <- (length_map ear_tag).
      apply COUNT_DISTINCT_incl, incl_refl.
  - rewrite animal_trend_rows. intros H.
    destruct (trend_row_of_group (fun g => COUNT g) _ r H)
      as (Hne & _ & Hs).
    cbv zeta. rewrite Hs. split; [exact Hne|]. split; [|lia].
    unfold COUNT. destruct (filter _ _); [congruence|simpl; lia].
Qed.

Lemma Zsum_lengths {A B : Type} (f : A -> list B) (l : list A) :
  Zsum (map (fun a => COUNT (f a)) l) = COUNT (flat_map f l).
Proof.
  unfold COUNT. induction l as [|a l IH]; simpl; [reflexivity|].
  rewrite length_app, IH. lia.
Qed.

(** X8. The session counts of the animal trend add up to the number of the
    animal's records dated on or after [since]: every such record is
    counted in exactly one month. *)
Theorem animal_trend_sessions_total (d : db) (today : date) (tag : string) :
  Zsum (map t_sessions (as_df_12mo (animal_yield_summary d today tag)))
  = COUNT (on_or_after (since today) (animal_records d tag)).
Proof.
  rewrite animal_trend_rows, map_map.
  unfold t_sessions. simpl.
  rewrite (Zsum_lengths snd). unfold COUNT. f_equal.
  apply Permutation_length. unfold by_month. apply GROUP_BY_partition.
Qed.

Lemma Qabs_round_sum (xs : list Q) :
  (Qabs (inject_Z (Zsum (map round_half_even xs)) - Qsum xs)
   <= inject_Z (Z.of_nat (length xs)) * (1 # 2))%Q.
Proof.
  induction xs as [|x xs IH].
  - vm_compute. discriminate.
  - cbn [map Zsum fold_right Qsum length].
    fold (Zsum (map round_half_even xs)). fold (Qsum xs).
    rewrite Nat2Z.inj_succ, <- Z.add_1_r, !inject_Z_plus.
    change (inject_Z 1) with 1%Q.
    pose proof (round_half_even_near x) as Hx.
    apply Qabs_Qle_condition in Hx. apply Qabs_Qle_condition in IH.
    apply Qabs_Qle_condition. destruct Hx, IH. split; lra.
Qed.


(** ** The last-six-months detail *)

Lemma six_months_start (today : date) :
  valid_date today = true -> 1 < year today ->
  valid_date (sub_days today 180) = true
  /\ toordinal (sub_days today 180) = toordinal today - 180.
Proof.
  intros Hv Hy. pose proof (toordinal_second_year today Hv Hy).
  apply (sub_days_spec today 180 Hv). lia.
Qed.

(** X10. The six-month detail holds the animal's records dated on or after
    today - 180 days, every one of them and each as often as it is stored,
    in ascending order of date; nothing bounds the dates from above. *)
Theorem df_6mo_listing (d : db) (today : date) (cow : string) :
  Permutation (df_6mo d today cow)
              (map (fun m => (record_date m, yield_value m))
                   (on_or_after (sub_days today 180)
                                (animal_records d cow)))
  /\ StronglySorted (fun a b => date_leb a b = true)
                    (map fst (df_6mo d today cow))
  /\ (valid_date today = true -> 1 < year today ->
      (forall m, In m (animal_records d cow) ->
                 valid_date (record_date m) = true) ->
      forall m, In m (animal_records d cow) ->
                (In (record_date m, yield_value m) (df_6mo d today cow) <->
                 toordinal today - 180 <= toordinal (record_date m))).
Proof.
  unfold df_6mo. split; [|split].
  - apply Permutation_map, ORDER_BY_Permutation.
  - rewrite map_map. simpl.
    apply (StronglySorted_map (fun a b => date_leb a b = true) record_date).
    apply (ORDER_BY_sorted
             (fun a b => date_leb (record_date a) (record_date b))).
    + intros x y. apply date_leb_total.
    + intros x y z. apply date_leb_trans.
  - intros Hv Hy Hdates m Hm.
    destruct (six_months_start today Hv Hy) as [Sv So].
    rewrite in_map_iff. split.
    + intros (m' & [= Hd _] & Hin).
      apply ORDER_BY_In in Hin. unfold on_or_after in Hin.
      apply filter_In in Hin. destruct Hin as [Hm' Hle].
      rewrite Hd in Hle.
      apply (date_leb_toordinal _ _ Sv (Hdates m Hm)) in Hle. lia.
    + intros Hord. exists m. split; [reflexivity|].
      apply ORDER_BY_In. unfold on_or_after. apply filter_In.
      split; [exact Hm|].
      apply (date_leb_toordinal _ _ Sv (Hdates m Hm)). lia.
Qed.

(** X11. Every date of the six-month detail falls in a month of the
    animal's 12-month trend: the detail never shows a record of a month
    the trend leaves out. *)
Theorem df_6mo_within_trend (d : db) (today : date) (cow : string) :
  valid_date today = true -> 1 < year today ->
  (forall m, In m (animal_records d cow) ->
             valid_date (record_date m) = true) ->
  forall row,
    In row (df_6mo d today cow) ->
    In (strftime_Ym (fst row))
       (map t_month (as_df_12mo (animal_yield_summary d today cow))).
Proof.
  intros Hv Hy Hdates row Hrow.
  destruct (six_months_start today Hv Hy) as [Sv6 So6].
  destruct (since_spec today Hv Hy) as [Sv12 So12].
  unfold df_6mo in Hrow. apply in_map_iff in Hrow.
  destruct Hrow as (m & <- & Hin). apply ORDER_BY_In in Hin.
  unfold on_or_after in Hin. apply filter_In in Hin.
  destruct Hin as [Hm Hle]. cbn [fst].
  apply (date_leb_toordinal _ _ Sv6 (Hdates m Hm)) in Hle.
  rewrite animal_trend_rows, (trend_months (fun g => COUNT g)).
  apply by_month_months. exists m. split; [|reflexivity].
  unfold on_or_after. apply filter_In. split; [exact Hm|].
  apply (date_leb_toordinal _ _ Sv12 (Hdates m Hm)). lia.
Qed.

(** X12. With today a date after year 1, [since] is the calendar day
    exactly 365 days before today and the bound of the six-month detail
    the calendar day exactly 180 days before today. *)
Theorem window_starts (today : date) :
  valid_date today = true -> 1 < year today ->
  valid_date (since today) = true
  /\ toordinal (since today) = toordinal today - 365
  /\ valid_date (sub_days today 180) = true
  /\ toordinal (sub_days today 180) = toordinal today - 180.
Proof.
  intros Hv Hy.
  destruct (since_spec today Hv Hy) as [H1 H2].
  destruct (six_months_start today Hv Hy) as [H3 H4]. auto.
Qed.

(** ** The statistics of an animal *)

Lemma Qle_bool_false (x y : Q) : Qle_bool x y = false -> Qle_bool y x = true.
Proof.
  intros H. apply Qle_bool_iff.
  destruct (Qlt_le_dec y x) as [L|L]; [now apply Qlt_le_weak|].
  apply Qle_bool_iff in L. congruence.
Qed.

Lemma Qle_bool_trans (x y z : Q) :
  Qle_bool x y = true -> Qle_bool y z = true -> Qle_bool x z = true.
Proof. rewrite !Qle_bool_iff. apply Qle_trans. Qed.

Lemma ROUND1_near (x : Q) : (Qabs (ROUND1 x - x) <= 1 # 20)%Q.
Proof.
  unfold ROUND1.
  set (t := Qfloor (Qabs x * (10 # 1) + (1 # 2))).
  pose proof (Qfloor_le (Qabs x * (10 # 1) + (1 # 2))) as Hlo.
  pose proof (Qlt_floor (Qabs x * (10 # 1) + (1 # 2))) as Hhi.
  fold t in Hlo, Hhi. rewrite inject_Z_plus in Hhi.
  change (inject_Z 1) with 1%Q in Hhi.
  assert (Hd : (inject_Z t / (10 # 1) == inject_Z t * (1 # 10))%Q) by field.
  apply Qabs_Qle_condition.
  destruct (Qle_bool 0 x) eqn:S.
  - apply Qle_bool_iff in S. rewrite (Qabs_pos x S) in Hlo, Hhi.
    rewrite Hd. split; lra.
  - assert (Hn : (x <= 0)%Q).
    { destruct (Qlt_le_dec 0 x) as [L|L]; [|exact L].
      apply Qlt_le_weak, Qle_bool_iff in L. congruence. }
    rewrite (Qabs_neg x Hn) in Hlo, Hhi. rewrite Hd. split; lra.
Qed.

Lemma Qsum_bounds (xs : list Q) (lo hi : Q) :
  (forall x, In x xs -> lo <= x <= hi)%Q ->
  (inject_Z (Z.of_nat (length xs)) * lo <= Qsum xs
   <= inject_Z (Z.of_nat (length xs)) * hi)%Q.
Proof.
  induction xs as [|x xs IH]; intros H.
  - simpl. split; rewrite Qmult_0_l; apply Qle_refl.
  - cbn [length Qsum fold_right]. fold (Qsum xs).
    rewrite Nat2Z.inj_succ, <- Z.add_1_r, inject_Z_plus.
    change (inject_Z 1) with 1%Q.
    destruct (H x (or_introl eq_refl)).
    destruct (IH (fun y Hy => H y (or_intror Hy))). split; lra.
Qed.


(** X14. The metrics of the cow page are computed exactly for the animals
    that have a record: for an animal without records the format of the
    NULL average raises. *)
Theorem cow_metrics_need_records (float_repr : Q -> string) (d : db)
        (today : date) (tag : string) :
  cow_metrics float_repr (animal_yield_summary d today tag) = None
  <-> animal_records d tag = [].
Proof.
  unfold cow_metrics. simpl. unfold AVG, yields.
  destruct (animal_records d tag) as [|m l]; simpl; split;
    intros H; try reflexivity; discriminate.
Qed.

(** ** The join with [animals] *)

Lemma flat_map_no_match {A B : Type} (hit : A -> bool) (m : B)
      (l : list A) :
  (forall b, In b l -> hit b = false) ->
  flat_map (fun a => if hit a then [m] else []) l = []
  /\ existsb hit l = false.
Proof.
  induction l as [|b l IH]; intros H; [split; reflexivity|].
  cbn [flat_map existsb]. rewrite (H b (or_introl eq_refl)).
  destruct (IH (fun x Hx => H x (or_intror Hx))) as [-> ->].
  split; reflexivity.
Qed.

Lemma flat_map_unique_match {A B : Type} (hit : A -> bool) (m : B)
      (l : list A) :
  (forall a b, In a l -> In b l -> hit a = true -> hit b = true -> a = b) ->
  NoDup l ->
  flat_map (fun a => if hit a then [m] else []) l
  = if existsb hit l then [m] else [].
Proof.
  intros Huniq Hnd. induction Hnd as [|a l Ha Hnd IH]; [reflexivity|].
  cbn [flat_map existsb]. destruct (hit a) eqn:E; cbn [orb app].
  - assert (Hrest : forall b, In b l -> hit b = false).
    { intros b Hb. destruct (hit b) eqn:Eb; [|reflexivity].
      assert (a = b) by (apply Huniq; simpl; auto). subst. contradiction. }
    now destruct (flat_map_no_match hit m l Hrest) as [-> _].
  - apply IH. intros x y Hx Hy. apply Huniq; simpl; auto.
Qed.

Lemma existsb_filter {A : Type} (p q : A -> bool) (l : list A) :
  existsb p (filter q l) = existsb (fun a => p a && q a) l.
Proof.
  induction l as [|a l IH]; simpl; [reflexivity|].
  destruct (q a); simpl; rewrite IH, ?andb_true_r, ?andb_false_r;
    reflexivity.
Qed.

Lemma NoDup_map_fst_NoDup {A B : Type} (f : A -> B) (l : list A) :
  NoDup (map f l) -> NoDup l.
Proof.
  induction l as [|a l IH]; simpl; intros H; constructor;
    inversion H as [|? ? Ha Hl]; subst.
  - intros Hin. apply Ha. now apply in_map.
  - now apply IH.
Qed.

Lemma NoDup_map_eq {A B : Type} (f : A -> B) (l : list A) (a b : A) :
  NoDup (map f l) -> In a l -> In b l -> f a = f b -> a = b.
Proof.
  induction l as [|x l IH]; simpl; intros H Ha Hb E; [contradiction|].
  inversion H as [|? ? Hx Hl]; subst.
  destruct Ha as [->|Ha], Hb as [->|Hb]; auto.
  - exfalso. apply Hx. rewrite E. now apply in_map.
  - exfalso. apply Hx. rewrite <- E. now apply in_map.
Qed.

(** X15. A record is among a farm's records only if some animal of that
    farm carries its ear tag. With ear tags unique in [animals] the farm's
    records are the stored records whose ear tag belongs to an animal of
    the farm, in stored order and each once, and no record is among the
    records of two farms. *)
Theorem farm_records_by_ear_tag (d : db) :
  (forall farm m,
      In m (farm_records d farm) ->
      In m (milk_yield d)
      /\ exists a, In a (animals d) /\ a_ear_tag a = ear_tag m
                   /\ farm_name a = farm)
  /\ (NoDup (map a_ear_tag (animals d)) ->
      (forall farm,
          farm_records d farm
          = filter (fun m =>
                      existsb (fun a =>
                                 String.eqb (ear_tag m) (a_ear_tag a)
                                 && String.eqb (farm_name a) farm)
                              (animals d))
                   (milk_yield d))
      /\ (forall m f1 f2,
             In m (farm_records d f1) -> In m (farm_records d f2) ->
             f1 = f2)).
Proof.
  assert (Hown : forall farm m,
             In m (farm_records d farm) ->
             In m (milk_yield d)
             /\ exists a, In a (animals d) /\ a_ear_tag a = ear_tag m
                          /\ farm_name a = farm).
  { intros farm m Hm. split; [now apply farm_records_In in Hm|].
    unfold farm_records, milk_join_animals in Hm.
    apply in_map_iff in Hm. destruct Hm as ([m' a] & <- & H).
    apply filter_In in H. destruct H as [H Hf].
    apply in_flat_map in H. destruct H as (m0 & _ & H).
    apply in_map_iff in H. destruct H as (a0 & [= -> ->] & Ha).
    apply filter_In in Ha. destruct Ha as [Ha Ht]. simpl in *.
    apply String.eqb_eq in Ht, Hf. eauto. }
  split; [exact Hown|]. intros Huniq. split.
  - intros farm. rewrite farm_records_flat_map.
    etransitivity; [|symmetry; apply filter_flat_map].
    apply flat_map_ext. intros m.
    rewrite flat_map_unique_match.
    + now rewrite existsb_filter.
    + intros a b Ha Hb Ea Eb. apply filter_In in Ha, Hb.
      apply String.eqb_eq in Ea, Eb.
      apply (NoDup_map_eq a_ear_tag (animals d)); try tauto. congruence.
    + apply NoDup_filter. now apply NoDup_map_fst_NoDup in Huniq.
  - intros m f1 f2 H1 H2.
    destruct (Hown _ _ H1) as (_ & a1 & Ha1 & Ht1 & <-).
    destruct (Hown _ _ H2) as (_ & a2 & Ha2 & Ht2 & <-).
    f_equal. apply (NoDup_map_eq a_ear_tag (animals d)); auto. congruence.
Qed.

Lemma Qsum_term_le {A : Type} (f : A -> Q) (l : list A) (x : A) :
  (forall y, In y l -> (0 <= f y)%Q) -> In x l ->
  (f x <= Qsum (map f l))%Q.
Proof.
  induction l as [|a l IH]; simpl; intros Hpos Hin; [contradiction|].
  pose proof (Qsum_nonneg (map f l)) as Hrest.
  assert (0 <= Qsum (map f l))%Q.
  { apply Hrest. intros y Hy. apply in_map_iff in Hy.
    destruct Hy as (z & <- & Hz). apply Hpos. now right. }
  destruct Hin as [->|Hin].
  - lra.
  - pose proof (Hpos a (or_introl eq_refl)).
    pose proof (IH (fun y Hy => Hpos y (or_intror Hy)) Hin). lra.
Qed.

Lemma animal_records_in_farm (d : db) (farm cow : string) (m : milk) :
  In cow (map fst (load_animals d farm)) ->
  In m (animal_records d cow) -> In m (farm_records d farm).
Proof.
  intros Hcow Hm. apply in_map_iff in Hcow.
  destruct Hcow as ([t b] & Ht & Hin). simpl in Ht. subst t.
  apply (proj2 (proj2 (load_animals_listing d farm))) in Hin.
  destruct Hin as (a & Ha & Hf & Htag & _).
  unfold animal_records in Hm. apply filter_In in Hm.
  destruct Hm as [Hm Hc]. apply String.eqb_eq in Hc.
  unfold farm_records, milk_join_animals. apply in_map_iff.
  exists (m, a). split; [reflexivity|]. apply filter_In. split.
  - apply in_flat_map. exists m. split; [exact Hm|].
    apply in_map, filter_In. split; [exact Ha|].
    apply String.eqb_eq. congruence.
  - simpl. now apply String.eqb_eq.
Qed.


(** X17. A farm for which [load_animals] returns no animal has no record:
    its totals are 0, its annual table and its trend are empty, and the
    overview shows the metrics 0, 0 and 0 cows. *)
Theorem farm_without_animals (d : db) (today : date) (farm : string) :
  load_animals d farm = [] ->
  farm_records d farm = []
  /\ farm_yield_summary d today farm
     = {| fs_total := 0 # 1; fs_days := 0;
          fs_df_year := []; fs_df_12mo := [] |}
  /\ farm_metrics d today farm = ("0"%string, "0"%string, O).
Proof.
  intros Hnone.
  assert (Hrec : farm_records d farm = []).
  { destruct (farm_records d farm) as [|m l] eqn:E; [reflexivity|].
    assert (Hm : In m (farm_records d farm)) by (rewrite E; now left).
    apply farm_record_tag_listed in Hm. rewrite Hnone in Hm.
    contradiction. }
  split; [exact Hrec|].
  pose proof (farm_summary_no_records d today farm Hrec) as Hs.
  split; [exact Hs|].
  unfold farm_metrics. rewrite Hs, Hnone. reflexivity.
Qed.

(** ** The export of any table *)

(** X18. The export does not fail on any annual table, with or without the
    cows column, whatever its numbers are: the text it writes reads back
    as the header Year, Total Liters, Days Milked, Avg Daily (L) followed
    by one row of four fields per table row, the year as it is and the
    three other columns in their formats; for the empty table it is the
    header alone. *)
Theorem csv_download_any_table (float_repr : Q -> string)
        (with_cows : bool) (df : list year_row) :
  exists text,
    csv_download float_repr (frame_of_df_year with_cows df) = Some text
    /\ parse_csv text
       = ["Year"; "Total Liters"; "Days Milked"; "Avg Daily (L)"]%string
           :: map (fun r =>
                     [str_int (yr_year r);
                      format_comma_0f (yr_liters r);
                      format_comma_0f (inject_Z (yr_days r));
                      format_float format_comma_1f (yr_avg_daily r)])
                  df.
Proof.
  unfold csv_download. rewrite csv_of_df_year. eexists.
  split; [reflexivity|].
  unfold to_csv. cbn [fr_columns fr_rows option_map]. rewrite map_map.
  cbn [map cell_text].
  apply (parse_csv_written
           (_ :: map (fun r =>
                        [str_int (yr_year r);
                         format_comma_0f (yr_liters r);
                         format_comma_0f (inject_Z (yr_days r));
                         format_float format_comma_1f (yr_avg_daily r)])
                     df)).
  constructor.
  - split; [discriminate|]. repeat constructor.
  - apply Forall_forall. intros fields Hf. apply in_map_iff in Hf.
    destruct Hf as (r & <- & _). split; [discriminate|].
    repeat constructor.
    + apply inline_str_int.
    + apply inline_format_comma_0f.
    + apply inline_format_comma_0f.
    + apply inline_format_float, inline_format_comma_1f.
Qed.

(** ** The trend table on the page *)

Lemma by_month_nil_iff (rows : list milk) : by_month rows = [] <-> rows = [].
Proof.
  split; [|intros ->; reflexivity].
  intros H. destruct rows as [|m l]; [reflexivity|].
  assert (Hin : In (record_month m) (map fst (by_month (m :: l)))).
  { apply by_month_months. exists m. split; [now left|reflexivity]. }
  rewrite H in Hin. contradiction.
Qed.

Lemma parse_number_format_int (z : Z) :
  0 <= z -> parse_number (format_comma_0f (inject_Z z)) = Some (inject_Z z).
Proof.
  intros H. rewrite parse_number_format_0f.
  - now rewrite round_half_even_Z.
  - change 0%Q with (inject_Z 0). now rewrite <- Zle_Qle.
Qed.

Lemma tbl_of_trend (count : list milk -> Z) (rows : list milk) :
  (forall m, In m rows -> (0 <= yield_value m)%Q) ->
  (forall g, 0 <= count g) ->
  match tbl (map (fun g =>
                    (fst g, round_half_even (Qsum (yields (snd g))),
                     count (snd g)))
                 (by_month rows)) with
  | Info _ => rows = []
  | Table shown =>
      rows <> []
      /\ Forall2
           (fun r cells =>
              fst (fst cells) = t_month r
              /\ parse_number (snd (fst cells)) = Some (inject_Z (t_liters r))
              /\ parse_number (snd cells) = Some (inject_Z (t_sessions r)))
           (map (fun g =>
                   (fst g, round_half_even (Qsum (yields (snd g))),
                    count (snd g)))
                (by_month rows))
           shown
  end.
Proof.
  intros Hpos Hcount.
  destruct (by_month rows) as [|g0 gs] eqn:E.
  - simpl. now apply by_month_nil_iff.
  - assert (Hne : rows <> []).
    { intros ->. discriminate. }
    rewrite <- E. unfold tbl.
    destruct (map _ (by_month rows)) as [|r0 rs] eqn:Em.
    + rewrite E in Em. discriminate.
    + rewrite <- Em. split; [exact Hne|].
      apply Forall2_map_right. intros r Hr.
      apply in_map_iff in Hr. destruct Hr as (g & <- & Hg).
      unfold t_month, t_liters, t_sessions. cbn [fst snd].
      split; [reflexivity|]. split.
      * apply parse_number_format_int, round_half_even_nonneg, Qsum_nonneg.
        intros q Hq. unfold yields in Hq. apply in_map_iff in Hq.
        destruct Hq as (m & <- & Hm). apply Hpos.
        destruct g as [k g]. simpl in Hm.
        unfold by_month in Hg.
        now apply (GROUP_BY_group_In month_key_eq_dec month_key_leb
                     record_month _ _ rows m Hg) in Hm.
      * apply parse_number_format_int, Hcount.
Qed.


(** ** Duration and age *)

(** X20. For an animal with at least one record, all dated on days
    pd.to_datetime reads, the duration is at least 1, and it is 1 exactly
    when the lactation days are 1, that is when all its records share one
    date. *)
Theorem duration_of_a_single_day (d : db) (today : date) (tag : string) :
  (forall m, In m (animal_records d tag) ->
             timestamp_day (record_date m) = true) ->
  animal_records d tag <> [] ->
  let s := animal_yield_summary d today tag in
  1 <= as_duration s /\ (as_duration s = 1 <-> as_days s = 1).
Proof.
  intros Hts Hne s.
  set (ds := dates (animal_records d tag)).
  assert (Hds : ds <> []).
  { unfold ds, dates. destruct (animal_records d tag);
      [congruence|discriminate]. }
  assert (Ht : forall x, In x ds -> timestamp_day x = true).
  { intros x Hx. unfold ds, dates in Hx. apply in_map_iff in Hx.
    destruct Hx as (m & <- & Hm). auto. }
  assert (Hv : forall x, In x ds -> valid_date x = true)
    by (intros x Hx; apply timestamp_day_valid; auto).
  destruct (duration_of_records ds (lactation_days (animal_records d tag))
              Hv Hds) as (d0 & d1 & H0 & H1 & Hspan & Hd).
  rewrite (Ht d0 H0), (Ht d1 H1) in Hd. cbn [andb] in Hd.
  assert (Edur : as_duration s = toordinal d1 - toordinal d0 + 1)
    by exact Hd.
  assert (Edays : as_days s = COUNT_DISTINCT date_eq_dec ds) by reflexivity.
  rewrite Edur, Edays. pose proof (Hspan d0 H0) as Hd0.
  split; [lia|]. split.
  - intros E.
    assert (Hall : forall x, In x ds -> x = d0).
    { intros x Hx. apply toordinal_inj; auto. specialize (Hspan x Hx). lia. }
    pose proof (COUNT_DISTINCT_pos date_eq_dec ds Hds) as Hlo.
    pose proof (COUNT_DISTINCT_incl date_eq_dec ds [d0]) as Hhi.
    simpl in Hhi.
    assert (incl ds [d0]) by (intros x Hx; left; symmetry; auto).
    specialize (Hhi H). lia.
  - intros E. unfold COUNT_DISTINCT in E.
    destruct (nodup date_eq_dec ds) as [|x [|y l]] eqn:En;
      simpl in E; try lia.
    assert (In d0 [x]) by (rewrite <- En; now apply nodup_In).
    assert (In d1 [x]) by (rewrite <- En; now apply nodup_In).
    simpl in *. intuition subst. lia.
Qed.

(** X21. The age of the cow page: a dash for an absent birth date, and for
    a birth date pd.to_datetime reads the count of whole 30-day periods
    between birth date and today, which is negative exactly when the birth
    date is after today. *)
Theorem age_in_thirty_day_periods (today : date) :
  valid_date today = true ->
  age today None = Some None
  /\ (forall b,
         timestamp_day b = true ->
         exists n,
           age today (Some b) = Some (Some n)
           /\ 30 * n <= toordinal today - toordinal b < 30 * n + 30
           /\ (0 <= n <-> date_leb b today = true)).
Proof.
  intros Hv. split; [reflexivity|]. intros b Hb.
  unfold age, to_datetime_date. rewrite Hb. eexists.
  split; [reflexivity|].
  pose proof (date_leb_toordinal b today (timestamp_day_valid b Hb) Hv) as Hle.
  set (days := toordinal today - toordinal b) in *.
  pose proof (Z.div_mod days 30 ltac:(lia)) as Hdm.
  pose proof (Z.mod_pos_bound days 30 ltac:(lia)) as Hmod.
  split; [lia|]. rewrite Hle. unfold days in *. split; intros H; lia.
Qed.

(** ** The farm trend and the animal trends *)

Lemma animal_trend_has_month (d : db) (today : date) (tag : string)
      (mo : month_key) :
  existsb (month_key_eqb mo)
          (map t_month (as_df_12mo (animal_yield_summary d today tag)))
  = true
  <-> exists m, In m (on_or_after (since today) (animal_records d tag))
                /\ record_month m = mo.
Proof.
  rewrite existsb_exists, animal_trend_rows.
  rewrite (trend_months (fun g => COUNT g)). split.
  - intros (k & Hk & E). apply month_key_eqb_eq in E. subst k.
    now apply by_month_months.
  - intros H. exists mo. split; [now apply by_month_months|].
    now apply month_key_eqb_eq.
Qed.

(** X22. The session count the farm trend gives a month is the number of
    cows of the farm, among the ear tags [load_animals] returns, whose own
    12-month trend holds that month. *)
Theorem farm_sessions_count_cows (d : db) (today : date) (farm : string)
        (r : trend_row) :
  In r (fs_df_12mo (farm_yield_summary d today farm)) ->
  t_sessions r
  = Z.of_nat
      (length
         (filter (fun t =>
                    existsb (month_key_eqb (t_month r))
                            (map t_month
                                 (as_df_12mo
                                    (animal_yield_summary d today t))))
                 (nodup string_dec (map fst (load_animals d farm))))).
Proof.
  rewrite farm_trend_rows. intros H.
  destruct (trend_row_of_group
              (fun g => COUNT_DISTINCT string_dec (tags g)) _ r H)
    as (_ & _ & ->).
  unfold COUNT_DISTINCT. f_equal.
  apply Permutation_length, NoDup_Permutation.
  - apply NoDup_nodup.
  - apply NoDup_filter, NoDup_nodup.
  - intros t. rewrite nodup_In, filter_In, nodup_In.
    rewrite animal_trend_has_month. unfold tags. rewrite in_map_iff. split.
    + intros (m & Ht & Hm). apply filter_In in Hm.
      destruct Hm as [Hm Hmo]. unfold on_or_after in Hm.
      apply filter_In in Hm. destruct Hm as [Hm Hle].
      split; [rewrite <- Ht; now apply farm_record_tag_listed|].
      exists m. split; [|now apply month_key_eqb_eq].
      unfold on_or_after. apply filter_In. split; [|exact Hle].
      unfold animal_records. apply filter_In.
      split; [now apply farm_records_In in Hm|]. now apply String.eqb_eq.
    + intros (Hl & m & Hm & Hmo). unfold on_or_after in Hm.
      apply filter_In in Hm. destruct Hm as [Hm Hle].
      exists m. split.
      * unfold animal_records in Hm. apply filter_In in Hm.
        now apply String.eqb_eq.
      * apply filter_In. split; [|now apply month_key_eqb_eq].
        unfold on_or_after. apply filter_In. split; [|exact Hle].
        now apply (animal_records_in_farm d farm t).
Qed.

(** ** The further properties on the sample store *)

Local Open Scope string_scope.

Lemma green_pastures_yields_nonneg (m : milk) :
  In m (milk_yield Samples.green_pastures) -> (0 <= yield_value m)%Q.
Proof.
  simpl. intros [<-|[<-|[<-|[]]]]; unfold Qle; simpl; lia.
Qed.

Lemma green_pastures_T001_days (m : milk) :
  In m (animal_records Samples.green_pastures "T001") ->
  timestamp_day (record_date m) = true.
Proof.
  vm_compute. intros [<-|[<-|[<-|[]]]]; reflexivity.
Qed.

Lemma annual_cows_bounded_witness :
  exists c, yr_cows Samples.year_2023 = Some c
            /\ (1 <= c <= Z.of_nat (snd (farm_metrics Samples.green_pastures
                                          Samples.a_day_in_2023
                                          "Green Pastures")))%Z.
Proof.
  apply (proj1 (annual_cows_bounded Samples.green_pastures
                                    Samples.a_day_in_2023)
               "Green Pastures").
  vm_compute. left. reflexivity.
Defined.

Lemma lactation_days_and_annual_days_witness :
  (yr_days Samples.year_2023
   <= fs_days (farm_yield_summary Samples.green_pastures
                                  Samples.a_day_in_2023 "Green Pastures"))%Z.
Proof.
  apply (proj1 (proj1 (lactation_days_and_annual_days
                         Samples.green_pastures Samples.a_day_in_2023)
                      "Green Pastures")
               Samples.year_2023).
  vm_compute. left. reflexivity.
Defined.

Lemma trend_rows_stand_for_records_witness :
  let g := filter (in_month (t_month ((2023, 1), 35, 1)))
                  (on_or_after (since Samples.a_day_in_2023)
                               (farm_records Samples.green_pastures
                                             "Green Pastures")) in
  g <> [] /\ (1 <= t_sessions ((2023, 1), 35, 1) <= COUNT g)%Z.
Proof.
  apply (proj1 (trend_rows_stand_for_records Samples.green_pastures
                                             Samples.a_day_in_2023)
               "Green Pastures" ((2023, 1), 35, 1)).
  vm_compute. left. reflexivity.
Defined.

Lemma df_6mo_listing_witness :
  In (mkdate 2023 2 1, 18 # 1)
     (df_6mo Samples.green_pastures Samples.a_day_in_2023 "T001")
  <-> (toordinal Samples.a_day_in_2023 - 180 <= toordinal (mkdate 2023 2 1))%Z.
Proof.
  apply (proj2 (proj2 (df_6mo_listing Samples.green_pastures
                                      Samples.a_day_in_2023 "T001"))
               eq_refl eq_refl
               (fun m H => timestamp_day_valid _
                             (green_pastures_T001_days m H))
               (mkmilk "T001" (mkdate 2023 2 1) 2023 (18 # 1))).
  vm_compute. right. right. left. reflexivity.
Defined.

Lemma df_6mo_within_trend_witness :
  In (strftime_Ym (fst (mkdate 2023 2 1, 18 # 1)))
     (map t_month
          (as_df_12mo (animal_yield_summary Samples.green_pastures
                                            Samples.a_day_in_2023 "T001"))).
Proof.
  apply (df_6mo_within_trend Samples.green_pastures Samples.a_day_in_2023
                             "T001").
  - reflexivity.
  - reflexivity.
  - intros m H. apply timestamp_day_valid, green_pastures_T001_days, H.
  - vm_compute. right. right. left. reflexivity.
Defined.

Lemma window_starts_witness :
  valid_date (since Samples.a_day_in_2024) = true
  /\ toordinal (since Samples.a_day_in_2024)
     = (toordinal Samples.a_day_in_2024 - 365)%Z
  /\ valid_date (sub_days Samples.a_day_in_2024 180) = true
  /\ toordinal (sub_days Samples.a_day_in_2024 180)
     = (toordinal Samples.a_day_in_2024 - 180)%Z.
Proof.
  apply (window_starts Samples.a_day_in_2024); reflexivity.
Defined.


Lemma farm_records_by_ear_tag_witness :
  (forall farm,
      farm_records Samples.green_pastures farm
      = filter (fun m =>
                  existsb (fun a =>
                             String.eqb (ear_tag m) (a_ear_tag a)
                             && String.eqb (farm_name a) farm)
                          (animals Samples.green_pastures))
               (milk_yield Samples.green_pastures))
  /\ (forall m f1 f2,
         In m (farm_records Samples.green_pastures f1) ->
         In m (farm_records Samples.green_pastures f2) -> f1 = f2).
Proof.
  apply (proj2 (farm_records_by_ear_tag Samples.green_pastures)).
  simpl. repeat constructor; simpl; intuition discriminate.
Defined.


Lemma farm_without_animals_witness :
  farm_records Samples.green_pastures "Dry Creek" = []
  /\ farm_yield_summary Samples.green_pastures Samples.a_day_in_2023
                        "Dry Creek"
     = {| fs_total := 0 # 1; fs_days := 0;
          fs_df_year := []; fs_df_12mo := [] |}
  /\ farm_metrics Samples.green_pastures Samples.a_day_in_2023 "Dry Creek"
     = ("0", "0", O).
Proof.
  apply (farm_without_animals Samples.green_pastures Samples.a_day_in_2023
                              "Dry Creek").
  reflexivity.
Defined.


Lemma duration_of_a_single_day_witness :
  let s := animal_yield_summary Samples.green_pastures Samples.a_day_in_2023
                                "T001" in
  (1 <= as_duration s)%Z /\ (as_duration s = 1%Z <-> as_days s = 1%Z).
Proof.
  apply (duration_of_a_single_day Samples.green_pastures
                                  Samples.a_day_in_2023 "T001").
  - exact green_pastures_T001_days.
  - vm_compute. discriminate.
Defined.

Lemma age_in_thirty_day_periods_witness :
  age Samples.a_day_in_2023 None = Some None
  /\ (forall b,
         timestamp_day b = true ->
         exists n,
           age Samples.a_day_in_2023 (Some b) = Some (Some n)
           /\ (30 * n <= toordinal Samples.a_day_in_2023 - toordinal b
               < 30 * n + 30)%Z
           /\ ((0 <= n)%Z <-> date_leb b Samples.a_day_in_2023 = true)).
Proof.
  apply (age_in_thirty_day_periods Samples.a_day_in_2023). reflexivity.
Defined.

Lemma farm_sessions_count_cows_witness :
  t_sessions ((2023, 1), 35, 1)
  = Z.of_nat
      (length
         (filter (fun t =>
                    existsb (month_key_eqb (t_month ((2023, 1), 35, 1)))
                            (map t_month
                                 (as_df_12mo
                                    (animal_yield_summary
                                       Samples.green_pastures
                                       Samples.a_day_in_2023 t))))
                 (nodup string_dec
                        (map fst (load_animals Samples.green_pastures
                                               "Green Pastures"))))).
Proof.
  apply (farm_sessions_count_cows Samples.green_pastures
                                  Samples.a_day_in_2023 "Green Pastures").
  vm_compute. left. reflexivity.
Defined.
